(** * DataScrambleParallaxBackground: the seeded generator, the grid layout
    and the frame step, embedded from the TypeScript sources.

  - [src/utils/seededRandom.ts]: [createSeededRandom] and the closure
    [rand] it returns.
  - the background component: [seedKey], [computeGrid], the scroll and
    pointer handlers and the frame callback [draw].

  JavaScript numbers are IEEE 754 binary64 values.  Three views of them
  are used, each where the source makes it exact:
  - [Z] for values that are integers by construction (32-bit bit
    operations, the generator state, viewport sizes);
  - [number] for integer-valued results that may also be [NaN] or an
    infinity (grid metrics, cell indices);
  - [spec_float] at precision 53 (the Standard Library's specification of
    binary64) for the real-valued motion state of the frame step. *)

From Stdlib Require Import ZArith QArith Lia Bool List String Ascii SpecFloat.
From stdpp Require Import base option list gmap.

Local Open Scope Z_scope.

(** ** JavaScript numbers *)

Module JS.

(** *** 32-bit integer operators *)

Definition two32 : Z := 4294967296.
Definition two31 : Z := 2147483648.

(** [x >>> 0] on an integral number: reduction modulo 2^32. *)
Definition ToUint32 (x : Z) : Z := x mod two32.

(** The signed reading used by [^], [|] and [Math.imul]. *)
Definition ToInt32 (x : Z) : Z :=
  let u := x mod two32 in
  if two31 <=? u then u - two32 else u.

(** [a ^ b] *)
Definition xor (a b : Z) : Z := Z.lxor (ToInt32 a) (ToInt32 b).

(** [a | b] *)
Definition bor (a b : Z) : Z := Z.lor (ToInt32 a) (ToInt32 b).

(** [a >>> n] for a shift count [0 <= n < 32] *)
Definition ushr (a n : Z) : Z := Z.shiftr (ToUint32 a) n.

(** [Math.imul(a, b)] *)
Definition imul (a b : Z) : Z := ToInt32 (ToInt32 a * ToInt32 b).

(** Rounding of a non-negative integer to the nearest binary64 value,
    ties to even: integers of at most 53 bits are kept, longer ones lose
    their low bits.  This is what [+] and [*] do to an integral result. *)
Definition round53 (m : Z) : Z :=
  let d := Z.log2 m + 1 in
  if d <=? 53 then m
  else
    let sh := d - 53 in
    let q := Z.shiftr m sh in
    let r := Z.land m (Z.ones sh) in
    let half := Z.shiftl 1 (sh - 1) in
    let up := (half <? r) || ((r =? half) && Z.odd q) in
    Z.shiftl (if up then q + 1 else q) sh.

(** *** Integer-valued numbers

    The values the grid computation stores: an integer, [NaN] or an
    infinity.  Binary64 arithmetic on integers is exact while the results
    stay below 2^53, as every quantity does that [computeGrid] derives from
    the 32-bit sizes of a viewport a browser can lay out. *)
Inductive number : Set :=
| NaN
| Infinity (negative : bool)
| Int (z : Z).

(** [Math.min] and [Math.max], on either view of a number. *)
Class MinMax (A : Type) := {
  Math_min : A -> A -> A;
  Math_max : A -> A -> A
}.

Definition number_min (a b : number) : number :=
  match a, b with
  | NaN, _ | _, NaN => NaN
  | Infinity true, _ | _, Infinity true => Infinity true
  | Infinity false, x | x, Infinity false => x
  | Int x, Int y => Int (Z.min x y)
  end.

Definition number_max (a b : number) : number :=
  match a, b with
  | NaN, _ | _, NaN => NaN
  | Infinity false, _ | _, Infinity false => Infinity false
  | Infinity true, x | x, Infinity true => x
  | Int x, Int y => Int (Z.max x y)
  end.

#[global] Instance number_MinMax : MinMax number :=
  {| Math_min := number_min; Math_max := number_max |}.

(** [a * b] *)
Definition mul (a b : number) : number :=
  match a, b with
  | NaN, _ | _, NaN => NaN
  | Infinity s, Infinity s' => Infinity (xorb s s')
  | Infinity s, Int z | Int z, Infinity s =>
      if z =? 0 then NaN else Infinity (xorb s (z <? 0))
  | Int x, Int y => Int (x * y)
  end.

(** [a + b] *)
Definition add (a b : number) : number :=
  match a, b with
  | NaN, _ | _, NaN => NaN
  | Infinity s, Infinity s' => if eqb s s' then Infinity s else NaN
  | Infinity s, Int _ | Int _, Infinity s => Infinity s
  | Int x, Int y => Int (x + y)
  end.

(** [a - b] *)
Definition sub (a b : number) : number :=
  match a, b with
  | NaN, _ | _, NaN => NaN
  | Infinity s, Infinity s' => if eqb s s' then NaN else Infinity s
  | Infinity s, Int _ => Infinity s
  | Int _, Infinity s => Infinity (negb s)
  | Int x, Int y => Int (x - y)
  end.

(** [Math.floor(a / b)].  The binary64 quotient of two integers below
    2^53 lies strictly between the integers around the exact quotient
    unless that quotient is itself an integer, so its floor is the floor
    of the exact quotient. *)
Definition floor_div (a b : number) : number :=
  match a, b with
  | NaN, _ | _, NaN => NaN
  | Infinity _, Infinity _ => NaN
  | Infinity s, Int y => Infinity (xorb s (y <? 0))
  | Int _, Infinity _ => Int 0
  | Int x, Int y =>
      if y =? 0 then (if x =? 0 then NaN else Infinity (x <? 0))
      else Int (x / y)
  end.

(** *** binary64 numbers *)

Definition prec : Z := 53.
Definition emax : Z := 1024.

Definition of_Z (z : Z) : spec_float := binary_normalize prec emax z 0 false.
Definition fmul : spec_float -> spec_float -> spec_float := SFmul prec emax.
Definition fadd : spec_float -> spec_float -> spec_float := SFadd prec emax.
Definition fsub : spec_float -> spec_float -> spec_float := SFsub prec emax.
Definition fdiv : spec_float -> spec_float -> spec_float := SFdiv prec emax.

(** A decimal literal [n/d]: the binary64 value nearest to the quotient. *)
Definition lit (n d : Z) : spec_float := fdiv (of_Z n) (of_Z d).

(** [Math.floor(x)], exact on every finite value. *)
Definition Math_floor (x : spec_float) : number :=
  match x with
  | S754_nan => NaN
  | S754_infinity s => Infinity s
  | S754_zero _ => Int 0
  | S754_finite s m e =>
      let n := cond_Zopp s (Zpos m) in
      Int (if 0 <=? e then n * 2 ^ e else n / 2 ^ (- e))
  end.

(** [Math.round(x)]: the floor of [x + 1/2], taken exactly. *)
Definition Math_round (x : spec_float) : number :=
  match x with
  | S754_nan => NaN
  | S754_infinity s => Infinity s
  | S754_zero _ => Int 0
  | S754_finite s m e =>
      let n := cond_Zopp s (Zpos m) in
      Int (if 0 <=? e then n * 2 ^ e
           else (2 * n + 2 ^ (- e)) / 2 ^ (1 - e))
  end.

(** [Math.floor(x * n)] for the dyadic [x = k / 2^j] returned by the
    generator and a string length [n]: the product [k * n / 2^j] is rounded
    to binary64 and then floored. *)
Definition floor_times (x : Q) (n : Z) : Z :=
  round53 (Qnum x * n) / Zpos (Qden x).

(** Storing into a [Uint16Array] keeps the low 16 bits. *)
Definition ToUint16 (x : Z) : Z := x mod 65536.

(** An integer-valued number as a binary64 value. *)
Definition to_float (a : number) : spec_float :=
  match a with
  | NaN => S754_nan
  | Infinity s => S754_infinity s
  | Int z => of_Z z
  end.

(** The sign bit of a zero, used to order [-0] below [+0]. *)
Definition is_negative_zero (x : spec_float) : bool :=
  match x with
  | S754_zero true => true
  | _ => false
  end.

Definition float_min (a b : spec_float) : spec_float :=
  match SFcompare a b with
  | None => S754_nan
  | Some Lt => a
  | Some Gt => b
  | Some Eq => if is_negative_zero a then a else b
  end.

Definition float_max (a b : spec_float) : spec_float :=
  match SFcompare a b with
  | None => S754_nan
  | Some Lt => b
  | Some Gt => a
  | Some Eq => if is_negative_zero a then b else a
  end.

#[global] Instance float_MinMax : MinMax spec_float :=
  {| Math_min := float_min; Math_max := float_max |}.

(** [a < b] and [a <= b]; both are false when an operand is [NaN]. *)
Definition flt : spec_float -> spec_float -> bool := SFltb.
Definition fle : spec_float -> spec_float -> bool := SFleb.

(** Truthiness of a number: [0], [-0] and [NaN] are falsy. *)
Definition truthy (x : spec_float) : bool :=
  match x with
  | S754_nan | S754_zero _ => false
  | _ => true
  end.

(** [x || y] *)
Definition or_else (x y : spec_float) : spec_float :=
  if truthy x then x else y.

(** Finite values: what a WebIDL [double] attribute can hold. *)
Definition is_finite (x : spec_float) : bool :=
  match x with
  | S754_zero _ | S754_finite _ _ _ => true
  | _ => false
  end.

Definition is_zero (x : spec_float) : bool :=
  match x with
  | S754_zero _ => true
  | _ => false
  end.

(** A binary64 value in [0, 1): what [Math.random()] returns. *)
Definition inUnitInterval (r : spec_float) : bool :=
  match r with
  | S754_zero _ => true
  | S754_finite false _ _ => valid_binary prec emax r && flt r (of_Z 1)
  | _ => false
  end.

(** For the analysis of [SFmul]: [mrs] holds [M] shifted right by [k] bits,
    and its round bit is set only if the bits shifted out amount to at least
    half a unit. *)
Definition shifted (M k : Z) (mrs : shr_record) : Prop :=
  shr_m mrs = M / 2 ^ k /\ (shr_r mrs = true -> 2 ^ k <= 2 * (M mod 2 ^ k)).

(** The number of bits a shift removes. *)
Definition bits (k : Z) : Z := Z.max 0 k.

(** Keys of a [Map] are compared by value. *)
#[global] Instance number_eq_dec : EqDecision number.
Proof. solve_decision. Defined.

#[global] Instance number_countable : Countable number.
Proof.
  refine (inj_countable'
    (fun n => match n with
              | NaN => inl tt
              | Infinity s => inr (inl s)
              | Int z => inr (inr z)
              end)
    (fun x => match x with
              | inl _ => NaN
              | inr (inl s) => Infinity s
              | inr (inr z) => Int z
              end) _).
  by intros [].
Defined.

End JS.

(** ** [utils/seededRandom.ts] *)

Module SeededRandom.
Import JS.

(** The closure variable [s].  It is a number, not a 32-bit integer: the
    source adds the increment without wrapping, and only the bit
    operations reduce it. *)
Definition gen := Z.

(** [let s = seed >>> 0 || 0x9e3779b9] *)
Definition createSeededRandom (seed : Z) : gen :=
  let s := ToUint32 seed in
  if s =? 0 then 0x9e3779b9 else s.

(** [s += 0x6D2B79F5] *)
Definition advance (s : gen) : gen := round53 (s + 0x6D2B79F5).

(** The 32 bits [(t ^ (t >>> 14)) >>> 0] computed from the advanced
    state. *)
Definition mix (s : Z) : Z :=
  let t := s in
  let t := imul (xor t (ushr t 15)) (bor t 1) in
  let t := xor t (t + imul (xor t (ushr t 7)) (bor t 61)) in
  ToUint32 (xor t (ushr t 14)).

(** One call of [rand()]: the value returned and the new closure state.
    The quotient by 4294967296 is exact in binary64. *)
Definition rand (s : gen) : Q * gen :=
  let s' := advance s in
  (mix s' # 4294967296, s')%Q.

(** The state of the closure after [n] calls and the value of call
    [n + 1], for a generator created with [seed]. *)
Definition nthState (seed : Z) (n : nat) : gen :=
  Nat.iter n advance (createSeededRandom seed).

Definition nthValue (seed : Z) (n : nat) : Q :=
  fst (rand (nthState seed n)).

(** *** Several generators side by side

    Each call of [createSeededRandom] makes a closure with a variable [s]
    of its own.  A store maps the closures created so far to their [s]. *)

Definition create (seed : Z) (σ : gmap nat gen) : nat * gmap nat gen :=
  let g := fresh (dom σ) in
  (g, <[g := createSeededRandom seed]> σ).

(** Calling the closure [g]; nothing is returned for a name that denotes no
    closure. *)
Definition call (g : nat) (σ : gmap nat gen) : option Q * gmap nat gen :=
  match σ !! g with
  | Some s => let '(x, s') := rand s in (Some x, <[g := s']> σ)
  | None => (None, σ)
  end.

(** A schedule lists the closures called, in order; the trace records each
    value returned with the closure that returned it. *)
Fixpoint calls (sched : list nat) (σ : gmap nat gen)
    : list (nat * Q) * gmap nat gen :=
  match sched with
  | [] => ([], σ)
  | g :: rest =>
      let '(r, σ1) := call g σ in
      let '(tr, σ2) := calls rest σ1 in
      (match r with Some x => (g, x) :: tr | None => tr end, σ2)
  end.

Definition outputs (g : nat) (tr : list (nat * Q)) : list Q :=
  snd <$> filter (fun e : nat * Q => e.1 = g) tr.

(** How often a schedule calls [g]. *)
Definition callsTo (g : nat) (sched : list nat) : nat :=
  length (filter (fun g' => g' = g) sched).

(** Two closures created with the same seed at different times, among
    arbitrary other calls: [A] is created first and [sched0] runs; then [B]
    is created and [sched1] runs.  The result pairs the values [A] returned
    over both schedules with the values [B] returned. *)
Definition twoGenerators (seed : Z) (σ : gmap nat gen)
    (sched0 sched1 : list nat) : list Q * list Q :=
  let '(gA, σ1) := create seed σ in
  let '(tr0, σ2) := calls sched0 σ1 in
  let '(gB, σ3) := create seed σ2 in
  let '(tr1, σ4) := calls sched1 σ3 in
  (outputs gA (tr0 ++ tr1), outputs gB tr1).

End SeededRandom.

(** ** The background component *)

Module Background.
Import JS SeededRandom.

Record Props := {
  density : option spec_float;
  parallaxStrength : spec_float;
  scrambleFrequency : spec_float;
  color : string;
  highlightColor : string;
  glyphs : string
}.

(** The defaults of the destructured props. *)
Definition defaultProps : Props := {|
  density := None;
  parallaxStrength := lit 8 100;
  scrambleFrequency := lit 8 100;
  color := "rgba(255,255,255,0.22)";
  highlightColor := "rgba(255,255,255,0.35)";
  glyphs := "0123456789ABCDEFGHIJKLMNOPQRSTUVWXYZ"
|}.

Record GridMetrics := {
  cols : number;
  rows : number;
  cell : number;
  offsetX : number;
  offsetY : number
}.

Record ScrambleCell := {
  glyphIndex : number;
  until : spec_float
}.

(** What the handlers read from [window] and from the canvas element.
    Sizes are the integers of the DOM's [long] attributes. *)
Record Window := {
  innerWidth : N;
  innerHeight : N;
  devicePixelRatio : spec_float;
  scrollY : spec_float;
  pageYOffset : spec_float
}.

Record Canvas := {
  clientWidth : N;
  clientHeight : N
}.

(** The refs of one mounted component, the values last assigned to
    [canvas.width] and [canvas.height], and the state of its memoised
    generator [rand]. *)
Record Widget := {
  canvasWidth : number;
  canvasHeight : number;
  dprRef : spec_float;
  gridRef : option GridMetrics;
  baseGridRef : option (list Z);
  scrambleMapRef : gmap number ScrambleCell;
  lastTimestampRef : spec_float;
  scrollTargetRef : spec_float;
  scrollSmoothedRef : spec_float;
  velocityRef : spec_float;
  lastScrollRef : spec_float * spec_float;
  mouseOffsetRef : spec_float * spec_float;
  randState : gen
}.

Definition clamp {A} `{MinMax A} (v min max : A) : A :=
  Math_max min (Math_min max v).

(** [a + (b - a) * t] *)
Definition lerp (a b t : spec_float) : spec_float :=
  fadd a (fmul (fsub b a) t).

(** [Math.round] of [innerWidth] and [innerHeight] is the identity on the
    integers they hold; each product is a binary64 product. *)
Definition seedKey (isClient : bool) (win : Window) : Z :=
  let w := if isClient then Z.of_N (innerWidth win) else 1024 in
  let h := if isClient then Z.of_N (innerHeight win) else 768 in
  xor (round53 (w * 73856093)) (round53 (h * 19349663)).

Definition zero : spec_float := S754_zero false.

(** The refs as [useRef] initialises them and the generator as [useMemo]
    creates it. *)
Definition mount (isClient : bool) (win : Window) : Widget := {|
  canvasWidth := Int 300;
  canvasHeight := Int 150;
  dprRef := if isClient then or_else (devicePixelRatio win) (of_Z 1) else of_Z 1;
  gridRef := None;
  baseGridRef := None;
  scrambleMapRef := ∅;
  lastTimestampRef := zero;
  scrollTargetRef := zero;
  scrollSmoothedRef := zero;
  velocityRef := zero;
  lastScrollRef := (zero, zero);
  mouseOffsetRef := (zero, zero);
  randState := createSeededRandom (seedKey isClient win)
|}.

Definition baseCell : Z := 20.

Definition isMobile (win : Window) : bool := Z.of_N (innerWidth win) <? 768.

(** [clamp(Math.round(baseCell * densityMul), 16, 24)] *)
Definition cellSize (isClient : bool) (win : Window) (P : Props) : number :=
  let mobile := if isClient then isMobile win else false in
  let densityMul :=
    match density P with
    | Some d => d
    | None => if mobile then lit 9 10 else of_Z 1
    end in
  clamp (Math_round (fmul (of_Z baseCell) densityMul)) (Int 16) (Int 24).

(** The trip count of [for (i = 0; i < n; i++)] and the length of
    [new Uint16Array(n)]: [NaN] gives no iteration and an empty array.  An
    infinite bound would not terminate and a negative or infinite length
    throws; the metrics [computeGrid] stores are never such. *)
Definition tripCount (n : number) : nat :=
  match n with
  | Int z => Z.to_nat z
  | _ => O
  end.

(** [buf[i] = Math.floor(rand() * glyphs.length)] for [n] cells. *)
Fixpoint fillBase (n : nat) (len : Z) (g : gen) : list Z * gen :=
  match n with
  | O => ([], g)
  | S n' =>
      let '(x, g1) := rand g in
      let '(rest, g2) := fillBase n' len g1 in
      (ToUint16 (floor_times x len) :: rest, g2)
  end.

Definition widthCss (isClient : bool) (canvas : Canvas) : Z :=
  if isClient then Z.of_N (clientWidth canvas) else 1920.

Definition heightCss (isClient : bool) (canvas : Canvas) : Z :=
  if isClient then Z.of_N (clientHeight canvas) else 1080.

(** The metrics [computeGrid] stores in [gridRef]. *)
Definition gridMetrics (isClient : bool) (win : Window) (canvas : Canvas)
    (P : Props) : GridMetrics :=
  let cell := cellSize isClient win P in
  let cols := floor_div (Int (widthCss isClient canvas)) cell in
  let rows := floor_div (Int (heightCss isClient canvas)) cell in
  let totalW := mul cols cell in
  let totalH := mul rows cell in
  let offsetX := floor_div (sub (Int (widthCss isClient canvas)) totalW) (Int 2) in
  let offsetY := floor_div (sub (Int (heightCss isClient canvas)) totalH) (Int 2) in
  {| cols := cols; rows := rows; cell := cell;
     offsetX := offsetX; offsetY := offsetY |}.

Definition computeGrid (isClient : bool) (win : Window) (canvas : Canvas)
    (P : Props) (w : Widget) : Widget :=
  let dpr := if isClient then or_else (devicePixelRatio win) (of_Z 1) else of_Z 1 in
  let gm := gridMetrics isClient win canvas P in
  let totalCells := mul (cols gm) (rows gm) in
  let '(buf, g) :=
    fillBase (tripCount totalCells) (Z.of_nat (String.length (glyphs P)))
             (randState w) in
  {| canvasWidth :=
       Math_max (Int 1) (Math_floor (fmul (of_Z (widthCss isClient canvas)) dpr));
     canvasHeight :=
       Math_max (Int 1) (Math_floor (fmul (of_Z (heightCss isClient canvas)) dpr));
     dprRef := dpr;
     gridRef := Some gm;
     baseGridRef := Some buf;
     scrambleMapRef := scrambleMapRef w;
     lastTimestampRef := lastTimestampRef w;
     scrollTargetRef := scrollTargetRef w;
     scrollSmoothedRef := scrollSmoothedRef w;
     velocityRef := velocityRef w;
     lastScrollRef := lastScrollRef w;
     mouseOffsetRef := mouseOffsetRef w;
     randState := g |}.

(** *** Scroll and pointer handlers *)

Definition onScroll (now : spec_float) (win : Window) (w : Widget) : Widget :=
  let y := or_else (or_else (scrollY win) (pageYOffset win)) zero in
  let dt := or_else (fsub now (snd (lastScrollRef w))) (of_Z 16) in
  let dy := or_else (fsub y (fst (lastScrollRef w))) zero in
  let v := fdiv (SFabs dy) (Math_max (of_Z 1) dt) in
  {| canvasWidth := canvasWidth w;
     canvasHeight := canvasHeight w;
     dprRef := dprRef w;
     gridRef := gridRef w;
     baseGridRef := baseGridRef w;
     scrambleMapRef := scrambleMapRef w;
     lastTimestampRef := lastTimestampRef w;
     scrollTargetRef := y;
     scrollSmoothedRef := scrollSmoothedRef w;
     velocityRef := lerp (velocityRef w) v (lit 35 100);
     lastScrollRef := (y, now);
     mouseOffsetRef := mouseOffsetRef w;
     randState := randState w |}.

Definition onMouseMove (win : Window) (clientX clientY : spec_float)
    (w : Widget) : Widget :=
  if Z.of_N (innerWidth win) <? 1024 then w
  else
    let cx := fdiv (of_Z (Z.of_N (innerWidth win))) (of_Z 2) in
    let cy := fdiv (of_Z (Z.of_N (innerHeight win))) (of_Z 2) in
    let one := of_Z 1 in
    let x := fmul (clamp (fdiv (fsub clientX cx) cx) (SFopp one) one) (of_Z 2) in
    let y := fmul (clamp (fdiv (fsub clientY cy) cy) (SFopp one) one) (of_Z 2) in
    {| canvasWidth := canvasWidth w;
       canvasHeight := canvasHeight w;
       dprRef := dprRef w;
       gridRef := gridRef w;
       baseGridRef := baseGridRef w;
       scrambleMapRef := scrambleMapRef w;
       lastTimestampRef := lastTimestampRef w;
       scrollTargetRef := scrollTargetRef w;
       scrollSmoothedRef := scrollSmoothedRef w;
       velocityRef := velocityRef w;
       lastScrollRef := lastScrollRef w;
       mouseOffsetRef := (x, y);
       randState := randState w |}.

(** *** The frame callback *)

(** What one animation frame reads from its environment: the timestamp
    passed by [requestAnimationFrame], the window, the two readings of
    [performance.now()] and the successive results of [Math.random()]. *)
Record Frame := {
  t : spec_float;
  frameWindow : Window;
  nowBurst : spec_float;
  nowPurge : spec_float;
  random : nat -> spec_float
}.

(** One [fillText] call of the render pass. *)
Record Drawn := {
  drawnIndex : number;
  drawnScramble : option ScrambleCell;
  drawnGlyphIndex : option number;
  drawnGlyph : option ascii;
  drawnFillStyle : string;
  drawnX : spec_float;
  drawnY : spec_float
}.

(** What a frame that reaches the render pass computes and paints.  The
    background fill and the vignette touch no state and are left out. *)
Record Painted := {
  dt : spec_float;
  target : spec_float;
  translateX : spec_float;
  translateY : spec_float;
  inserted : list number;
  cells : list Drawn
}.

(** [a[i]] on an array: [undefined] unless [i] is an index in range. *)
Definition index {A} (a : list A) (i : number) : option A :=
  match i with
  | Int z => if 0 <=? z then a !! Z.to_nat z else None
  | _ => None
  end.

Definition effectiveScrambleBase (win : Window) (P : Props) : spec_float :=
  fmul (if isMobile win then lit 6 10 else of_Z 1) (scrambleFrequency P).

(** [-scrollTargetRef.current * (reduced ? 0 : parallaxStrength)] *)
Definition parallaxTarget (P : Props) (reduced : bool) (w : Widget) : spec_float :=
  fmul (SFopp (scrollTargetRef w)) (if reduced then zero else parallaxStrength P).

(** The loop that injects [n] cells, reading [Math.random()] from position
    [k] on: the index, the time to live and the replacement glyph, in that
    order.  It returns the map and the indices it set. *)
Fixpoint scrambleBurst (n : nat) (totalCells : number) (glyphCount : Z)
    (now : spec_float) (random : nat -> spec_float) (k : nat)
    (m : gmap number ScrambleCell) : gmap number ScrambleCell * list number :=
  match n with
  | O => (m, [])
  | S n' =>
      let idx := Math_floor (fmul (random k) (to_float totalCells)) in
      let ttl := fadd (of_Z 200) (fmul (random (k + 1)%nat) (of_Z 150)) in
      let entry :=
        {| glyphIndex := Math_floor (fmul (random (k + 2)%nat) (of_Z glyphCount));
           until := fadd now ttl |} in
      let '(m', ids) :=
        scrambleBurst n' totalCells glyphCount now random (k + 3)%nat
                      (<[idx := entry]> m) in
      (m', idx :: ids)
  end.

(** [if (vcell.until <= now) delete(k)] over the whole map. *)
Definition purge (now : spec_float) (m : gmap number ScrambleCell)
    : gmap number ScrambleCell :=
  filter (fun kv : number * ScrambleCell => fle (until kv.2) now = false) m.

(** The scramble branch of the frame: the map after it, the indices set and
    the number of [Math.random()] results consumed. *)
Definition scramble (P : Props) (reduced : bool) (F : Frame) (gm : GridMetrics)
    (w : Widget) : gmap number ScrambleCell * list number * nat :=
  if reduced then (∅, [], O)
  else
    let v := velocityRef w in
    let cap := clamp (fmul v (lit 16 10)) zero (lit 22 100) in
    let freq := effectiveScrambleBase (frameWindow F) P in
    let p := clamp (fmul freq cap) zero (lit 16 100) in
    let glyphCount := Z.of_nat (String.length (glyphs P)) in
    let '(m, ids, k) :=
      if flt (lit 5 1000) p then
        if flt (random F O) (lit 85 100) then
          let totalCells := mul (cols gm) (rows gm) in
          let count :=
            Math_max (Int 1)
              (Math_floor (fmul (to_float totalCells)
                                (clamp p (lit 1 100) (lit 12 100)))) in
          let '(m, ids) :=
            scrambleBurst (tripCount count) totalCells glyphCount (nowBurst F)
                          (random F) 1%nat (scrambleMapRef w) in
          (m, ids, (1 + 3 * tripCount count)%nat)
        else (scrambleMapRef w, [], 1%nat)
      else (scrambleMapRef w, [], O) in
    (purge (nowPurge F) m, ids, k).

(** The body of the two render loops for row [r] and column [c]; [j] is the
    position of its [Math.random()] result. *)
Definition renderCell (P : Props) (F : Frame) (gm : GridMetrics) (base : list Z)
    (m : gmap number ScrambleCell) (j : nat) (rc : nat * nat) : Drawn :=
  let '(r, c) := rc in
  let idx := add (mul (Int (Z.of_nat r)) (cols gm)) (Int (Z.of_nat c)) in
  let scrambled := m !! idx in
  let glyphIdx :=
    match scrambled with
    | Some sc => Some (glyphIndex sc)
    | None => Int <$> index base idx
    end in
  let g := glyphIdx ≫= index (list_ascii_of_string (glyphs P)) in
  let half := fmul (to_float (cell gm)) (lit 1 2) in
  {| drawnIndex := idx;
     drawnScramble := scrambled;
     drawnGlyphIndex := glyphIdx;
     drawnGlyph := g;
     drawnFillStyle :=
       if flt (random F j) (lit 6 100) then highlightColor P else color P;
     drawnX := fadd (to_float (mul (Int (Z.of_nat c)) (cell gm))) half;
     drawnY := fadd (to_float (mul (Int (Z.of_nat r)) (cell gm))) half |}.

(** Rows outside, columns inside. *)
Definition gridCells (gm : GridMetrics) : list (nat * nat) :=
  r ← seq 0 (tripCount (rows gm));
  c ← seq 0 (tripCount (cols gm));
  [(r, c)].

Definition render (P : Props) (F : Frame) (gm : GridMetrics) (base : list Z)
    (m : gmap number ScrambleCell) (k : nat) : list Drawn :=
  imap (fun j rc => renderCell P F gm base m (k + j) rc) (gridCells gm).

(** [draw(t)].  The result is [None] where the callback returns before
    painting.  Every path that passes the [running] test requests the next
    frame, whatever [document.visibilityState] is. *)
Definition draw (P : Props) (reduced running : bool) (F : Frame) (w : Widget)
    : Widget * option Painted :=
  if negb running then (w, None)
  else
    match gridRef w, baseGridRef w with
    | Some gm, Some base =>
        let smoothed :=
          lerp (scrollSmoothedRef w) (parallaxTarget P reduced w) (lit 8 100) in
        let driftX := if reduced then zero else fst (mouseOffsetRef w) in
        let driftY := if reduced then zero else snd (mouseOffsetRef w) in
        let '(m, ids, k) := scramble P reduced F gm w in
        ({| canvasWidth := canvasWidth w;
            canvasHeight := canvasHeight w;
            dprRef := dprRef w;
            gridRef := gridRef w;
            baseGridRef := baseGridRef w;
            scrambleMapRef := m;
            lastTimestampRef := t F;
            scrollTargetRef := scrollTargetRef w;
            scrollSmoothedRef := smoothed;
            velocityRef := velocityRef w;
            lastScrollRef := lastScrollRef w;
            mouseOffsetRef := mouseOffsetRef w;
            randState := randState w |},
         Some {| dt := Math_max (lit 1 10000)
                         (fsub (t F) (or_else (lastTimestampRef w) (t F)));
                 target := parallaxTarget P reduced w;
                 translateX := fadd (to_float (offsetX gm)) driftX;
                 translateY :=
                   fadd (fadd (to_float (offsetY gm)) smoothed) driftY;
                 inserted := ids;
                 cells := render P F gm base m k |})
    | _, _ =>
        ({| canvasWidth := canvasWidth w;
            canvasHeight := canvasHeight w;
            dprRef := dprRef w;
            gridRef := gridRef w;
            baseGridRef := baseGridRef w;
            scrambleMapRef := scrambleMapRef w;
            lastTimestampRef := t F;
            scrollTargetRef := scrollTargetRef w;
            scrollSmoothedRef := scrollSmoothedRef w;
            velocityRef := velocityRef w;
            lastScrollRef := lastScrollRef w;
            mouseOffsetRef := mouseOffsetRef w;
            randState := randState w |}, None)
    end.

(** *** The life of a mounted component *)

(** The callbacks the browser runs on a mounted component: a grid
    computation (on mount, on a resize, on a change of props), a scroll or
    pointer event, an animation frame. *)
Inductive event :=
| Recompute (win : Window) (canvas : Canvas) (P : Props)
| Scrolled (now : spec_float) (win : Window)
| MouseMoved (win : Window) (clientX clientY : spec_float)
| Animated (P : Props) (reduced running : bool) (F : Frame).

Definition step (e : event) (w : Widget) : Widget :=
  match e with
  | Recompute win canvas P => computeGrid true win canvas P w
  | Scrolled now win => onScroll now win w
  | MouseMoved win x y => onMouseMove win x y w
  | Animated P reduced running F => fst (draw P reduced running F w)
  end.

Definition run (es : list event) (w : Widget) : Widget :=
  fold_left (fun w e => step e w) es w.

(** [window.scrollY] and [window.pageYOffset] are WebIDL [double]s: finite. *)
Definition well_typed (e : event) : bool :=
  match e with
  | Scrolled _ win => is_finite (scrollY win) && is_finite (pageYOffset win)
  | _ => true
  end.

Inductive reachable : Widget -> Prop :=
| reachable_mount win : reachable (mount true win)
| reachable_step e w :
    well_typed e = true -> reachable w -> reachable (step e w).

(** The number of [rand()] calls an event makes: one per cell of the grid
    it computes. *)
Definition samples (e : event) : nat :=
  match e with
  | Recompute win canvas P =>
      let gm := gridMetrics true win canvas P in
      tripCount (mul (cols gm) (rows gm))
  | _ => O
  end.

Definition samplesDrawn (es : list event) : nat :=
  fold_right (fun e n => (samples e + n)%nat) O es.

(** *** Properties named by the specification *)

(** A cell index of the grid [gm]: an integer [i] with [0 <= i < cols*rows]. *)
Definition validIndex (gm : GridMetrics) (idx : number) : Prop :=
  exists i n, idx = Int i /\ mul (cols gm) (rows gm) = Int n /\ 0 <= i < n.

(** An integer in the inclusive range [[lo, hi]]. *)
Definition inRange (lo hi : Z) (x : number) : Prop :=
  exists z, x = Int z /\ lo <= z <= hi.

(** The [density] prop is present and is [NaN]. *)
Definition isNaN (d : option spec_float) : bool :=
  match d with
  | Some S754_nan => true
  | _ => false
  end.

(** What the handlers maintain: scramble entries exist only once a grid has
    been computed, and the scroll target is a finite number. *)
Definition consistent (w : Widget) : Prop :=
  (scrambleMapRef w <> ∅ -> is_Some (gridRef w) /\ is_Some (baseGridRef w)) /\
  is_finite (scrollTargetRef w) = true.

End Background.

(** ** Concrete scenes *)

Module Scene.
Import JS SeededRandom Background.

(** The 1024x768 viewport of the specification's examples. *)
Definition desktop : Window :=
  {| innerWidth := 1024; innerHeight := 768; devicePixelRatio := of_Z 2;
     scrollY := zero; pageYOffset := zero |}.

Definition scrolledTo (y : Z) : Window :=
  {| innerWidth := 1024; innerHeight := 768; devicePixelRatio := of_Z 2;
     scrollY := of_Z y; pageYOffset := of_Z y |}.

Definition fullCanvas : Canvas := {| clientWidth := 1024; clientHeight := 768 |}.

(** A canvas of three columns and two rows of 20px cells. *)
Definition smallCanvas : Canvas := {| clientWidth := 64; clientHeight := 48 |}.

(** A canvas whose box has collapsed to zero height. *)
Definition flatCanvas : Canvas := {| clientWidth := 1024; clientHeight := 0 |}.

Definition withDensity (d : spec_float) : Props :=
  {| density := Some d;
     parallaxStrength := parallaxStrength defaultProps;
     scrambleFrequency := scrambleFrequency defaultProps;
     color := color defaultProps;
     highlightColor := highlightColor defaultProps;
     glyphs := glyphs defaultProps |}.

(** A frame at [ms] milliseconds on a clock that does not advance during
    the frame, with every [Math.random()] result equal to 0.5. *)
Definition frameAt (ms : Z) : Frame :=
  {| t := of_Z ms; frameWindow := scrolledTo 300; nowBurst := of_Z ms;
     nowPurge := of_Z ms; random := fun _ => lit 1 2 |}.

(** Mount, the first grid computation, the [onScroll()] call of the mount
    effect and a scroll of 300px over 100ms. *)
Definition scrolling (canvas : Canvas) : list event :=
  [Recompute desktop canvas defaultProps;
   Scrolled (of_Z 16) desktop;
   Scrolled (of_Z 116) (scrolledTo 300)].

Definition scrolled (canvas : Canvas) : Widget :=
  run (scrolling canvas) (mount true desktop).

(** The same, followed by a frame with motion enabled. *)
Definition scrambled (canvas : Canvas) : Widget :=
  run (scrolling canvas ++ [Animated defaultProps false true (frameAt 133)])
      (mount true desktop).

(** The first [n] values of a generator. *)
Fixpoint values (n : nat) (s : gen) : list Q :=
  match n with
  | O => []
  | S n' => let '(x, s') := rand s in x :: values n' s'
  end.

(** Comparisons of the integer views with binary64 arithmetic as the
    Standard Library specifies it. *)
Definition floorDivAgrees (w c : Z) : bool :=
  bool_decide (Math_floor (fdiv (of_Z w) (of_Z c)) = floor_div (Int w) (Int c)).

Definition round53Agrees (m : Z) : bool :=
  bool_decide (Math_floor (of_Z m) = Int (round53 m)).

Definition floorTimesAgrees (len : Z) (x : Q) : bool :=
  bool_decide
    (Math_floor (fmul (binary_normalize prec emax (Qnum x) (-32) false) (of_Z len))
     = Int (floor_times x len)).

End Scene.

(** ** The generator as the specification words it *)

Module Mulberry32.
Import JS SeededRandom.

(** The generator as the specification words it: an internal 32-bit state
    advanced by the increment with wrap-around. *)
Definition advance32 (a : Z) : Z := (a + 0x6D2B79F5) mod two32.

Definition rand32 (a : Z) : Q * Z :=
  let a' := advance32 a in
  (mix a' # 4294967296, a')%Q.

Definition nthValue32 (seed : Z) (n : nat) : Q :=
  fst (rand32 (Nat.iter n advance32 (createSeededRandom seed))).

(** The last call whose state is still below 2^53 for every seed. *)
Definition exactCalls : Z := 4917756.
End Mulberry32.

(** ** What the further properties speak of *)

Module BackingStore.
Import JS.

(** A size assigned to [canvas.width] or [canvas.height] that is at least
    one pixel. *)
Definition positivePixels (x : number) : Prop :=
  match x with
  | Int z => 1 <= z
  | Infinity false => True
  | _ => False
  end.
End BackingStore.

Module Font.
Import JS.

(** [applyFont(cell)]: the pixel size [Math.floor(cell * 0.78)] put into the
    font string. *)
Definition applyFont (cell : number) : number :=
  Math_floor (fmul (to_float cell) (lit 78 100)).
End Font.

Module Drift.
Import JS.

(** [-b <= x <= b] *)
Definition within (b : Z) (x : spec_float) : Prop :=
  fle (SFopp (of_Z b)) x = true /\ fle x (of_Z b) = true.

(** A pointer offset: NaN or a number from -2 to 2. *)
Definition drift (x : spec_float) : Prop :=
  x = S754_nan \/ within 2 x.

(** The exponent is the one the format gives a mantissa of that length. *)
Definition canonical (x : spec_float) : Prop :=
  match x with
  | S754_finite _ m e => fexp prec emax (Z.pos (digits2_pos m) + e) = e
  | _ => True
  end.

End Drift.

Module Lifetime.
Import JS.

(** [200 + r * 150], the time to live of a scramble entry. *)
Definition ttl (r : spec_float) : spec_float :=
  fadd (of_Z 200) (fmul r (of_Z 150)).

End Lifetime.

Module Visible.
Import JS Background.

(** A canvas box on which at least one cell fits, of a size a browser can
    lay out. *)
Definition visible (canvas : Canvas) : Prop :=
  24 <= Z.of_N (clientWidth canvas) < 2 ^ 26 /\
  24 <= Z.of_N (clientHeight canvas) < 2 ^ 26.

End Visible.

Module Behaviour.
Import JS SeededRandom Background Scene.


(** The events that compute a grid. *)
Definition isRecompute (e : event) : bool :=
  match e with
  | Recompute _ _ _ => true
  | _ => false
  end.



(** An event during which the page rests at scroll position 0, on a clock
    that reads finite times. *)
Definition atRest (e : event) : bool :=
  match e with
  | Scrolled now win =>
      negb (truthy (scrollY win)) && negb (truthy (pageYOffset win))
      && is_finite now
  | _ => true
  end.

(** What a page at rest maintains. *)
Definition resting (w : Widget) : Prop :=
  is_zero (velocityRef w) = true /\
  is_zero (fst (lastScrollRef w)) = true /\
  is_finite (snd (lastScrollRef w)) = true /\
  scrambleMapRef w = ∅.

(** An event of a run in which reduced motion is active in every frame. *)
Definition reducedRun (e : event) : bool :=
  well_typed e &&
  match e with
  | Animated _ reduced _ _ => reduced
  | _ => true
  end.

(** What such a run maintains: no parallax offset, and a grid that a grid
    computation has laid out. *)
Definition still (w : Widget) : Prop :=
  is_zero (scrollSmoothedRef w) = true /\
  is_finite (scrollTargetRef w) = true /\
  (forall gm, gridRef w = Some gm ->
     exists win canvas P, gm = gridMetrics true win canvas P).

(** The default props with another alphabet. *)
Definition withGlyphs (g : string) : Props :=
  {| density := density defaultProps;
     parallaxStrength := parallaxStrength defaultProps;
     scrambleFrequency := scrambleFrequency defaultProps;
     color := color defaultProps;
     highlightColor := highlightColor defaultProps;
     glyphs := g |}.

(** Mount, the first grid computation and the [onScroll()] call of the
    mount effect, on a page that has not been scrolled. *)
Definition unscrolled (canvas : Canvas) : list event :=
  [Recompute desktop canvas defaultProps; Scrolled (of_Z 16) desktop].

(** The events of [scrolling], then a frame with reduced motion. *)
Definition reducedScrolling (canvas : Canvas) : list event :=
  scrolling canvas ++ [Animated defaultProps true true (frameAt 133)].

End Behaviour.

(** ** The effects and the animation-frame queue

    The resize effect and the draw effect of a mounted component, over the
    browser's list of animation-frame callbacks: [requestAnimationFrame]
    appends a callback under a handle that was never used before,
    [cancelAnimationFrame] removes the callback with the given handle, and
    an animation frame runs the callbacks that were pending when it
    started, in the order of the requests. *)
Module Scheduling.
Import JS SeededRandom Background.

Inductive callback :=
| GridCallback
| DrawCallback (instance : nat).

#[global] Instance callback_eq_dec : EqDecision callback.
Proof. solve_decision. Defined.

(** [frame] is the variable of the resize effect, [listening] tells whether
    its listener is attached; [running] names the run of the draw effect
    whose variable [running] is true, and [instances] counts the runs. *)
Record Page := {
  widget : Widget;
  queue : list (positive * callback);
  nextHandle : positive;
  frame : option positive;
  listening : bool;
  rafRef : option positive;
  running : option nat;
  reducedMotion : bool;
  instances : nat
}.

Definition isGrid (hc : positive * callback) : bool :=
  match hc.2 with
  | GridCallback => true
  | DrawCallback _ => false
  end.

Definition isDraw (hc : positive * callback) : bool := negb (isGrid hc).

(** [requestAnimationFrame(cb)]; the handle returned is the [nextHandle] of
    the page before the call. *)
Definition requestAnimationFrame (cb : callback) (p : Page) : Page :=
  {| widget := widget p;
     queue := queue p ++ [(nextHandle p, cb)];
     nextHandle := Pos.succ (nextHandle p);
     frame := frame p; listening := listening p; rafRef := rafRef p;
     running := running p; reducedMotion := reducedMotion p;
     instances := instances p |}.

(** [if (h) cancelAnimationFrame(h)] *)
Definition cancelAnimationFrame (h : option positive) (p : Page) : Page :=
  match h with
  | None => p
  | Some h =>
      {| widget := widget p;
         queue := List.filter (fun hc => negb (Pos.eqb hc.1 h)) (queue p);
         nextHandle := nextHandle p;
         frame := frame p; listening := listening p; rafRef := rafRef p;
         running := running p; reducedMotion := reducedMotion p;
         instances := instances p |}
  end.

(** The [resize] listener. *)
Definition onResize (p : Page) : Page :=
  let p1 := cancelAnimationFrame (frame p) p in
  let p2 := requestAnimationFrame GridCallback p1 in
  {| widget := widget p2; queue := queue p2; nextHandle := nextHandle p2;
     frame := Some (nextHandle p1);
     listening := listening p2; rafRef := rafRef p2;
     running := running p2; reducedMotion := reducedMotion p2;
     instances := instances p2 |}.

(** [rafRef.current = requestAnimationFrame(draw)] *)
Definition requestDraw (i : nat) (p : Page) : Page :=
  let p1 := requestAnimationFrame (DrawCallback i) p in
  {| widget := widget p1; queue := queue p1; nextHandle := nextHandle p1;
     frame := frame p1; listening := listening p1;
     rafRef := Some (nextHandle p);
     running := running p1; reducedMotion := reducedMotion p1;
     instances := instances p1 |}.

Definition setWidget (w : Widget) (p : Page) : Page :=
  {| widget := w; queue := queue p; nextHandle := nextHandle p;
     frame := frame p; listening := listening p; rafRef := rafRef p;
     running := running p; reducedMotion := reducedMotion p;
     instances := instances p |}.

(** One callback of an animation frame.  The draw callback of a run whose
    [running] is false returns at once; every other path of [draw] requests
    the next frame. *)
Definition runCallback (P : Props) (F : Frame) (canvas : Canvas)
    (cb : callback) (p : Page) : Page :=
  match cb with
  | GridCallback =>
      setWidget (computeGrid true (frameWindow F) canvas P (widget p)) p
  | DrawCallback i =>
      if bool_decide (running p = Some i) then
        requestDraw i
          (setWidget (draw P (reducedMotion p) true F (widget p)).1 p)
      else p
  end.

Definition clearQueue (p : Page) : Page :=
  {| widget := widget p; queue := []; nextHandle := nextHandle p;
     frame := frame p; listening := listening p; rafRef := rafRef p;
     running := running p; reducedMotion := reducedMotion p;
     instances := instances p |}.

Definition animationFrame (P : Props) (F : Frame) (canvas : Canvas)
    (p : Page) : Page :=
  fold_left (fun p hc => runCallback P F canvas hc.2 p) (queue p)
            (clearQueue p).

(** The body of the draw effect: [running = true] for a new run and the
    first request. *)
Definition startDraw (reduced : bool) (p : Page) : Page :=
  requestDraw (instances p)
    {| widget := widget p; queue := queue p; nextHandle := nextHandle p;
       frame := frame p; listening := listening p; rafRef := rafRef p;
       running := Some (instances p); reducedMotion := reduced;
       instances := S (instances p) |}.

(** The cleanup of the draw effect. *)
Definition stopDraw (p : Page) : Page :=
  cancelAnimationFrame (rafRef p)
    {| widget := widget p; queue := queue p; nextHandle := nextHandle p;
       frame := frame p; listening := listening p; rafRef := rafRef p;
       running := None; reducedMotion := reducedMotion p;
       instances := instances p |}.

(** The cleanup of the resize effect. *)
Definition stopResize (p : Page) : Page :=
  cancelAnimationFrame (frame p)
    {| widget := widget p; queue := queue p; nextHandle := nextHandle p;
       frame := frame p; listening := false; rafRef := rafRef p;
       running := running p; reducedMotion := reducedMotion p;
       instances := instances p |}.

(** The page once the effects of the first render have run: the grid is
    computed, [onScroll()] is called, the first frame is requested. *)
Definition mounted (P : Props) (reduced : bool) (win : Window) (canvas : Canvas)
    (now : spec_float) : Page :=
  startDraw reduced
    {| widget := onScroll now win
                   (computeGrid true win canvas P (mount true win));
       queue := []; nextHandle := 1%positive;
       frame := None; listening := true; rafRef := None;
       running := None; reducedMotion := reduced; instances := O |}.

Inductive occurrence :=
| Resized
| AnimationFrame (F : Frame) (canvas : Canvas)
| Rerun (reduced : bool)
| Unmounted.

(** A change of the dependencies of the draw effect cleans the old run up
    and starts a new one; React runs no effect of an unmounted component. *)
Definition perform (P : Props) (o : occurrence) (p : Page) : Page :=
  match o with
  | Resized => if listening p then onResize p else p
  | AnimationFrame F canvas => animationFrame P F canvas p
  | Rerun reduced => if listening p then startDraw reduced (stopDraw p) else p
  | Unmounted => stopResize (stopDraw p)
  end.

Definition performAll (P : Props) (os : list occurrence) (p : Page) : Page :=
  fold_left (fun p o => perform P o p) os p.

(** What the effects maintain: the pending grid callback, if any, is the one
    [frame] names; a draw callback is pending exactly while a run of the
    draw effect is running, it belongs to that run and [rafRef] names it;
    the handles in use are older than the next one and [frame] and [rafRef]
    never name the same callback. *)
Definition tidy (p : Page) : Prop :=
  (List.filter isGrid (queue p) = [] \/
   exists h, frame p = Some h /\
             List.filter isGrid (queue p) = [(h, GridCallback)]) /\
  match running p with
  | Some i => exists h, rafRef p = Some h /\
                        List.filter isDraw (queue p) = [(h, DrawCallback i)]
  | None => List.filter isDraw (queue p) = []
  end /\
  Forall (fun hc => (hc.1 < nextHandle p)%positive) (queue p) /\
  (forall h, frame p = Some h -> (h < nextHandle p)%positive) /\
  (forall h, rafRef p = Some h -> (h < nextHandle p)%positive) /\
  (forall h, frame p = Some h -> rafRef p <> Some h) /\
  (if listening p then is_Some (running p)
   else queue p = [] /\ running p = None).

(** The page after the occurrences [os] that follow the mount. *)
Definition reached (P : Props) (reduced : bool) (win : Window)
    (canvas : Canvas) (now : spec_float) (os : list occurrence) : Page :=
  performAll P os (mounted P reduced win canvas now).

(** Two pages that differ in the widget at most. *)
Definition sameSchedule (p q : Page) : Prop :=
  queue p = queue q /\ nextHandle p = nextHandle q /\ frame p = frame q /\
  listening p = listening q /\ rafRef p = rafRef q /\ running p = running q /\
  reducedMotion p = reducedMotion q /\ instances p = instances q.

End Scheduling.


(** * Properties *)

Import JS SeededRandom Background Scene.

(** ** The model on known values *)

Section Examples.

Example seed_zero_is_replaced : createSeededRandom 0 = 0x9e3779b9.
Proof. reflexivity. Qed.

Example first_values_seed_0 :
  map (nthValue 0) [0; 1; 2]%nat
  = [1541420728 # 4294967296; 454851044 # 4294967296;
     2900350524 # 4294967296]%Q.
Proof. reflexivity. Qed.

Example literal_0_08 : lit 8 100 = S754_finite false 5764607523034235 (-56).
Proof. reflexivity. Qed.

Example round_ties_up :
  (Math_round (lit 5 2), Math_round (SFopp (lit 5 2))) = (Int 3, Int (-2)).
Proof. reflexivity. Qed.

Example seedKey_1024_768 : seedKey true desktop = -300898048.
Proof. reflexivity. Qed.

(** The specification's example: viewport 1024x768, density unset. *)
Example grid_1024_768 :
  gridMetrics true desktop fullCanvas defaultProps
  = {| cols := Int 51; rows := Int 38; cell := Int 20;
       offsetX := Int 2; offsetY := Int 4 |}.
Proof. reflexivity. Qed.

Example base_1024_768 :
  firstn 8 <$> baseGridRef (computeGrid true desktop fullCanvas defaultProps
                                        (mount true desktop))
  = Some [23; 1; 9; 3; 12; 13; 5; 21].
Proof. vm_compute. reflexivity. Qed.

(** [Math.floor(w / cell)] computed in binary64 is the integer quotient, for
    every width up to 2048 and every cell size. *)
Lemma floor_div_is_binary64 :
  forallb (fun w => forallb (floorDivAgrees w) (seqZ 16 9)) (seqZ 0 2049) = true.
Proof. vm_compute. reflexivity. Qed.

(** [round53] is rounding to binary64, around powers of two from 2^50 to
    2^69. *)
Lemma round53_is_binary64 :
  forallb round53Agrees
    (k ← seqZ 50 20; j ← seqZ (-40) 81; [2 ^ k + j]) = true.
Proof. vm_compute. reflexivity. Qed.

(** [floor_times] is the floor of the binary64 product, on the values that
    fill the 1024x768 grid and for an alphabet too long for exact products. *)
Lemma floor_times_is_binary64 :
  forallb (floorTimesAgrees 36)
          (values 1938 (createSeededRandom (seedKey true desktop))) = true /\
  forallb (floorTimesAgrees (2 ^ 40 + 12345))
          (values 1938 (createSeededRandom (seedKey true desktop))) = true.
Proof. split; vm_compute; reflexivity. Qed.

End Examples.

(** ** The generator *)

Section Generator.

Lemma mix_range s : 0 <= mix s < two32.
Proof. unfold mix, ToUint32. apply Z.mod_pos_bound. reflexivity. Qed.

Lemma rand_unit s : (0 <= fst (rand s))%Q /\ (fst (rand s) < 1)%Q.
Proof.
  pose proof (mix_range (advance s)) as H. unfold two32 in H.
  unfold rand, Qle, Qlt; simpl. lia.
Qed.

(** C4: for every seed, 0 included, the value returned by every call of the
    generator, whatever its position in the sequence, is at least 0 and
    strictly below 1. *)
Theorem rand_in_unit_interval (seed : Z) (n : nat) :
  (0 <= nthValue seed n)%Q /\ (nthValue seed n < 1)%Q.
Proof.
  unfold nthValue. set (s := nthState seed n).
  pose proof (mix_range (advance s)) as H. unfold two32 in H.
  unfold rand, Qle, Qlt. cbn [fst Qnum Qden]. lia.
Qed.

Lemma call_hit g σ s :
  σ !! g = Some s -> call g σ = (Some (fst (rand s)), <[g := advance s]> σ).
Proof. intros H. unfold call. rewrite H. reflexivity. Qed.

(** A call touches no closure but the one called. *)
Lemma call_frame g g' σ : g <> g' -> (call g σ).2 !! g' = σ !! g'.
Proof.
  intros Hne. unfold call. destruct (σ !! g) as [s|] eqn:E; simpl; [|done].
  by rewrite lookup_insert_ne.
Qed.

(** Whatever else is called in between, a closure in state [s] returns the
    values of the successive states of [s]. *)
Lemma calls_closed_form sched : forall σ g s,
  σ !! g = Some s ->
  outputs g (calls sched σ).1
    = (fun i => fst (rand (Nat.iter i advance s))) <$> seq 0 (callsTo g sched)
  /\ (calls sched σ).2 !! g = Some (Nat.iter (callsTo g sched) advance s).
Proof.
  induction sched as [|g0 rest IH]; intros σ g s Hg; [done|].
  cbn [calls]. destruct (call g0 σ) as [r σ1] eqn:Hc.
  destruct (calls rest σ1) as [tr σ2] eqn:Hr.
  destruct (decide (g0 = g)) as [->|Hne].
  - rewrite (call_hit _ _ _ Hg) in Hc. injection Hc as <- <-.
    destruct (IH (<[g := advance s]> σ) g (advance s)) as [IH1 IH2];
      [by rewrite lookup_insert_eq|].
    rewrite Hr in IH1, IH2. cbn [fst snd] in *.
    unfold callsTo. rewrite filter_cons_True by done.
    cbn [length seq fmap list_fmap].
    fold (callsTo g rest). unfold outputs. rewrite filter_cons_True by done.
    cbn [fmap list_fmap snd]. fold (outputs g tr). rewrite IH1. split.
    + f_equal. rewrite <- fmap_S_seq, <- list_fmap_compose.
      apply list_fmap_ext. intros _ i _. unfold compose.
      by rewrite Nat.iter_succ_r.
    + rewrite IH2. by rewrite Nat.iter_succ_r.
  - pose proof (call_frame g0 g σ Hne) as Hf. rewrite Hc in Hf. cbn [snd] in Hf.
    destruct (IH σ1 g s) as [IH1 IH2]; [by rewrite Hf|].
    rewrite Hr in IH1, IH2. cbn [fst snd] in *.
    unfold callsTo. rewrite filter_cons_False by done. fold (callsTo g rest).
    split; [|done]. rewrite <- IH1. destruct r; [|done].
    unfold outputs. by rewrite filter_cons_False.
Qed.

Lemma outputs_app g tr tr' :
  outputs g (tr ++ tr') = outputs g tr ++ outputs g tr'.
Proof. unfold outputs. by rewrite filter_app, fmap_app. Qed.

Lemma nthValue_lookup seed k n a :
  (nthValue seed <$> seq 0 k) !! n = Some a -> a = nthValue seed n.
Proof.
  rewrite list_lookup_fmap. intros H.
  destruct (seq 0 k !! n) as [i|] eqn:E; [|done].
  apply lookup_seq in E as [-> _]. by injection H as <-.
Qed.

(** Both closures return a prefix of the one sequence the seed determines. *)
Lemma twoGenerators_closed_form seed σ sched0 sched1 :
  exists kA kB,
    twoGenerators seed σ sched0 sched1
      = (nthValue seed <$> seq 0 kA, nthValue seed <$> seq 0 kB).
Proof.
  unfold twoGenerators, create.
  set (gA := fresh (dom σ)). set (s0 := createSeededRandom seed).
  destruct (calls sched0 (<[gA:=s0]> σ)) as [tr0 σ2] eqn:H0.
  set (gB := fresh (dom σ2)).
  destruct (calls sched1 (<[gB:=s0]> σ2)) as [tr1 σ4] eqn:H1.
  destruct (calls_closed_form sched0 (<[gA:=s0]> σ) gA s0) as [O0 S0];
    [by rewrite lookup_insert_eq|].
  rewrite H0 in O0, S0. cbn [fst snd] in O0, S0.
  assert (gB <> gA) as Hne.
  { intros E. apply (is_fresh (dom σ2)). fold gB. rewrite E.
    apply elem_of_dom. eauto. }
  destruct (calls_closed_form sched1 (<[gB:=s0]> σ2) gA
              (Nat.iter (callsTo gA sched0) advance s0)) as [OA _];
    [by rewrite lookup_insert_ne|].
  destruct (calls_closed_form sched1 (<[gB:=s0]> σ2) gB s0) as [OB _];
    [by rewrite lookup_insert_eq|].
  rewrite H1 in OA, OB. cbn [fst] in OA, OB.
  exists (callsTo gA sched0 + callsTo gA sched1)%nat, (callsTo gB sched1).
  rewrite outputs_app, O0, OA, OB. f_equal.
  rewrite seq_app, fmap_app. f_equal. cbn [Nat.add].
  replace (seq (callsTo gA sched0) (callsTo gA sched1))
    with (Nat.add (callsTo gA sched0) <$> seq 0 (callsTo gA sched1))
    by (rewrite fmap_add_seq; f_equal; lia).
  rewrite <- list_fmap_compose.
  apply list_fmap_ext. intros _ i _. unfold compose, nthValue, nthState.
  f_equal. f_equal. rewrite (Nat.add_comm _ i). by rewrite Nat.iter_add.
Qed.

(** C3: two generators created with the same seed, at any two moments and
    with any other calls interleaved, return the same value at every call
    position: the n-th value of one is the n-th value of the other. *)
Theorem rand_deterministic seed σ sched0 sched1 n a b :
  (twoGenerators seed σ sched0 sched1).1 !! n = Some a ->
  (twoGenerators seed σ sched0 sched1).2 !! n = Some b ->
  a = b.
Proof.
  destruct (twoGenerators_closed_form seed σ sched0 sched1) as (kA & kB & ->).
  cbn [fst snd]. intros HA%nthValue_lookup HB%nthValue_lookup. congruence.
Qed.

Lemma rand_deterministic_witness :
  exists a b,
    (twoGenerators 0 ∅ [0; 0; 7]%nat [1; 0; 1; 1]%nat).1 !! 2%nat = Some a /\
    (twoGenerators 0 ∅ [0; 0; 7]%nat [1; 0; 1; 1]%nat).2 !! 2%nat = Some b /\
    a = b.
Proof.
  exists (nthValue 0 2), (nthValue 0 2).
  assert ((twoGenerators 0 ∅ [0; 0; 7]%nat [1; 0; 1; 1]%nat).1 !! 2%nat
          = Some (nthValue 0 2)) as HA by (vm_compute; reflexivity).
  assert ((twoGenerators 0 ∅ [0; 0; 7]%nat [1; 0; 1; 1]%nat).2 !! 2%nat
          = Some (nthValue 0 2)) as HB by (vm_compute; reflexivity).
  split; [exact HA|]. split; [exact HB|].
  exact (rand_deterministic 0 ∅ _ _ 2%nat _ _ HA HB).
Defined.

End Generator.

(** ** Rounding in binary64 *)

Section Rounding.

(** Shifting right and rounding never produce a negative mantissa, so a
    product of finite numbers is never [NaN]. *)
Lemma shr_1_nonneg mrs : 0 <= shr_m mrs -> 0 <= shr_m (shr_1 mrs).
Proof.
  destruct mrs as [m r s]. simpl. destruct m as [|p|p]; [done| |lia].
  intros _. destruct p; simpl; lia.
Qed.

Lemma iter_pos_shr_1_nonneg p : forall mrs,
  0 <= shr_m mrs -> 0 <= shr_m (SpecFloat.iter_pos shr_1 p mrs).
Proof.
  induction p as [p IH|p IH|]; intros mrs H; simpl.
  - apply IH, IH, shr_1_nonneg, H.
  - apply IH, IH, H.
  - apply shr_1_nonneg, H.
Qed.

Lemma shr_fexp_nonneg m e l :
  0 <= m -> 0 <= shr_m (fst (shr_fexp prec emax m e l)).
Proof.
  intros Hm. unfold shr_fexp, shr.
  assert (0 <= shr_m (shr_record_of_loc m l)) as H0.
  { destruct l as [|[]]; exact Hm. }
  destruct (fexp prec emax (Zdigits2 m + e) - e); simpl; try exact H0.
  apply iter_pos_shr_1_nonneg, H0.
Qed.

Lemma round_nearest_even_nonneg m l : 0 <= m -> 0 <= round_nearest_even m l.
Proof.
  intros Hm. destruct l as [|[]]; simpl; try lia. destruct (Z.even m); lia.
Qed.

Lemma binary_round_aux_not_nan s m e l :
  0 <= m -> binary_round_aux prec emax s m e l <> S754_nan.
Proof.
  intros Hm. unfold binary_round_aux.
  pose proof (shr_fexp_nonneg m e l Hm) as H1.
  destruct (shr_fexp prec emax m e l) as [mrs' e'].
  simpl in H1.
  pose proof (shr_fexp_nonneg _ e' loc_Exact
                (round_nearest_even_nonneg _ (loc_of_shr_record mrs') H1)) as H2.
  destruct (shr_fexp prec emax (round_nearest_even _ _) e' loc_Exact)
    as [mrs'' e''].
  simpl in H2. destruct (shr_m mrs'') as [|p|p]; [done| |lia].
  destruct (e'' <=? emax - prec); done.
Qed.

Lemma fmul_finite_not_nan s m e d :
  d <> S754_nan -> fmul (S754_finite s m e) d <> S754_nan.
Proof.
  intros Hd. destruct d as [s'|s'| |s' m' e']; try done.
  apply binary_round_aux_not_nan. lia.
Qed.

Lemma Math_round_not_NaN x : x <> S754_nan -> Math_round x <> NaN.
Proof. destruct x; done. Qed.

(** Rounding an integer to 53 bits moves it by at most half a unit in the
    last place, which is at most [m / 2^53]. *)
Lemma round53_bounds m :
  0 <= m ->
  0 <= round53 m /\ round53 m * 9007199254740992 <= m * 9007199254740993.
Proof.
  intros Hm. unfold round53.
  destruct (Z.leb_spec (Z.log2 m + 1) 53) as [_|Hd]; [lia|].
  set (sh := Z.log2 m + 1 - 53) in *.
  assert (0 < sh) as Hsh by (unfold sh; lia).
  assert (0 < m) as Hpos.
  { destruct (Z.eq_dec m 0) as [->|]; [|lia]. simpl in Hd. lia. }
  pose proof (Z.log2_spec m Hpos) as [Hlo _].
  replace (Z.log2 m) with (sh - 1 + 53) in Hlo by (unfold sh; lia).
  rewrite Z.pow_add_r in Hlo by lia.
  change (2 ^ 53) with 9007199254740992 in Hlo.
  rewrite Z.shiftl_1_l, Z.land_ones, Z.shiftr_div_pow2 by lia.
  assert (0 < 2 ^ (sh - 1)) as Hh by (apply Z.pow_pos_nonneg; lia).
  assert (2 ^ sh = 2 * 2 ^ (sh - 1)) as Hp.
  { replace sh with (1 + (sh - 1)) at 1 by lia.
    rewrite Z.pow_add_r by lia. lia. }
  pose proof (Z.div_mod m (2 ^ sh) ltac:(lia)) as Hdm.
  pose proof (Z.mod_pos_bound m (2 ^ sh) ltac:(lia)) as Hmb.
  assert (0 <= m / 2 ^ sh) as Hq by (apply Z.div_pos; lia).
  set (q := m / 2 ^ sh) in *. set (r := m mod 2 ^ sh) in *.
  set (h := 2 ^ (sh - 1)) in *.
  destruct ((h <? r) || (r =? h) && Z.odd q) eqn:Hup;
    rewrite Z.shiftl_mul_pow2 by lia.
  - assert (h <= r) as Hr.
    { apply orb_true_iff in Hup as [Hup|Hup]; [lia|].
      apply andb_true_iff in Hup as [Hup _]. lia. }
    split; nia.
  - split; nia.
Qed.

Lemma iter_pos_nat {A} (f : A -> A) p : forall x,
  SpecFloat.iter_pos f p x = Nat.iter (Pos.to_nat p) f x.
Proof.
  induction p as [p IH|p IH|]; intros x; cbn [SpecFloat.iter_pos].
  - rewrite !IH, Pos2Nat.inj_xI.
    replace (S (2 * Pos.to_nat p)) with (Pos.to_nat p + (Pos.to_nat p + 1))%nat
      by lia.
    by rewrite !Nat.iter_add.
  - rewrite !IH, Pos2Nat.inj_xO.
    replace (2 * Pos.to_nat p)%nat with (Pos.to_nat p + Pos.to_nat p)%nat by lia.
    by rewrite Nat.iter_add.
  - reflexivity.
Qed.


Lemma shr_1_spec m r s :
  0 <= m ->
  shr_m (shr_1 (Build_shr_record m r s)) = m / 2 /\
  (shr_r (shr_1 (Build_shr_record m r s)) = true -> m mod 2 = 1).
Proof.
  intros Hm. destruct m as [|p|p]; [done| |lia].
  destruct p as [p|p|]; cbn [shr_1 shr_m shr_r].
  - split; [|intros _].
    + apply (Z.div_unique _ _ _ 1); lia.
    + symmetry. apply (Z.mod_unique _ _ (Z.pos p)); lia.
  - split; [|done]. apply (Z.div_unique _ _ _ 0); lia.
  - done.
Qed.

Lemma shifted_step M k mrs :
  0 <= M -> 0 <= k -> shifted M k mrs -> shifted M (k + 1) (shr_1 mrs).
Proof.
  intros HM Hk [Hm Hr]. destruct mrs as [m r s]. cbn [shr_m shr_r] in Hm, Hr.
  assert (0 < 2 ^ k) as Hp by (apply Z.pow_pos_nonneg; lia).
  assert (0 <= m) as Hm0 by (subst m; apply Z.div_pos; lia).
  destruct (shr_1_spec m r s Hm0) as [H1 H2].
  unfold shifted. rewrite Z.pow_add_r, Z.pow_1_r by lia. split.
  - rewrite H1, Hm. rewrite Z.div_div by lia. reflexivity.
  - intros Ho%H2. rewrite Z.rem_mul_r by lia. rewrite <- Hm, Ho.
    pose proof (Z.mod_pos_bound M (2 ^ k) Hp). lia.
Qed.

Lemma shifted_iter M n : forall k mrs,
  0 <= M -> 0 <= k -> shifted M k mrs ->
  shifted M (k + Z.of_nat n) (Nat.iter n shr_1 mrs).
Proof.
  induction n as [|n IH]; intros k mrs HM Hk H.
  - cbn [Nat.iter]. by rewrite Z.add_0_r.
  - cbn [Nat.iter]. replace (k + Z.of_nat (S n)) with (k + Z.of_nat n + 1) by lia.
    apply shifted_step; [lia|lia|]. by apply IH.
Qed.


Lemma shr_shifted M e k :
  0 <= M ->
  shifted M (bits k) (fst (shr (shr_record_of_loc M loc_Exact) e k)) /\
  snd (shr (shr_record_of_loc M loc_Exact) e k) = e + bits k.
Proof.
  intros HM. unfold shr, bits.
  assert (shifted M 0 (shr_record_of_loc M loc_Exact)) as H0.
  { split; [simpl; by rewrite Z.div_1_r|done]. }
  destruct k as [|p|p]; cbn [fst snd].
  - split; [exact H0|lia].
  - rewrite iter_pos_nat. split; [|lia].
    replace (Z.max 0 (Z.pos p)) with (0 + Z.of_nat (Pos.to_nat p)) by lia.
    by apply shifted_iter.
  - split; [exact H0|lia].
Qed.

Lemma round_after_shift M k mrs :
  0 <= M -> 0 <= k -> shifted M k mrs ->
  let m2 := round_nearest_even (shr_m mrs) (loc_of_shr_record mrs) in
  0 <= m2 /\
  m2 * 2 ^ k <= M + (if 0 <? k then 2 ^ (k - 1) else 0).
Proof.
  intros HM Hk [Hm Hr]. destruct mrs as [m r s]. cbn [shr_m shr_r] in *.
  assert (0 < 2 ^ k) as Hp by (apply Z.pow_pos_nonneg; lia).
  pose proof (Z.div_mod M (2 ^ k) ltac:(lia)) as Hdm.
  pose proof (Z.mod_pos_bound M (2 ^ k) Hp) as Hmb.
  assert (0 <= m) as Hm0 by (subst m; apply Z.div_pos; lia).
  assert (0 <= (if 0 <? k then 2 ^ (k - 1) else 0)) as Hb.
  { destruct (0 <? k); [|lia]. apply Z.pow_nonneg. lia. }
  destruct r.
  - specialize (Hr eq_refl).
    assert (0 < k) as Hk1.
    { destruct (Z.eq_dec k 0) as [->|]; [|lia]. simpl in *. lia. }
    destruct (Z.ltb_spec 0 k); [|lia].
    assert (2 ^ k = 2 * 2 ^ (k - 1)) as Hpk.
    { replace k with (1 + (k - 1)) at 1 by lia. rewrite Z.pow_add_r by lia. lia. }
    assert (round_nearest_even m (loc_of_shr_record (Build_shr_record m true s))
            <= m + 1 /\ m <= round_nearest_even m (loc_of_shr_record (Build_shr_record m true s))) as [Hle Hge].
    { destruct s; simpl; [lia|]. destruct (Z.even m); lia. }
    cbv zeta. split; [lia|]. nia.
  - assert (round_nearest_even m (loc_of_shr_record (Build_shr_record m false s)) = m)
      as ->.
    { by destruct s. }
    cbv zeta. split; [lia|]. nia.
Qed.


(** The result of rounding an exact product: a mantissa [m3] and a shift
    [K] with [m3 * 2^K] at most the product plus half a unit in the last
    place kept. *)
Lemma binary_round_aux_value mx ex :
  0 < mx ->
  let k := fexp prec emax (Zdigits2 mx + ex) - ex in
  exists m3 K,
    0 <= m3 /\ 0 <= K /\
    m3 * 2 ^ K <= mx + (if 0 <? k then 2 ^ (k - 1) else 0) /\
    binary_round_aux prec emax false mx ex loc_Exact =
      match m3 with
      | 0 => S754_zero false
      | Zpos p => if ex + K <=? emax - prec then S754_finite false p (ex + K)
                  else S754_infinity false
      | Zneg _ => S754_nan
      end.
Proof.
  intros Hmx k. unfold binary_round_aux, shr_fexp. fold k.
  destruct (shr_shifted mx ex k ltac:(lia)) as [H1 E1].
  destruct (shr (shr_record_of_loc mx loc_Exact) ex k) as [mrs' e'].
  cbn [fst snd] in H1, E1.
  assert (0 <= bits k) as Hbk by (unfold bits; lia).
  destruct (round_after_shift mx (bits k) mrs' ltac:(lia) Hbk H1) as [Hm2 Hle].
  set (m2 := round_nearest_even (shr_m mrs') (loc_of_shr_record mrs')) in *.
  set (k2 := fexp prec emax (Zdigits2 m2 + e') - e').
  destruct (shr_shifted m2 e' k2 Hm2) as [[H3 _] E3].
  destruct (shr (shr_record_of_loc m2 loc_Exact) e' k2) as [mrs'' e''].
  cbn [fst snd] in H3, E3.
  assert (0 <= bits k2) as Hbk2 by (unfold bits; lia).
  assert (0 < 2 ^ bits k) as Hp1 by (apply Z.pow_pos_nonneg; lia).
  assert (0 < 2 ^ bits k2) as Hp2 by (apply Z.pow_pos_nonneg; lia).
  exists (shr_m mrs''), (bits k + bits k2).
  pose proof (Z.mul_div_le m2 (2 ^ bits k2) Hp2) as Hd.
  assert (0 <= shr_m mrs'') as Hm3 by (rewrite H3; apply Z.div_pos; lia).
  split; [exact Hm3|]. split; [lia|]. split.
  - rewrite Z.pow_add_r by lia.
    replace (if 0 <? k then 2 ^ (k - 1) else 0)
      with (if 0 <? bits k then 2 ^ (bits k - 1) else 0).
    + rewrite <- H3 in Hd. nia.
    + unfold bits. destruct (Z.ltb_spec 0 k).
      * rewrite Z.max_r by lia. destruct (Z.ltb_spec 0 k); [done|lia].
      * rewrite Z.max_l by lia. reflexivity.
  - subst e' e''. by rewrite Z.add_assoc.
Qed.


Lemma digits2_pos_bounds p :
  2 ^ (Z.pos (digits2_pos p) - 1) <= Z.pos p < 2 ^ Z.pos (digits2_pos p).
Proof.
  induction p as [p IH|p IH|]; cbn [digits2_pos]; [| |simpl; lia].
  all: rewrite Pos2Z.inj_succ;
    replace (Z.succ (Z.pos (digits2_pos p)) - 1)
      with (Z.succ (Z.pos (digits2_pos p) - 1)) by lia;
    rewrite !Z.pow_succ_r by lia; lia.
Qed.

Lemma digits2_pos_le p n : 0 <= n -> Z.pos p < 2 ^ n -> Z.pos (digits2_pos p) <= n.
Proof.
  intros Hn Hp. pose proof (digits2_pos_bounds p) as [Hlo _].
  destruct (Z.le_gt_cases (Z.pos (digits2_pos p)) n) as [|Hgt]; [done|].
  assert (2 ^ n <= 2 ^ (Z.pos (digits2_pos p) - 1)) by (apply Z.pow_le_mono_r; lia).
  lia.
Qed.

Lemma iter_xO_value p d : Z.pos (Pos.iter xO p d) = Z.pos p * 2 ^ Z.pos d.
Proof.
  induction d as [|d IH] using Pos.peano_ind.
  - simpl. lia.
  - rewrite Pos.iter_succ, Pos2Z.inj_xO, IH, Pos2Z.inj_succ, Z.pow_succ_r by lia.
    lia.
Qed.

Lemma iter_xO_digits p d :
  Z.pos (digits2_pos (Pos.iter xO p d)) = Z.pos (digits2_pos p) + Z.pos d.
Proof.
  induction d as [|d IH] using Pos.peano_ind.
  - simpl. lia.
  - rewrite Pos.iter_succ. cbn [digits2_pos]. rewrite !Pos2Z.inj_succ, IH. lia.
Qed.

(** A mantissa that needs no shift is kept as it is. *)
Lemma binary_round_aux_exact s p e :
  fexp prec emax (Z.pos (digits2_pos p) + e) - e <= 0 ->
  e <= emax - prec ->
  binary_round_aux prec emax s (Z.pos p) e loc_Exact = S754_finite s p e.
Proof.
  intros Hk He. unfold binary_round_aux, shr_fexp, shr. cbn [Zdigits2].
  destruct (fexp prec emax (Z.pos (digits2_pos p) + e) - e) as [|q|q] eqn:E;
    [|lia|]; cbn [shr_record_of_loc loc_of_shr_record shr_m round_nearest_even
                  Zdigits2]; rewrite E; cbn [shr_m];
    destruct (Z.leb_spec e (emax - prec)); done || lia.
Qed.

(** An integer below 2^53 is a binary64 value. *)
Lemma of_Z_exact N :
  1 <= N < 2 ^ 53 ->
  exists mN eN,
    of_Z N = S754_finite false mN eN /\ eN <= 0 /\
    Z.pos mN = N * 2 ^ (- eN) /\ Z.pos mN < 2 ^ 53.
Proof.
  intros [HN1 HN2]. destruct N as [|n|n]; try lia.
  pose proof (digits2_pos_bounds n) as [Hlo Hhi].
  pose proof (digits2_pos_le n 53 ltac:(lia) HN2) as Hd.
  unfold of_Z, binary_normalize, binary_round, shl_align.
  set (d := Z.pos (digits2_pos n)) in *.
  assert (fexp prec emax (d + 0) = d - 53) as ->.
  { unfold fexp, emin, prec, emax. lia. }
  destruct (d - 53 - 0) as [|q|q] eqn:E; try lia.
  - exists n, 0. rewrite binary_round_aux_exact.
    + split; [done|]. split; [lia|]. split; [simpl; lia|done].
    + fold d. unfold fexp, emin, prec, emax. lia.
    + unfold emax, prec. lia.
  - exists (Pos.iter xO n q), (d - 53). rewrite binary_round_aux_exact.
    + split; [done|]. split; [lia|]. rewrite iter_xO_value.
      replace (- (d - 53)) with (Z.pos q) by lia. split; [done|].
      replace 53 with ((53 - Z.pos q) + Z.pos q) at 1 by lia.
      rewrite Z.pow_add_r by lia.
      assert (0 < 2 ^ Z.pos q) by (apply Z.pow_pos_nonneg; lia).
      apply Z.mul_lt_mono_pos_r; [lia|].
      replace (53 - Z.pos q) with d by lia. exact Hhi.
    + rewrite iter_xO_digits. fold d. unfold fexp, emin, prec, emax. lia.
    + unfold emax, prec. lia.
Qed.


Lemma flt_finite m e m' e' :
  flt (S754_finite false m e) (S754_finite false m' e') = true ->
  e < e' \/ (e = e' /\ Z.pos m < Z.pos m').
Proof.
  unfold flt, SFltb, SFcompare. rewrite Pos.compare_cont_spec.
  destruct (Z.compare_spec e e') as [->| |]; [|auto|done].
  cbn [Pos.switch_Eq]. destruct (Pos.compare_spec m m'); try done.
  intros _. right. split; [done|lia].
Qed.


Lemma inUnitInterval_finite m e :
  inUnitInterval (S754_finite false m e) = true ->
  Z.pos m < 2 ^ 53 /\ e <= -53.
Proof.
  unfold inUnitInterval. intros [Hv Hlt]%andb_true_iff.
  unfold valid_binary, bounded, canonical_mantissa in Hv.
  apply andb_true_iff in Hv as [Hc _]. apply Z.eqb_eq in Hc.
  pose proof (digits2_pos_bounds m) as [Hlo Hhi].
  set (d := Z.pos (digits2_pos m)) in *.
  unfold fexp, emin, prec, emax in Hc.
  assert (d <= 53) as Hd by lia.
  split.
  - assert (2 ^ d <= 2 ^ 53) by (apply Z.pow_le_mono_r; lia). lia.
  - change (of_Z 1) with (S754_finite false 4503599627370496 (-52)) in Hlt.
    apply flt_finite in Hlt as [Hlt|[-> Hm]]; [lia|].
    assert (d <= 52); [|lia].
    apply digits2_pos_le; [lia|]. change (2 ^ 52) with 4503599627370496. lia.
Qed.

(** [Math.floor(Math.random() * n)] for an integer [1 <= n < 2^53] is an
    integer in [0, n): the binary64 rounding of the product cannot reach [n]. *)
Lemma floor_random_times r N :
  inUnitInterval r = true -> 1 <= N < 2 ^ 53 ->
  exists i, Math_floor (fmul r (of_Z N)) = Int i /\ 0 <= i < N.
Proof.
  intros Hr HN. destruct (of_Z_exact N HN) as (mN & eN & -> & HeN & HmN & HmN').
  destruct r as [s|s| |s m e]; try done.
  { exists 0. split; [reflexivity|lia]. }
  destruct s; [done|].
  destruct (inUnitInterval_finite m e Hr) as [Hm He].
  unfold fmul, SFmul. cbn [xorb].
  destruct (binary_round_aux_value (Z.pos (m * mN)) (e + eN) ltac:(lia))
    as (m3 & K & Hm3 & HK & Hle & ->).
  set (E := - (e + eN)). assert (53 <= E) as HE by (unfold E; lia).
  assert (0 < 2 ^ (- eN)) as HpN by (apply Z.pow_pos_nonneg; lia).
  assert (0 < 2 ^ E) as HpE by (apply Z.pow_pos_nonneg; lia).
  assert (0 < 2 ^ K) as HpK by (apply Z.pow_pos_nonneg; lia).
  (* the exact product is at most N * (1 - 2^-53) *)
  assert (Z.pos m * 2 ^ 53 <= (2 ^ 53 - 1) * 2 ^ (- e)) as Hr1.
  { replace (- e) with (53 + (- e - 53)) by lia. rewrite Z.pow_add_r by lia.
    assert (1 <= 2 ^ (- e - 53)) by (apply Z.lt_pred_le, Z.pow_pos_nonneg; lia).
    destruct (Z.eq_dec (- e - 53) 0) as [->|Hne]; [simpl; lia|].
    assert (2 <= 2 ^ (- e - 53)).
    { replace (- e - 53) with (1 + (- e - 54)) by lia.
      rewrite Z.pow_add_r by lia.
      assert (0 < 2 ^ (- e - 54)) by (apply Z.pow_pos_nonneg; lia). lia. }
    change (2 ^ 53) with 9007199254740992 in *. nia. }
  assert (Z.pos (m * mN) * 2 ^ 53 <= (2 ^ 53 - 1) * (N * 2 ^ E)) as Hx.
  { rewrite Pos2Z.inj_mul, HmN. unfold E.
    replace (- (e + eN)) with (- e + - eN) by lia. rewrite Z.pow_add_r by lia.
    assert (0 < 2 ^ (- e)) by (apply Z.pow_pos_nonneg; lia). nia. }
  (* so the rounded product stays below N *)
  assert (m3 * 2 ^ K < N * 2 ^ E) as Hlt.
  { eapply Z.le_lt_trans; [exact Hle|].
    set (k := fexp prec emax (Zdigits2 (Z.pos (m * mN)) + (e + eN)) - (e + eN)).
    destruct (Z.ltb_spec 0 k) as [Hk|Hk]; [|change (2 ^ 53) with 9007199254740992 in *; nia].
    pose proof (digits2_pos_bounds (m * mN)) as [Hlo _].
    unfold k, fexp, emin, prec, emax in *. cbn [Zdigits2] in *.
    set (d := Z.pos (digits2_pos (m * mN))) in *.
    destruct (Z.max_spec (d + (e + eN) - 53) (3 - 1024 - 53)) as [[Hc Hmax]|[Hc Hmax]];
      rewrite Hmax in *.
    - (* subnormal result *)
      replace (3 - 1024 - 53 - (e + eN) - 1) with (E - 1075) by (unfold E; lia).
      assert (2 ^ E = 2 ^ (E - 1075) * 2 ^ 1075) as HE2.
      { rewrite <- Z.pow_add_r by (unfold E; lia). f_equal. lia. }
      assert (0 < 2 ^ (E - 1075)) by (apply Z.pow_pos_nonneg; unfold E; lia).
      assert (2 ^ 53 < 2 ^ 1075) by (apply Z.pow_lt_mono_r; lia).
      change (2 ^ 53) with 9007199254740992 in *. nia.
    - (* normal result *)
      replace (d + (e + eN) - 53 - (e + eN) - 1) with (d - 1 - 53) by lia.
      assert (2 ^ (d - 1) = 2 ^ (d - 1 - 53) * 2 ^ 53) as Hd.
      { rewrite <- Z.pow_add_r by lia. f_equal. lia. }
      assert (0 < 2 ^ (d - 1 - 53)) by (apply Z.pow_pos_nonneg; lia).
      change (2 ^ 53) with 9007199254740992 in *. nia. }
  destruct m3 as [|p|p]; [|clear Hm3|lia].
  { exists 0. split; [reflexivity|lia]. }
  assert (K < E + 53) as HKE.
  { destruct (Z.lt_ge_cases K (E + 53)) as [|Hge]; [done|].
    assert (2 ^ (E + 53) <= 2 ^ K) by (apply Z.pow_le_mono_r; lia).
    rewrite Z.pow_add_r in * by lia. nia. }
  destruct (Z.leb_spec (e + eN + K) (emax - prec)) as [_|Hbig];
    [|unfold emax, prec, E in *; lia].
  cbn [Math_floor cond_Zopp].
  destruct (Z.leb_spec 0 (e + eN + K)) as [Hpos|Hneg]; eexists; (split; [reflexivity|]).
  - assert (0 < 2 ^ (e + eN + K)) by (apply Z.pow_pos_nonneg; lia).
    split; [lia|].
    replace K with (E + (e + eN + K)) in Hlt by (unfold E; lia).
    rewrite Z.pow_add_r in Hlt by lia. nia.
  - assert (0 < 2 ^ (- (e + eN + K))) by (apply Z.pow_pos_nonneg; lia).
    split; [apply Z.div_pos; lia|].
    apply Z.div_lt_upper_bound; [lia|].
    replace E with (- (e + eN + K) + K) in Hlt by (unfold E; lia).
    rewrite Z.pow_add_r in Hlt by lia. nia.
Qed.

End Rounding.

(** ** The grid layout *)

Section Layout.

Lemma clamp_inRange x : x <> NaN -> inRange 16 24 (clamp x (Int 16) (Int 24)).
Proof.
  intros Hx. destruct x as [|[]|z]; [done| | |]; unfold clamp; simpl.
  - exists 16. split; [reflexivity|lia].
  - exists 24. split; [reflexivity|lia].
  - eexists. split; [reflexivity|lia].
Qed.

Lemma densityMul_not_nan (mobile : bool) :
  (if mobile then lit 9 10 else of_Z 1) <> S754_nan.
Proof. destruct mobile; vm_compute; discriminate. Qed.

Lemma cellSize_inRange isClient win P :
  isNaN (density P) = false -> inRange 16 24 (cellSize isClient win P).
Proof.
  intros Hd. unfold cellSize. apply clamp_inRange, Math_round_not_NaN.
  change (of_Z baseCell) with (S754_finite false 5629499534213120 (-48)).
  apply fmul_finite_not_nan.
  destruct (density P) as [d|] eqn:E.
  - by intros ->.
  - apply densityMul_not_nan.
Qed.

Lemma cellSize_NaN isClient win P :
  isNaN (density P) = true -> cellSize isClient win P = NaN.
Proof.
  unfold cellSize. destruct (density P) as [[]|]; try done.
Qed.

(** C5 (amended): for every density multiplier other than [NaN] (0, 100,
    negative and infinite multipliers included) and when the prop is absent,
    the cell size computed by the grid layout is an integer in the inclusive
    range [16, 24]. *)
Theorem cell_size_clamped isClient win P :
  isNaN (density P) = false -> inRange 16 24 (cellSize isClient win P).
Proof.
  intros Hd. unfold cellSize.
  set (product := fmul (of_Z baseCell) _).
  assert (product <> S754_nan) as Hp.
  { unfold product.
    change (of_Z baseCell) with (S754_finite false 5629499534213120 (-48)).
    apply fmul_finite_not_nan. destruct (density P) as [d|].
    - by intros ->.
    - apply densityMul_not_nan. }
  destruct (Math_round product) as [|[]|z] eqn:Hr.
  - by apply Math_round_not_NaN in Hr.
  - exists 16. split; [reflexivity|lia].
  - exists 24. split; [reflexivity|lia].
  - exists (Z.max 16 (Z.min 24 z)). split; [reflexivity|lia].
Qed.

Lemma cell_size_clamped_witness :
  isNaN (density (withDensity (of_Z 100))) = false /\
  inRange 16 24 (cellSize true desktop (withDensity (of_Z 100))).
Proof.
  split; [reflexivity|].
  apply (cell_size_clamped true desktop (withDensity (of_Z 100))). reflexivity.
Defined.

(** C5 as stated fails: with [density = NaN] the cell size is [NaN], which
    lies in no range. *)
Lemma cell_size_NaN_density :
  cellSize true desktop (withDensity S754_nan) = NaN /\
  ~ inRange 16 24 (cellSize true desktop (withDensity S754_nan)).
Proof.
  split; [reflexivity|]. intros (z & Hz & _). vm_compute in Hz. discriminate.
Qed.

Lemma widthCss_nonneg isClient canvas : 0 <= widthCss isClient canvas.
Proof. unfold widthCss. destruct isClient; lia. Qed.

Lemma heightCss_nonneg isClient canvas : 0 <= heightCss isClient canvas.
Proof. unfold heightCss. destruct isClient; lia. Qed.

Lemma gridRef_computeGrid isClient win canvas P w :
  gridRef (computeGrid isClient win canvas P w)
    = Some (gridMetrics isClient win canvas P).
Proof. unfold computeGrid. by destruct (fillBase _ _ _). Qed.

(** The metrics for a numeric cell size, in integer arithmetic. *)
Lemma gridMetrics_Int isClient win canvas P k :
  cellSize isClient win P = Int k -> k <> 0 ->
  gridMetrics isClient win canvas P =
    let W := widthCss isClient canvas in
    let H := heightCss isClient canvas in
    {| cols := Int (W / k); rows := Int (H / k); cell := Int k;
       offsetX := Int ((W - W / k * k) / 2);
       offsetY := Int ((H - H / k * k) / 2) |}.
Proof.
  intros Hk Hz. unfold gridMetrics. rewrite Hk. simpl.
  destruct (Z.eqb_spec k 0) as [|_]; [done|]. reflexivity.
Qed.

Lemma gridMetrics_NaN isClient win canvas P :
  isNaN (density P) = true ->
  gridMetrics isClient win canvas P =
    {| cols := NaN; rows := NaN; cell := NaN; offsetX := NaN; offsetY := NaN |}.
Proof. intros H. unfold gridMetrics. by rewrite (cellSize_NaN _ _ _ H). Qed.

(** C6 (amended): for every viewport size and every density multiplier
    other than [NaN], the column and row counts stored by the grid
    computation are non-negative integers with [cols * cell <= width] and
    [rows * cell <= height]. *)
Theorem counts_fit_viewport isClient win canvas P w :
  isNaN (density P) = false ->
  exists gm c r k,
    gridRef (computeGrid isClient win canvas P w) = Some gm /\
    cols gm = Int c /\ rows gm = Int r /\ cell gm = Int k /\
    0 <= c /\ 0 <= r /\
    c * k <= widthCss isClient canvas /\ r * k <= heightCss isClient canvas.
Proof.
  intros Hd. destruct (cellSize_inRange isClient win P Hd) as (k & Hk & Hr).
  rewrite gridRef_computeGrid, (gridMetrics_Int _ _ canvas _ k Hk) by lia.
  pose proof (widthCss_nonneg isClient canvas) as HW.
  pose proof (heightCss_nonneg isClient canvas) as HH.
  eexists _, _, _, _. split; [reflexivity|]. cbn [cols rows cell].
  repeat split; try reflexivity.
  - apply Z.div_pos; lia.
  - apply Z.div_pos; lia.
  - rewrite Z.mul_comm. apply Z.mul_div_le. lia.
  - rewrite Z.mul_comm. apply Z.mul_div_le. lia.
Qed.

Lemma counts_fit_viewport_witness :
  isNaN (density defaultProps) = false /\
  exists gm c r k,
    gridRef (computeGrid true desktop fullCanvas defaultProps (mount true desktop))
      = Some gm /\
    cols gm = Int c /\ rows gm = Int r /\ cell gm = Int k /\
    0 <= c /\ 0 <= r /\
    c * k <= widthCss true fullCanvas /\ r * k <= heightCss true fullCanvas.
Proof.
  split; [reflexivity|].
  apply (counts_fit_viewport true desktop fullCanvas defaultProps). reflexivity.
Defined.

(** C6 as stated fails: with [density = NaN] the column count is [NaN], not
    an integer. *)
Lemma counts_NaN_density :
  ~ exists gm c,
      gridRef (computeGrid true desktop fullCanvas (withDensity S754_nan)
                           (mount true desktop)) = Some gm /\
      cols gm = Int c.
Proof.
  intros (gm & c & Hg & Hc). rewrite gridRef_computeGrid in Hg.
  injection Hg as <-. rewrite gridMetrics_NaN in Hc by reflexivity. discriminate.
Qed.

Lemma half_remainder W k :
  0 <= W -> 0 < k -> 0 <= (W - W / k * k) / 2 <= k.
Proof.
  intros HW Hk. pose proof (Z.mod_pos_bound W k Hk) as Hm.
  replace (W - W / k * k) with (W mod k) by (rewrite Z.mod_eq; lia).
  split.
  - apply Z.div_pos; lia.
  - apply Z.div_le_upper_bound; lia.
Qed.

(** C7 (amended): for every viewport size and every density multiplier
    other than [NaN], the centering offsets stored by the grid computation
    are integers with [offsetX >= 0], [offsetY >= 0] and [offsetX <= cell]. *)
Theorem offsets_bounded isClient win canvas P w :
  isNaN (density P) = false ->
  exists gm x y k,
    gridRef (computeGrid isClient win canvas P w) = Some gm /\
    offsetX gm = Int x /\ offsetY gm = Int y /\ cell gm = Int k /\
    0 <= x /\ 0 <= y /\ x <= k.
Proof.
  intros Hd. destruct (cellSize_inRange isClient win P Hd) as (k & Hk & Hr).
  rewrite gridRef_computeGrid, (gridMetrics_Int _ _ canvas _ k Hk) by lia.
  pose proof (half_remainder _ k (widthCss_nonneg isClient canvas)) as HX.
  pose proof (half_remainder _ k (heightCss_nonneg isClient canvas)) as HY.
  eexists _, _, _, _. split; [reflexivity|]. cbn [offsetX offsetY cell].
  repeat split; try reflexivity; lia.
Qed.

Lemma offsets_bounded_witness :
  isNaN (density (withDensity zero)) = false /\
  exists gm x y k,
    gridRef (computeGrid true desktop smallCanvas (withDensity zero)
                         (mount true desktop)) = Some gm /\
    offsetX gm = Int x /\ offsetY gm = Int y /\ cell gm = Int k /\
    0 <= x /\ 0 <= y /\ x <= k.
Proof.
  split; [reflexivity|].
  apply (offsets_bounded true desktop smallCanvas (withDensity zero)). reflexivity.
Defined.

(** C7 as stated fails: with [density = NaN] the horizontal offset is
    [NaN], and [NaN >= 0] is false. *)
Lemma offsets_NaN_density :
  ~ exists gm x,
      gridRef (computeGrid true desktop fullCanvas (withDensity S754_nan)
                           (mount true desktop)) = Some gm /\
      offsetX gm = Int x.
Proof.
  intros (gm & x & Hg & Hx). rewrite gridRef_computeGrid in Hg.
  injection Hg as <-. rewrite gridMetrics_NaN in Hx by reflexivity. discriminate.
Qed.

End Layout.

(** ** The base glyph buffer *)

Section Buffer.

Lemma baseGridRef_computeGrid isClient win canvas P w :
  baseGridRef (computeGrid isClient win canvas P w)
    = let gm := gridMetrics isClient win canvas P in
      Some (fst (fillBase (tripCount (mul (cols gm) (rows gm)))
                          (Z.of_nat (String.length (glyphs P))) (randState w))).
Proof. unfold computeGrid. by destruct (fillBase _ _ _). Qed.

Lemma randState_computeGrid isClient win canvas P w :
  randState (computeGrid isClient win canvas P w)
    = let gm := gridMetrics isClient win canvas P in
      snd (fillBase (tripCount (mul (cols gm) (rows gm)))
                    (Z.of_nat (String.length (glyphs P))) (randState w)).
Proof. unfold computeGrid. by destruct (fillBase _ _ _). Qed.

(** The floor of the rounded product stays below the string length. *)
Lemma floor_times_range u n :
  0 <= u < two32 -> 0 < n -> 0 <= floor_times (u # 4294967296) n < n.
Proof.
  intros Hu Hn. unfold floor_times, two32 in *. cbn [Qnum Qden].
  assert (0 <= u * n) as Hm by nia.
  pose proof (round53_bounds (u * n) Hm) as [H0 H1].
  split.
  - apply Z.div_pos; lia.
  - apply Z.div_lt_upper_bound; [lia|]. nia.
Qed.

(** Keeping the low 16 bits of an index below [n] leaves it below [n]. *)
Lemma ToUint16_range v n : 0 <= v < n -> 0 <= ToUint16 v < n.
Proof.
  intros Hv. unfold ToUint16.
  pose proof (Z.mod_pos_bound v 65536 ltac:(lia)) as Hm.
  destruct (Z.lt_ge_cases v 65536) as [Hs|Hl].
  - rewrite Z.mod_small; lia.
  - lia.
Qed.

Lemma fillBase_entries n : forall len g,
  0 < len -> Forall (fun e => 0 <= e < len) (fst (fillBase n len g)).
Proof.
  induction n as [|n IH]; intros len g Hlen; cbn [fillBase].
  - constructor.
  - specialize (IH len (advance g) Hlen).
    unfold rand. destruct (fillBase n len (advance g)) as [rest g2].
    cbn [fst] in *. constructor; [|exact IH].
    apply ToUint16_range, floor_times_range; [apply mix_range|exact Hlen].
Qed.

Lemma fillBase_length n : forall len g, length (fst (fillBase n len g)) = n.
Proof.
  induction n as [|n IH]; intros len g; cbn [fillBase]; [done|].
  specialize (IH len (advance g)). unfold rand.
  destruct (fillBase n len (advance g)) as [rest g2]. cbn [fst length] in *. lia.
Qed.

Lemma fillBase_state n : forall len g,
  snd (fillBase n len g) = Nat.iter n advance g.
Proof.
  induction n as [|n IH]; intros len g; cbn [fillBase]; [done|].
  specialize (IH len (advance g)). unfold rand.
  destruct (fillBase n len (advance g)) as [rest g2]. cbn [snd] in *.
  rewrite IH. by rewrite Nat.iter_succ_r.
Qed.

Lemma length_list_ascii_of_string s :
  length (list_ascii_of_string s) = String.length s.
Proof. induction s as [|a s IH]; simpl; congruence. Qed.

Lemma index_in_range {A} (a : list A) (i : Z) :
  0 <= i < Z.of_nat (length a) -> is_Some (index a (Int i)).
Proof.
  intros Hi. unfold index. destruct (Z.leb_spec 0 i); [|lia].
  apply lookup_lt_is_Some_2. lia.
Qed.

Lemma elem_of_gridCells gm r c :
  (r, c) ∈ gridCells gm ->
  (r < tripCount (rows gm))%nat /\ (c < tripCount (cols gm))%nat.
Proof.
  unfold gridCells. intros (r' & (c' & Hrc & Hc)%list_elem_of_bind & Hr)%list_elem_of_bind.
  apply list_elem_of_singleton in Hrc as [= -> ->].
  apply elem_of_seq in Hr, Hc. lia.
Qed.

(** A cell that is drawn from a base buffer of valid glyph indices, one per
    cell of the grid, gets a glyph of the alphabet. *)
Lemma render_base_glyph P F gm base m k d :
  Forall (fun e => 0 <= e < Z.of_nat (String.length (glyphs P))) base ->
  length base = tripCount (mul (cols gm) (rows gm)) ->
  d ∈ render P F gm base m k ->
  drawnScramble d = None ->
  is_Some (drawnGlyph d).
Proof.
  intros Hvalid Hlen. unfold render.
  intros (j & [r c] & -> & Hrc%list_elem_of_lookup_2)%elem_of_lookup_imap.
  apply elem_of_gridCells in Hrc as [Hr Hc].
  destruct (cols gm) as [| |C] eqn:EC; cbn [tripCount] in Hc; try lia.
  destruct (rows gm) as [| |R] eqn:ER; cbn [tripCount] in Hr; try lia.
  cbn [mul tripCount] in Hlen.
  unfold renderCell. rewrite EC. cbn [drawnScramble drawnGlyph mul add].
  intros ->.
  assert (0 <= Z.of_nat r * C + Z.of_nat c < C * R) as Hidx by nia.
  destruct (index_in_range base (Z.of_nat r * C + Z.of_nat c)) as [e He]; [lia|].
  rewrite He. cbn [fmap option_fmap option_map mbind option_bind].
  apply index_in_range. rewrite length_list_ascii_of_string.
  unfold index in He. destruct (0 <=? _); [|done].
  apply list_elem_of_lookup_2 in He.
  by apply (proj1 (Forall_forall _ _) Hvalid).
Qed.

Lemma draw_cells P reduced F w gm base painted :
  gridRef w = Some gm -> baseGridRef w = Some base ->
  (draw P reduced true F w).2 = Some painted ->
  exists m k, cells painted = render P F gm base m k.
Proof.
  intros Hg Hb. unfold draw. cbn [negb]. rewrite Hg, Hb.
  destruct (scramble P reduced F gm w) as [[m ids] k]. cbn [snd].
  intros [= <-]. by eexists _, _.
Qed.

(** C10: when the glyph alphabet is not empty, every entry of the base
    glyph buffer stored by the grid computation is an integer [i] with
    [0 <= i < glyphs.length]; and in every frame drawn while that grid and
    buffer are current, the glyph lookup of a cell that is not scrambled
    yields a character of the alphabet. *)
Theorem base_glyphs_valid isClient win canvas P w0 :
  glyphs P <> ""%string ->
  let w := computeGrid isClient win canvas P w0 in
  (forall buf, baseGridRef w = Some buf ->
     Forall (fun e => 0 <= e < Z.of_nat (String.length (glyphs P))) buf) /\
  (forall w' reduced F painted d,
     gridRef w' = gridRef w -> baseGridRef w' = baseGridRef w ->
     (draw P reduced true F w').2 = Some painted ->
     d ∈ cells painted -> drawnScramble d = None ->
     is_Some (drawnGlyph d)).
Proof.
  intros Hne w.
  assert (0 < Z.of_nat (String.length (glyphs P))) as Hlen.
  { destruct (glyphs P); [done|]. cbn [String.length]. lia. }
  assert (forall buf, baseGridRef w = Some buf ->
            Forall (fun e => 0 <= e < Z.of_nat (String.length (glyphs P))) buf)
    as Hbuf.
  { intros buf. unfold w. rewrite baseGridRef_computeGrid. cbv zeta.
    intros [= <-]. apply fillBase_entries, Hlen. }
  split; [exact Hbuf|].
  intros w' reduced F painted d Hg Hb Hdraw.
  unfold w in Hg, Hb. rewrite gridRef_computeGrid in Hg.
  rewrite baseGridRef_computeGrid in Hb. cbv zeta in Hb.
  destruct (draw_cells _ _ _ _ _ _ _ Hg Hb Hdraw) as (m & k & ->).
  apply render_base_glyph; [|apply fillBase_length].
  apply Hbuf. unfold w. by rewrite baseGridRef_computeGrid.
Qed.

Lemma base_glyphs_valid_witness :
  glyphs defaultProps <> ""%string /\
  forall buf,
    baseGridRef (computeGrid true desktop smallCanvas defaultProps
                             (mount true desktop)) = Some buf ->
    Forall (fun e => 0 <= e < Z.of_nat (String.length (glyphs defaultProps))) buf.
Proof.
  split; [discriminate|].
  apply (base_glyphs_valid true desktop smallCanvas defaultProps
           (mount true desktop)).
  discriminate.
Defined.

Lemma randState_draw P reduced running F w :
  randState (draw P reduced running F w).1 = randState w.
Proof.
  unfold draw. destruct running; [|done]. cbn [negb].
  destruct (gridRef w) as [gm|]; [|done].
  destruct (baseGridRef w) as [base|]; [|done].
  by destruct (scramble P reduced F gm w) as [[m ids] k].
Qed.

(** Only a grid computation advances the generator, by one call per cell. *)
Lemma randState_step e w :
  randState (step e w) = Nat.iter (samples e) advance (randState w).
Proof.
  destruct e as [win canvas P|now win|win x y|P reduced running F];
    cbn [step samples Nat.iter].
  - rewrite randState_computeGrid. apply fillBase_state.
  - reflexivity.
  - unfold onMouseMove. by destruct (_ <? _).
  - apply randState_draw.
Qed.

Lemma randState_run es : forall w,
  randState (run es w) = Nat.iter (samplesDrawn es) advance (randState w).
Proof.
  induction es as [|e es IH]; intros w; [done|].
  change (run (e :: es) w) with (run es (step e w)).
  rewrite IH, randState_step. cbn [samplesDrawn fold_right].
  fold (samplesDrawn es). rewrite (Nat.add_comm (samples e)).
  by rewrite Nat.iter_add.
Qed.

(** C1 (amended): for two component instances whose seeds, derived from the
    viewport at mount, are equal, two grid computations with identical
    inputs store identical base glyph buffers provided the generators of
    the two instances have been called equally often before, in particular
    when each computation is the first one after its mount.  The device
    pixel ratio and the rest of the history do not matter. *)
Theorem base_buffer_reproducible winA winB esA esB win canvas P :
  seedKey true winA = seedKey true winB ->
  samplesDrawn esA = samplesDrawn esB ->
  baseGridRef (computeGrid true win canvas P (run esA (mount true winA)))
    = baseGridRef (computeGrid true win canvas P (run esB (mount true winB))).
Proof.
  intros Hseed Hn. rewrite !baseGridRef_computeGrid, !randState_run.
  cbn [mount randState]. by rewrite Hseed, Hn.
Qed.

Lemma base_buffer_reproducible_witness :
  seedKey true desktop = seedKey true (scrolledTo 300) /\
  samplesDrawn [] = samplesDrawn [Scrolled (of_Z 16) desktop] /\
  baseGridRef (computeGrid true desktop fullCanvas defaultProps
                 (run [] (mount true desktop)))
    = baseGridRef (computeGrid true desktop fullCanvas defaultProps
                     (run [Scrolled (of_Z 16) desktop]
                          (mount true (scrolledTo 300)))).
Proof.
  split; [reflexivity|]. split; [reflexivity|].
  apply (base_buffer_reproducible desktop (scrolledTo 300) []
           [Scrolled (of_Z 16) desktop] desktop fullCanvas defaultProps);
    reflexivity.
Defined.

(** C1 as stated fails: on two instances mounted in the same 1024x768
    viewport, the first grid computation of one and the second grid
    computation of the other (a resize event that leaves every input
    unchanged) store different buffers, because the memoised generator
    continues its sequence. *)
Lemma base_buffer_second_computation_differs :
  baseGridRef (computeGrid true desktop fullCanvas defaultProps
                 (run [] (mount true desktop)))
  <> baseGridRef (computeGrid true desktop fullCanvas defaultProps
                    (run [Recompute desktop fullCanvas defaultProps]
                         (mount true desktop))).
Proof. vm_compute. discriminate. Qed.

End Buffer.

(** ** The frame callback *)

Section Frames.

(** [<=] on binary64 values is transitive. *)
Lemma fle_trans a b c : fle a b = true -> fle b c = true -> fle a c = true.
Proof.
  unfold fle, SFleb.
  destruct a as [sa|sa| |sa ma ea], b as [sb|sb| |sb mb eb],
           c as [sc|sc| |sc mc ec]; simpl; try done;
    repeat match goal with s : bool |- _ => destruct s end; simpl; try done;
    fold (Pos.compare ma mb) (Pos.compare mb mc) (Pos.compare ma mc);
    destruct (Z.compare_spec ea eb), (Z.compare_spec eb ec),
             (Z.compare_spec ea ec);
    try done; try lia; subst;
    destruct (Pos.compare_spec ma mb), (Pos.compare_spec mb mc),
             (Pos.compare_spec ma mc); simpl; try done; try lia.
Qed.

Lemma is_finite_or_else x y :
  is_finite x = true -> is_finite y = true -> is_finite (or_else x y) = true.
Proof. unfold or_else. by destruct (truthy x). Qed.

Lemma consistent_mount isClient win : consistent (mount isClient win).
Proof. split; [by intros []|reflexivity]. Qed.

(** A frame replaces neither the grid, nor the buffer, nor the scroll
    target. *)
Lemma draw_refs P reduced running F w :
  gridRef (draw P reduced running F w).1 = gridRef w /\
  baseGridRef (draw P reduced running F w).1 = baseGridRef w /\
  scrollTargetRef (draw P reduced running F w).1 = scrollTargetRef w.
Proof.
  unfold draw. destruct running; [|done]. cbn [negb].
  destruct (gridRef w) as [gm|] eqn:Eg; [|by rewrite ?Eg].
  destruct (baseGridRef w) as [base|] eqn:Eb; [|by rewrite ?Eg, ?Eb].
  destruct (scramble P reduced F gm w) as [[m ids] k]. by rewrite ?Eg, ?Eb.
Qed.

(** A frame that finds no grid or no buffer leaves the scramble map alone. *)
Lemma draw_map_early P reduced running F w :
  gridRef w = None \/ baseGridRef w = None ->
  scrambleMapRef (draw P reduced running F w).1 = scrambleMapRef w.
Proof.
  unfold draw. destruct running; [|done]. cbn [negb].
  intros [H|H]; rewrite H; [done|]. by destruct (gridRef w).
Qed.

Lemma consistent_step e w :
  well_typed e = true -> consistent w -> consistent (step e w).
Proof.
  intros Ht [Hm Hf].
  destruct e as [win canvas P|now win|win x y|P reduced running F]; cbn [step].
  - split.
    + intros _. unfold computeGrid. destruct (fillBase _ _ _). split; by eexists.
    + unfold computeGrid. by destruct (fillBase _ _ _).
  - split; [exact Hm|]. cbn [onScroll scrollTargetRef].
    apply andb_true_iff in Ht as [H1 H2].
    repeat apply is_finite_or_else; done.
  - unfold onMouseMove. destruct (_ <? _); by split.
  - destruct (draw_refs P reduced running F w) as (Eg & Eb & Es).
    split; [|by rewrite Es]. rewrite Eg, Eb.
    destruct (gridRef w) as [gm|] eqn:Hg, (baseGridRef w) as [base|] eqn:Hb;
      try (intros _; split; by eexists).
    all: rewrite draw_map_early by (rewrite ?Hg, ?Hb; auto); exact Hm.
Qed.

Lemma reachable_consistent w : reachable w -> consistent w.
Proof.
  induction 1 as [win|e w Ht _ IH].
  - apply consistent_mount.
  - by apply consistent_step.
Qed.

Lemma reachable_run es : forall w,
  Forall (fun e => well_typed e = true) es -> reachable w -> reachable (run es w).
Proof.
  induction es as [|e es IH]; intros w Hes Hw; [exact Hw|].
  inversion Hes as [|? ? He Hes']; subst.
  apply (IH (step e w)); [exact Hes'|]. by apply reachable_step.
Qed.

Lemma parallaxTarget_reduced P w :
  is_finite (scrollTargetRef w) = true ->
  is_zero (parallaxTarget P true w) = true.
Proof. unfold parallaxTarget. by destruct (scrollTargetRef w). Qed.

(** C8: when reduced motion is active, in every state the component can
    reach and so for every scroll position, a frame leaves the scramble set
    empty, inserts no entry, and the parallax target computed from the
    scroll position is zero. *)
Theorem reduced_motion_frame P F w :
  reachable w ->
  scrambleMapRef (draw P true true F w).1 = ∅ /\
  is_zero (parallaxTarget P true w) = true /\
  forall painted,
    (draw P true true F w).2 = Some painted ->
    is_zero (target painted) = true /\ inserted painted = [].
Proof.
  intros [Hm Hf]%reachable_consistent.
  pose proof (parallaxTarget_reduced P w Hf) as Hz.
  destruct (gridRef w) as [gm|] eqn:Hg, (baseGridRef w) as [base|] eqn:Hb.
  2-4: rewrite draw_map_early by (rewrite ?Hg, ?Hb; auto);
       (split; [|split; [exact Hz|]]);
       [ destruct (decide (scrambleMapRef w = ∅)) as [|Hne]; [done|];
         destruct (Hm Hne) as [[? ?] [? ?]]; congruence
       | unfold draw; cbn [negb]; rewrite Hg, ?Hb; done ].
  unfold draw. cbn [negb]. rewrite Hg, Hb. cbn [scramble fst snd scrambleMapRef].
  split; [done|]. split; [exact Hz|]. intros painted [= <-]. by split.
Qed.

Lemma reduced_motion_frame_witness :
  reachable (scrambled smallCanvas) /\
  is_Some (scrambleMapRef (scrambled smallCanvas) !! Int 3) /\
  scrambleMapRef
    (draw defaultProps true true (frameAt 150) (scrambled smallCanvas)).1 = ∅.
Proof.
  assert (reachable (scrambled smallCanvas)) as Hw.
  { apply reachable_run; [|apply reachable_mount].
    repeat constructor. }
  split; [exact Hw|]. split; [vm_compute; eauto|].
  apply (reduced_motion_frame defaultProps (frameAt 150) _ Hw).
Defined.

Lemma scramble_purged P reduced F gm w :
  exists m0, (scramble P reduced F gm w).1.1 = purge (nowPurge F) m0.
Proof.
  unfold scramble. destruct reduced.
  - exists ∅. unfold purge. by rewrite map_filter_empty.
  - cbv zeta. destruct (flt (lit 5 1000) _); [destruct (flt (random F 0) _)|].
    + destruct (scrambleBurst _ _ _ _ _ _ _) as [m ids]. by eexists.
    + by eexists.
    + by eexists.
Qed.

Lemma purge_lookup now m idx e :
  purge now m !! idx = Some e -> fle (until e) now = false.
Proof. unfold purge. by intros [_ H]%map_lookup_filter_Some. Qed.

Lemma render_scramble P F gm base m k d :
  d ∈ render P F gm base m k ->
  drawnScramble d = m !! drawnIndex d.
Proof.
  unfold render. intros (j & [r c] & -> & _)%elem_of_lookup_imap.
  reflexivity.
Qed.

(** C9: on a clock where the timestamp of a frame is not later than the
    reading of [performance.now()] the frame takes before purging, no cell
    of the render pass takes its glyph from a scramble entry whose expiry
    [until] is at or before the timestamp of the frame. *)
Theorem expired_not_rendered P reduced running F w painted d e :
  fle (t F) (nowPurge F) = true ->
  (draw P reduced running F w).2 = Some painted ->
  d ∈ cells painted ->
  drawnScramble d = Some e ->
  fle (until e) (t F) = false.
Proof.
  intros Hclock. unfold draw. destruct running; [|done]. cbn [negb].
  destruct (gridRef w) as [gm|]; [|done].
  destruct (baseGridRef w) as [base|]; [|done].
  destruct (scramble_purged P reduced F gm w) as [m0 Hm0].
  destruct (scramble P reduced F gm w) as [[m ids] k]. cbn [fst snd] in *.
  intros [= <-]. cbn [cells]. intros Hd%render_scramble He. subst m.
  rewrite He in Hd. symmetry in Hd. apply purge_lookup in Hd.
  destruct (fle (until e) (t F)) eqn:Hexp; [|done].
  by rewrite (fle_trans _ _ _ Hexp Hclock) in Hd.
Qed.

Lemma expired_not_rendered_witness :
  exists painted d e,
    fle (t (frameAt 133)) (nowPurge (frameAt 133)) = true /\
    (draw defaultProps false true (frameAt 133) (scrolled smallCanvas)).2
      = Some painted /\
    cells painted !! 3%nat = Some d /\
    drawnScramble d = Some e /\
    fle (until e) (t (frameAt 133)) = false.
Proof.
  assert (exists painted,
            (draw defaultProps false true (frameAt 133) (scrolled smallCanvas)).2
              = Some painted) as [painted Hp] by (vm_compute; eauto).
  assert (exists d e, cells painted !! 3%nat = Some d /\ drawnScramble d = Some e)
    as (d & e & Hd & He).
  { pose proof Hp as Hp'. vm_compute in Hp'. injection Hp' as <-.
    vm_compute. eauto. }
  exists painted, d, e.
  split; [reflexivity|]. split; [exact Hp|]. split; [exact Hd|].
  split; [exact He|].
  apply (expired_not_rendered defaultProps false true (frameAt 133)
           (scrolled smallCanvas) painted d e); [reflexivity|exact Hp| |exact He].
  exact (list_elem_of_lookup_2 _ _ _ Hd).
Defined.

Lemma scrambleBurst_indices N glyphCount now random :
  1 <= N < 2 ^ 53 ->
  (forall k, inUnitInterval (random k) = true) ->
  forall n k m,
    Forall (fun idx => exists i, idx = Int i /\ 0 <= i < N)
           (scrambleBurst n (Int N) glyphCount now random k m).2.
Proof.
  intros HN Hrnd. induction n as [|n IH]; intros k m; cbn [scrambleBurst].
  - constructor.
  - specialize (IH (k + 3)%nat
      (<[Math_floor (fmul (random k) (to_float (Int N))) :=
           {| glyphIndex :=
                Math_floor (fmul (random (k + 2)%nat) (of_Z glyphCount));
              until := fadd now (fadd (of_Z 200)
                                      (fmul (random (k + 1)%nat) (of_Z 150))) |}]> m)).
    destruct (scrambleBurst n _ _ _ _ _ _) as [m' ids]. cbn [snd] in *.
    constructor; [|exact IH].
    destruct (floor_random_times (random k) N (Hrnd k) HN) as (i & Hi & Hr).
    by exists i.
Qed.

(** On a grid of at least one cell, every index a frame inserts into the
    scramble set is a cell index, whenever [Math.random()] keeps to [0, 1). *)
Lemma nonempty_grid_indices_valid P reduced F w gm N painted :
  gridRef w = Some gm ->
  mul (cols gm) (rows gm) = Int N -> 1 <= N < 2 ^ 53 ->
  (forall k, inUnitInterval (random F k) = true) ->
  (draw P reduced true F w).2 = Some painted ->
  Forall (validIndex gm) (inserted painted).
Proof.
  intros Hg HN Hr Hrnd. unfold draw. cbn [negb]. rewrite Hg.
  destruct (baseGridRef w) as [base|]; [|done].
  assert (Forall (validIndex gm) (scramble P reduced F gm w).1.2) as Hs.
  { unfold scramble. destruct reduced; [constructor|]. cbv zeta.
    destruct (flt (lit 5 1000) _); [|constructor].
    destruct (flt (random F 0) _); [|constructor].
    rewrite HN.
    pose proof (scrambleBurst_indices N
      (Z.of_nat (String.length (glyphs P))) (nowBurst F) (random F) Hr Hrnd) as Hb.
    match goal with |- context [scrambleBurst ?n _ _ _ _ ?k ?m] =>
      specialize (Hb n k m); destruct (scrambleBurst n _ _ _ _ k m) as [m' ids]
    end.
    cbn [fst snd] in *. eapply Forall_impl; [exact Hb|].
    intros idx (i & -> & Hi). exists i, N. by rewrite HN. }
  destruct (scramble P reduced F gm w) as [[m ids] k]. cbn [fst snd] in *.
  by intros [= <-].
Qed.

(** C2, at an empty grid: on a canvas of zero height ([rows = 0], so
    [cols * rows = 0]) a frame that follows a scroll of 300px in 100ms
    inserts index 0 into the scramble set, although the grid has no cell:
    [0 <= 0 < 0] fails. *)
Theorem empty_grid_scramble_index :
  exists gm,
    gridRef (scrolled flatCanvas) = Some gm /\
    mul (cols gm) (rows gm) = Int 0 /\
    inserted <$>
      (draw defaultProps false true (frameAt 133) (scrolled flatCanvas)).2
      = Some [Int 0] /\
    is_Some (scrambleMapRef
      (draw defaultProps false true (frameAt 133) (scrolled flatCanvas)).1
        !! Int 0) /\
    ~ validIndex gm (Int 0).
Proof.
  eexists. split; [vm_compute; reflexivity|].
  split; [reflexivity|]. split; [vm_compute; reflexivity|].
  split; [vm_compute; eauto|].
  intros (i & n & [= <-] & [= <-] & Hi). lia.
Qed.

End Frames.

(** ** The generator and Mulberry32 *)

Import Mulberry32 BackingStore Font Drift Lifetime Visible Behaviour.

Section GeneratorMore.

Lemma createSeededRandom_range seed : 1 <= createSeededRandom seed < two32.
Proof.
  unfold createSeededRandom, ToUint32.
  pose proof (Z.mod_pos_bound seed two32 ltac:(reflexivity)) as H.
  destruct (Z.eqb_spec (seed mod two32) 0); unfold two32 in *; lia.
Qed.

Lemma ToInt32_mod x : ToInt32 (x mod two32) = ToInt32 x.
Proof. unfold ToInt32. by rewrite Z.mod_mod. Qed.

Lemma ToUint32_mod x : ToUint32 (x mod two32) = ToUint32 x.
Proof. unfold ToUint32. by rewrite Z.mod_mod. Qed.

(** The bit operations read the state modulo 2^32 only. *)
Lemma mix_mod s : mix (s mod two32) = mix s.
Proof.
  unfold mix, xor, bor, ushr. by rewrite !ToInt32_mod, !ToUint32_mod.
Qed.

Lemma round53_small m : 0 <= m < 2 ^ 53 -> round53 m = m.
Proof.
  intros [H0 H1]. unfold round53.
  destruct (Z.leb_spec (Z.log2 m + 1) 53) as [|Hd]; [done|].
  destruct (Z.eq_dec m 0) as [->|]; [done|].
  assert (Z.log2 m < 53) by (apply Z.log2_lt_pow2; lia). lia.
Qed.

Lemma nthState_exact seed n :
  createSeededRandom seed + Z.of_nat n * 0x6D2B79F5 < 2 ^ 53 ->
  nthState seed n = createSeededRandom seed + Z.of_nat n * 0x6D2B79F5.
Proof.
  pose proof (createSeededRandom_range seed) as Hs. unfold two32 in Hs.
  unfold nthState.
  induction n as [|n IH]; intros Hn; [simpl; lia|rewrite Nat.iter_succ].
  rewrite IH by lia. unfold advance. rewrite round53_small; lia.
Qed.

Lemma iter_advance32 s n :
  Nat.iter n advance32 (s mod two32) = (s + Z.of_nat n * 0x6D2B79F5) mod two32.
Proof.
  induction n as [|n IH]; [simpl; f_equal; lia|rewrite Nat.iter_succ].
  - rewrite IH. unfold advance32. rewrite Zplus_mod_idemp_l. f_equal. lia.
Qed.

(** X2: the state of the generator is a binary64 number that is never
    reduced modulo 2^32; all the same, for every seed each of the first
    4,917,756 calls returns what Mulberry32 with a 32-bit wrapping state
    returns, because the mixing reads the state modulo 2^32 and the state
    stays below 2^53, where the additions are exact. *)
Theorem agrees_with_32_bit_state seed n :
  Z.of_nat n < exactCalls ->
  nthValue seed n = nthValue32 seed n.
Proof.
  intros Hn. pose proof (createSeededRandom_range seed) as Hs.
  unfold exactCalls, two32 in *.
  unfold nthValue, nthValue32, rand, rand32. cbn [fst].
  rewrite nthState_exact by lia.
  replace (createSeededRandom seed) with (createSeededRandom seed mod two32) at 2
    by (apply Z.mod_small; unfold two32; lia).
  rewrite iter_advance32. unfold advance32. rewrite Zplus_mod_idemp_l, mix_mod.
  unfold advance. rewrite round53_small by lia. reflexivity.
Qed.

Lemma agrees_with_32_bit_state_witness :
  Z.of_nat 3 < exactCalls /\ nthValue 7 3 = nthValue32 7 3.
Proof.
  split; [reflexivity|]. apply (agrees_with_32_bit_state 7 3). reflexivity.
Defined.

(** X1: the initial state of a generator lies in [1, 2^32); the sequence
    depends on the seed modulo 2^32 only, so [seed] and [seed + 2^32] give
    the same values, as do a seed and the state it is normalised to; and
    seed 0 gives the sequence of seed 0x9e3779b9. *)
Theorem seed_normalisation seed n :
  1 <= createSeededRandom seed < 2 ^ 32 /\
  nthValue (seed + 2 ^ 32) n = nthValue seed n /\
  nthValue (createSeededRandom seed) n = nthValue seed n /\
  nthValue 0 n = nthValue 0x9e3779b9 n.
Proof.
  assert (Hidem : forall x, createSeededRandom (createSeededRandom x) = createSeededRandom x).
  { intros x. pose proof (createSeededRandom_range x) as Hx. unfold two32 in Hx.
    unfold createSeededRandom at 1. unfold ToUint32.
    rewrite Z.mod_small by (unfold two32; lia).
    destruct (Z.eqb_spec (createSeededRandom x) 0); [lia|done]. }
  split; [exact (createSeededRandom_range seed)|].
  unfold nthValue, nthState. split; [|split].
  - do 2 f_equal. unfold createSeededRandom, ToUint32.
    replace (seed + 2 ^ 32) with (seed + 1 * two32) by reflexivity.
    by rewrite Z_mod_plus_full.
  - by rewrite Hidem.
  - reflexivity.
Qed.

Lemma nthState_exact_Z seed N :
  0 <= N -> createSeededRandom seed + N * 0x6D2B79F5 < 2 ^ 53 ->
  nthState seed (Z.to_nat N) = createSeededRandom seed + N * 0x6D2B79F5.
Proof. intros HN Hlt. rewrite nthState_exact; rewrite Z2Nat.id; done. Qed.

Lemma iter_advance32_Z s N :
  0 <= N ->
  Nat.iter (Z.to_nat N) advance32 (s mod two32) = (s + N * 0x6D2B79F5) mod two32.
Proof. intros HN. rewrite iter_advance32, Z2Nat.id; done. Qed.

(** X3: the bound of X2 is sharp: for the seed of a 1024x768 window the
    state passes 2^53 at call 4,917,757, the addition rounds, and the value
    returned differs from the one Mulberry32 with a 32-bit state returns. *)
Theorem exactCalls_sharp :
  nthValue (seedKey true desktop) (Z.to_nat exactCalls)
  <> nthValue32 (seedKey true desktop) (Z.to_nat exactCalls).
Proof.
  unfold nthValue, nthValue32, rand, rand32. cbn [fst].
  assert (Hs : createSeededRandom (seedKey true desktop) = 3994069248) by reflexivity.
  rewrite nthState_exact_Z; [|done|rewrite Hs; done].
  rewrite Hs.
  change 3994069248 with (3994069248 mod two32) at 2.
  rewrite iter_advance32_Z by done.
  unfold exactCalls. vm_compute. discriminate.
Qed.

End GeneratorMore.

(** ** [clamp] on binary64 values *)

Section Clamp.

Lemma SFcompare_refl a : a <> S754_nan -> SFcompare a a = Some Eq.
Proof.
  destruct a as [[]|[]| |[] m e]; try done; intros _; cbn;
    rewrite Z.compare_refl; fold (Pos.compare m m);
    by rewrite Pos.compare_refl.
Qed.

Lemma SFcompare_antisym a b :
  SFcompare b a = CompOpp <$> SFcompare a b.
Proof.
  destruct a as [[]|[]| |[] ma ea], b as [[]|[]| |[] mb eb]; try done; cbn;
    rewrite (Z.compare_antisym ea eb);
    fold (Pos.compare ma mb) (Pos.compare mb ma);
    rewrite (Pos.compare_antisym ma mb);
    destruct (ea ?= eb), (ma ?= mb)%positive; done.
Qed.

Lemma fle_compare a b :
  fle a b = true <-> SFcompare a b = Some Lt \/ SFcompare a b = Some Eq.
Proof.
  unfold fle, SFleb. destruct (SFcompare a b) as [[]|]; split; auto;
    try discriminate; intros H; destruct H; discriminate.
Qed.

Lemma fle_refl a : a <> S754_nan -> fle a a = true.
Proof. intros H. apply fle_compare. right. by apply SFcompare_refl. Qed.

Lemma fle_not_nan a b : fle a b = true -> a <> S754_nan /\ b <> S754_nan.
Proof. destruct a, b; done. Qed.

Lemma SFcompare_not_nan a b :
  a <> S754_nan -> b <> S754_nan -> is_Some (SFcompare a b).
Proof. destruct a, b; done. Qed.

Lemma fle_flip a b : SFcompare a b = Some Gt -> fle b a = true.
Proof.
  intros H. apply fle_compare. left. by rewrite SFcompare_antisym, H.
Qed.

Lemma fle_eq a b : SFcompare a b = Some Eq -> fle a b = true /\ fle b a = true.
Proof.
  intros H. split; apply fle_compare; right; [done|].
  by rewrite SFcompare_antisym, H.
Qed.

(** [Math.min] of two numbers is one of them and is below both. *)
Lemma float_min_spec a b :
  a <> S754_nan -> b <> S754_nan ->
  (float_min a b = a \/ float_min a b = b) /\
  fle (float_min a b) a = true /\ fle (float_min a b) b = true.
Proof.
  intros Ha Hb. unfold float_min.
  destruct (SFcompare_not_nan a b Ha Hb) as [[] E]; rewrite E.
  - destruct (fle_eq a b E). destruct (is_negative_zero a);
      auto using fle_refl.
  - split; [by left|]. split; [by apply fle_refl|].
    apply fle_compare. by left.
  - split; [by right|]. split; [by apply fle_flip|by apply fle_refl].
Qed.

Lemma float_max_spec a b :
  a <> S754_nan -> b <> S754_nan ->
  (float_max a b = a \/ float_max a b = b) /\
  fle a (float_max a b) = true /\ fle b (float_max a b) = true.
Proof.
  intros Ha Hb. unfold float_max.
  destruct (SFcompare_not_nan a b Ha Hb) as [[] E]; rewrite E.
  - destruct (fle_eq a b E). destruct (is_negative_zero a);
      auto using fle_refl.
  - split; [by right|]. split; [|by apply fle_refl].
    apply fle_compare. by left.
  - split; [by left|]. split; [by apply fle_refl|by apply fle_flip].
Qed.

Lemma SFeqb_fle a b : fle a b = true -> fle b a = true -> SFeqb a b = true.
Proof.
  intros [H|H]%fle_compare [H'|H']%fle_compare;
    rewrite (SFcompare_antisym a b), H in H'; try done;
    unfold SFeqb; by rewrite H.
Qed.

(** X4: for bounds [lo <= hi], [clamp(v, lo, hi)] is NaN when [v] is NaN
    and otherwise lies between the bounds; and a [v] that lies between the
    bounds is returned as a number equal to it. *)
Theorem clamp_binary64 (v lo hi : spec_float) :
  fle lo hi = true ->
  (v = S754_nan -> clamp v lo hi = S754_nan) /\
  (v <> S754_nan ->
     fle lo (clamp v lo hi) = true /\ fle (clamp v lo hi) hi = true /\
     (fle lo v = true -> fle v hi = true -> SFeqb (clamp v lo hi) v = true)).
Proof.
  intros Hlh. destruct (fle_not_nan _ _ Hlh) as [Hlo Hhi].
  unfold clamp. cbn [Math_max Math_min float_MinMax]. split.
  - intros ->. unfold float_min. destruct hi; try done.
    all: unfold float_max; by destruct lo.
  - intros Hv.
    destruct (float_min_spec hi v Hhi Hv) as (Hm & Hm1 & Hm2).
    assert (float_min hi v <> S754_nan) as Hmn by (by destruct Hm as [-> | ->]).
    destruct (float_max_spec lo (float_min hi v) Hlo Hmn) as (Hr & Hr1 & Hr2).
    split; [exact Hr1|]. split.
    + destruct Hr as [-> | ->]; [exact Hlh|exact Hm1].
    + intros Hlv Hvh.
      assert (fle v (float_min hi v) = true) as Hvm
        by (destruct Hm as [-> | ->]; [exact Hvh|by apply fle_refl]).
      apply SFeqb_fle.
      * destruct Hr as [-> | ->]; [exact Hlv|exact Hm2].
      * by apply (fle_trans _ _ _ Hvm).
Qed.

Lemma clamp_binary64_witness :
  fle (SFopp (of_Z 1)) (of_Z 1) = true /\
  (of_Z 5 = S754_nan -> clamp (of_Z 5) (SFopp (of_Z 1)) (of_Z 1) = S754_nan) /\
  (of_Z 5 <> S754_nan ->
     fle (SFopp (of_Z 1)) (clamp (of_Z 5) (SFopp (of_Z 1)) (of_Z 1)) = true /\
     fle (clamp (of_Z 5) (SFopp (of_Z 1)) (of_Z 1)) (of_Z 1) = true /\
     (fle (SFopp (of_Z 1)) (of_Z 5) = true -> fle (of_Z 5) (of_Z 1) = true ->
      SFeqb (clamp (of_Z 5) (SFopp (of_Z 1)) (of_Z 1)) (of_Z 5) = true)).
Proof.
  split; [reflexivity|].
  apply (clamp_binary64 (of_Z 5) (SFopp (of_Z 1)) (of_Z 1)). reflexivity.
Defined.

End Clamp.

(** ** More on the grid layout *)

Section LayoutMore.

Lemma of_Z_not_nan z : of_Z z <> S754_nan.
Proof.
  unfold of_Z, binary_normalize. destruct z as [|p|p]; [done| |];
    unfold binary_round; destruct (shl_align _ _ _);
    apply binary_round_aux_not_nan; lia.
Qed.

Lemma fmul_of_Z_finite z s m e : fmul (of_Z z) (S754_finite s m e) <> S754_nan.
Proof.
  pose proof (of_Z_not_nan z) as Hz.
  destruct (of_Z z) as [s'|s'| |s' m' e']; try done.
  apply binary_round_aux_not_nan. lia.
Qed.

Lemma positivePixels_max x : x <> NaN -> positivePixels (Math_max (Int 1) x).
Proof. destruct x as [|[]|z]; simpl; try done. lia. Qed.

Lemma Math_floor_not_NaN x : x <> S754_nan -> Math_floor x <> NaN.
Proof. destruct x; done. Qed.

(** X5: for every finite [devicePixelRatio], zero and negative ratios
    included, and every size of the canvas box, a grid computation stores a
    ratio that is neither 0 nor NaN and assigns to [canvas.width] and
    [canvas.height] numbers that are at least 1, never NaN. *)
Theorem canvas_backing_store isClient win canvas P w :
  is_finite (devicePixelRatio win) = true ->
  truthy (dprRef (computeGrid isClient win canvas P w)) = true /\
  positivePixels (canvasWidth (computeGrid isClient win canvas P w)) /\
  positivePixels (canvasHeight (computeGrid isClient win canvas P w)).
Proof.
  intros Hfin. unfold computeGrid.
  destruct (fillBase _ _ _) as [buf g]. cbn [dprRef canvasWidth canvasHeight].
  set (dpr := if isClient then _ else _).
  assert (exists s m e, dpr = S754_finite s m e) as (s & m & e & ->).
  { unfold dpr. destruct isClient; [|by eexists _, _, _].
    unfold or_else. destruct (devicePixelRatio win) as [?|?| |s m e];
      try done; by eexists _, _, _. }
  split; [reflexivity|].
  split; apply positivePixels_max, Math_floor_not_NaN, fmul_of_Z_finite.
Qed.

Lemma canvas_backing_store_witness :
  is_finite (devicePixelRatio desktop) = true /\
  truthy (dprRef (computeGrid true desktop flatCanvas defaultProps
                              (mount true desktop))) = true /\
  positivePixels (canvasWidth (computeGrid true desktop flatCanvas defaultProps
                                           (mount true desktop))) /\
  positivePixels (canvasHeight (computeGrid true desktop flatCanvas defaultProps
                                            (mount true desktop))).
Proof.
  split; [reflexivity|].
  apply (canvas_backing_store true desktop flatCanvas defaultProps
           (mount true desktop)).
  reflexivity.
Defined.

(** X7: for every density other than NaN the grid is as large as the canvas
    allows: one more column would be wider than the canvas and one more row
    would be taller. *)
Theorem grid_is_maximal isClient win canvas P w :
  isNaN (density P) = false ->
  exists gm c r k,
    gridRef (computeGrid isClient win canvas P w) = Some gm /\
    cols gm = Int c /\ rows gm = Int r /\ cell gm = Int k /\
    widthCss isClient canvas < (c + 1) * k /\
    heightCss isClient canvas < (r + 1) * k.
Proof.
  intros Hd. destruct (cellSize_inRange isClient win P Hd) as (k & Hk & Hr).
  rewrite gridRef_computeGrid, (gridMetrics_Int _ _ canvas _ k Hk) by lia.
  eexists _, _, _, _. split; [reflexivity|]. cbn [cols rows cell].
  repeat split; try reflexivity.
  - pose proof (Z.mod_pos_bound (widthCss isClient canvas) k ltac:(lia)).
    pose proof (Z.div_mod (widthCss isClient canvas) k ltac:(lia)). lia.
  - pose proof (Z.mod_pos_bound (heightCss isClient canvas) k ltac:(lia)).
    pose proof (Z.div_mod (heightCss isClient canvas) k ltac:(lia)). lia.
Qed.

Lemma margins W k :
  0 <= W -> 0 < k ->
  let x := (W - W / k * k) / 2 in
  x <= W - W / k * k - x <= x + 1 /\ 2 * x < k.
Proof.
  intros HW Hk. cbv zeta.
  pose proof (Z.mod_pos_bound W k Hk) as Hm.
  replace (W - W / k * k) with (W mod k) by (rewrite Z.mod_eq; lia).
  pose proof (Z.div_mod (W mod k) 2 ltac:(lia)).
  pose proof (Z.mod_pos_bound (W mod k) 2 ltac:(lia)). lia.
Qed.

Lemma grid_is_maximal_witness :
  isNaN (density defaultProps) = false /\
  exists gm c r k,
    gridRef (computeGrid true desktop fullCanvas defaultProps (mount true desktop))
      = Some gm /\
    cols gm = Int c /\ rows gm = Int r /\ cell gm = Int k /\
    widthCss true fullCanvas < (c + 1) * k /\
    heightCss true fullCanvas < (r + 1) * k.
Proof.
  split; [reflexivity|].
  apply (grid_is_maximal true desktop fullCanvas defaultProps). reflexivity.
Defined.

(** X8: for every density other than NaN the grid is centred in the canvas:
    on each axis the margin after the grid is the offset before it or one
    pixel more, and the offset is less than half a cell. *)
Theorem grid_is_centred isClient win canvas P w :
  isNaN (density P) = false ->
  exists gm c r k x y,
    gridRef (computeGrid isClient win canvas P w) = Some gm /\
    cols gm = Int c /\ rows gm = Int r /\ cell gm = Int k /\
    offsetX gm = Int x /\ offsetY gm = Int y /\
    x <= widthCss isClient canvas - c * k - x <= x + 1 /\
    y <= heightCss isClient canvas - r * k - y <= y + 1 /\
    2 * x < k /\ 2 * y < k.
Proof.
  intros Hd. destruct (cellSize_inRange isClient win P Hd) as (k & Hk & Hr).
  rewrite gridRef_computeGrid, (gridMetrics_Int _ _ canvas _ k Hk) by lia.
  pose proof (margins _ k (widthCss_nonneg isClient canvas) ltac:(lia)) as [HX HX'].
  pose proof (margins _ k (heightCss_nonneg isClient canvas) ltac:(lia)) as [HY HY'].
  eexists _, _, _, _, _, _. split; [reflexivity|].
  cbn [cols rows cell offsetX offsetY].
  repeat split; try reflexivity; lia.
Qed.

Lemma grid_is_centred_witness :
  isNaN (density defaultProps) = false /\
  exists gm c r k x y,
    gridRef (computeGrid true desktop fullCanvas defaultProps (mount true desktop))
      = Some gm /\
    cols gm = Int c /\ rows gm = Int r /\ cell gm = Int k /\
    offsetX gm = Int x /\ offsetY gm = Int y /\
    x <= widthCss true fullCanvas - c * k - x <= x + 1 /\
    y <= heightCss true fullCanvas - r * k - y <= y + 1 /\
    2 * x < k /\ 2 * y < k.
Proof.
  split; [reflexivity|].
  apply (grid_is_centred true desktop fullCanvas defaultProps). reflexivity.
Defined.

(** X6: when the [density] prop is absent, the cell is 18 pixels in a
    window narrower than 768 pixels and 20 pixels otherwise, and 20 pixels
    where there is no window. *)
Theorem default_cell_size isClient win P :
  density P = None ->
  cellSize isClient win P = Int (if isClient && isMobile win then 18 else 20).
Proof.
  intros Hd. unfold cellSize. rewrite Hd.
  destruct isClient; [destruct (isMobile win)|]; reflexivity.
Qed.

Lemma default_cell_size_witness :
  density defaultProps = None /\
  cellSize true desktop defaultProps
    = Int (if true && isMobile desktop then 18 else 20).
Proof.
  split; [reflexivity|].
  apply (default_cell_size true desktop defaultProps). reflexivity.
Defined.




End LayoutMore.

(** ** The font *)

Section FontSize.

(** X13: for every density other than NaN the font size that [applyFont]
    derives from the cell size is an integer from 12 to 18 pixels and is
    smaller than the cell. *)
Theorem font_fits_cell isClient win P :
  isNaN (density P) = false ->
  exists k px,
    cellSize isClient win P = Int k /\
    applyFont (cellSize isClient win P) = Int px /\
    12 <= px <= 18 /\ px < k.
Proof.
  intros Hd. destruct (cellSize_inRange isClient win P Hd) as (k & -> & Hk).
  exists k.
  assert (k = 16 \/ k = 17 \/ k = 18 \/ k = 19 \/ k = 20 \/ k = 21 \/ k = 22
          \/ k = 23 \/ k = 24) as Hcases by lia.
  destruct Hcases as [->|[->|[->|[->|[->|[->|[->|[->| ->]]]]]]]];
    eexists; (split; [reflexivity|]); (split; [vm_compute; reflexivity|]); lia.
Qed.

Lemma font_fits_cell_witness :
  isNaN (density defaultProps) = false /\
  exists k px,
    cellSize true desktop defaultProps = Int k /\
    applyFont (cellSize true desktop defaultProps) = Int px /\
    12 <= px <= 18 /\ px < k.
Proof.
  split; [reflexivity|].
  apply (font_fits_cell true desktop defaultProps). reflexivity.
Defined.

End FontSize.

(** ** More on the frame callback *)

Section FramesMore.

Lemma draw_painted P reduced running F w painted :
  (draw P reduced running F w).2 = Some painted ->
  exists gm base,
    running = true /\ gridRef w = Some gm /\ baseGridRef w = Some base /\
    scrambleMapRef (draw P reduced running F w).1
      = (scramble P reduced F gm w).1.1 /\
    inserted painted = (scramble P reduced F gm w).1.2 /\
    cells painted
      = render P F gm base (scramble P reduced F gm w).1.1
               (scramble P reduced F gm w).2.
Proof.
  unfold draw. destruct running; [|done]. cbn [negb].
  destruct (gridRef w) as [gm|]; [|done].
  destruct (baseGridRef w) as [base|]; [|done].
  intros H. exists gm, base.
  destruct (scramble P reduced F gm w) as [[m ids] k]. cbn [fst snd] in *.
  injection H as <-. repeat split; reflexivity.
Qed.

Lemma gridCells_row_major nR nC :
  (fun rc : nat * nat => (rc.1 * nC + rc.2)%nat)
    <$> (r ← seq 0 nR; c ← seq 0 nC; [(r, c)])
  = seq 0 (nR * nC).
Proof.
  induction nR as [|nR IH]; [done|].
  rewrite seq_S, bind_app, fmap_app, IH. cbn [mbind list_bind app Nat.add].
  rewrite app_nil_r.
  replace (S nR * nC)%nat with (nR * nC + nC)%nat by lia.
  rewrite seq_app. f_equal. cbn [Nat.add].
  replace (seq (nR * nC) nC) with (Nat.add (nR * nC) <$> seq 0 nC)
    by (rewrite fmap_add_seq; f_equal; lia).
  clear IH. induction (seq 0 nC) as [|c l IHl]; [done|].
  cbn. by rewrite <- IHl.
Qed.

(** X14: the render pass of a frame paints every cell of the grid exactly
    once, in row-major order: the indices of the cells painted are
    0, 1, ..., rows * cols - 1, in that order. *)
Theorem render_row_major P reduced running F w painted gm :
  (draw P reduced running F w).2 = Some painted ->
  gridRef w = Some gm ->
  drawnIndex <$> cells painted
    = (fun j => Int (Z.of_nat j))
        <$> seq 0 (tripCount (rows gm) * tripCount (cols gm)).
Proof.
  intros (gm' & base & _ & Hg & _ & _ & _ & ->)%draw_painted Hg'.
  rewrite Hg in Hg'. injection Hg' as ->.
  unfold render. rewrite fmap_imap.
  rewrite <- gridCells_row_major, <- list_fmap_compose.
  fold (gridCells gm).
  rewrite <- (imap_const (A := nat * nat)).
  apply imap_ext. intros j [r c] Hrc%list_elem_of_lookup_2.
  apply elem_of_gridCells in Hrc as [Hr Hc].
  unfold compose, renderCell. cbn [drawnIndex fst snd].
  destruct (cols gm) as [| |C]; cbn [tripCount] in *; try lia.
  cbn [mul add const fst snd]. f_equal.
  rewrite Nat2Z.inj_add, Nat2Z.inj_mul, Z2Nat.id by lia. reflexivity.
Qed.

Lemma render_row_major_witness :
  exists painted gm,
    (draw defaultProps false true (frameAt 133) (scrolled smallCanvas)).2
      = Some painted /\
    gridRef (scrolled smallCanvas) = Some gm /\
    drawnIndex <$> cells painted
      = (fun j => Int (Z.of_nat j))
          <$> seq 0 (tripCount (rows gm) * tripCount (cols gm)).
Proof.
  assert (exists painted,
            (draw defaultProps false true (frameAt 133) (scrolled smallCanvas)).2
              = Some painted) as [painted Hp] by (vm_compute; eauto).
  assert (exists gm, gridRef (scrolled smallCanvas) = Some gm) as [gm Hg]
    by (vm_compute; eauto).
  exists painted, gm. split; [exact Hp|]. split; [exact Hg|].
  exact (render_row_major defaultProps false true (frameAt 133)
           (scrolled smallCanvas) painted gm Hp Hg).
Defined.

(** X15: every cell a frame paints is a cell of the current grid, and the
    scramble entry it uses is the one stored under its index; an entry that
    a smaller grid has left behind under an index outside the grid is never
    painted. *)
Theorem only_grid_cells_are_drawn P reduced running F w painted gm d :
  (draw P reduced running F w).2 = Some painted ->
  gridRef w = Some gm ->
  d ∈ cells painted ->
  validIndex gm (drawnIndex d) /\
  drawnScramble d = scrambleMapRef (draw P reduced running F w).1 !! drawnIndex d.
Proof.
  intros (gm' & base & _ & Hg & _ & Hm & _ & ->)%draw_painted Hg' Hd.
  rewrite Hg in Hg'. injection Hg' as ->. rewrite Hm.
  split; [|by eapply render_scramble].
  unfold render in Hd.
  apply elem_of_lookup_imap in Hd as (j & [r c] & -> & Hrc%list_elem_of_lookup_2).
  apply elem_of_gridCells in Hrc as [Hr Hc].
  unfold renderCell, validIndex. cbn [drawnIndex].
  destruct (cols gm) as [| |C]; cbn [tripCount] in Hc; try lia.
  destruct (rows gm) as [| |R]; cbn [tripCount] in Hr; try lia.
  exists (Z.of_nat r * C + Z.of_nat c), (C * R).
  split; [reflexivity|]. split; [reflexivity|]. nia.
Qed.

Lemma only_grid_cells_are_drawn_witness :
  exists painted gm d,
    (draw defaultProps false true (frameAt 133) (scrolled smallCanvas)).2
      = Some painted /\
    gridRef (scrolled smallCanvas) = Some gm /\
    cells painted !! 3%nat = Some d /\
    validIndex gm (drawnIndex d) /\
    drawnScramble d
      = scrambleMapRef
          (draw defaultProps false true (frameAt 133) (scrolled smallCanvas)).1
          !! drawnIndex d.
Proof.
  assert (exists painted,
            (draw defaultProps false true (frameAt 133) (scrolled smallCanvas)).2
              = Some painted) as [painted Hp] by (vm_compute; eauto).
  assert (exists gm, gridRef (scrolled smallCanvas) = Some gm) as [gm Hg]
    by (vm_compute; eauto).
  assert (exists d, cells painted !! 3%nat = Some d) as [d Hd].
  { pose proof Hp as Hp'. vm_compute in Hp'. injection Hp' as <-.
    vm_compute. eauto. }
  exists painted, gm, d.
  split; [exact Hp|]. split; [exact Hg|]. split; [exact Hd|].
  exact (only_grid_cells_are_drawn defaultProps false true (frameAt 133)
           (scrolled smallCanvas) painted gm d Hp Hg
           (list_elem_of_lookup_2 _ _ _ Hd)).
Defined.

Lemma scrambleBurst_lookup totalCells glyphCount now random n : forall k m idx e,
  (scrambleBurst n totalCells glyphCount now random k m).1 !! idx = Some e ->
  m !! idx = Some e \/
  (idx ∈ (scrambleBurst n totalCells glyphCount now random k m).2 /\
   exists j j',
     glyphIndex e = Math_floor (fmul (random j) (of_Z glyphCount)) /\
     until e = fadd now (fadd (of_Z 200) (fmul (random j') (of_Z 150)))).
Proof.
  induction n as [|n IH]; intros k m idx e; cbn [scrambleBurst]; [by left|].
  match goal with |- context [scrambleBurst n _ _ _ _ ?k' ?m'] =>
    specialize (IH k' m' idx e);
    destruct (scrambleBurst n totalCells glyphCount now random k' m') as [m1 ids]
  end.
  cbn [fst snd] in *. intros H. destruct (IH H) as [H0|[H1 H2]].
  - apply lookup_insert_Some in H0 as [[<- <-]|[_ H0]]; [|by left].
    right. split; [apply list_elem_of_here|]. by eexists _, _.
  - right. split; [by apply list_elem_of_further|exact H2].
Qed.

Lemma scramble_lookup P reduced F gm w idx e :
  (scramble P reduced F gm w).1.1 !! idx = Some e ->
  fle (until e) (nowPurge F) = false /\
  (scrambleMapRef w !! idx = Some e \/
   (idx ∈ (scramble P reduced F gm w).1.2 /\
    exists j j',
      glyphIndex e
        = Math_floor (fmul (random F j)
                           (of_Z (Z.of_nat (String.length (glyphs P))))) /\
      until e = fadd (nowBurst F)
                     (fadd (of_Z 200) (fmul (random F j') (of_Z 150))))).
Proof.
  unfold scramble. destruct reduced; [done|]. cbv zeta.
  destruct (flt (lit 5 1000) _); [destruct (flt (random F 0) _)|].
  2,3: cbn [fst snd]; unfold purge;
       intros [H1 H2]%map_lookup_filter_Some; split; [exact H2|by left].
  match goal with |- context [scrambleBurst ?n ?a ?b ?c ?d ?k ?m] =>
    pose proof (scrambleBurst_lookup a b c d n k m idx e) as Hb;
    destruct (scrambleBurst n a b c d k m) as [m1 ids]
  end.
  cbn [fst snd] in *. unfold purge.
  intros [H1 H2]%map_lookup_filter_Some. split; [exact H2|]. by apply Hb.
Qed.

(** X16: after a frame that paints, every entry of the scramble set
    expires later than the time read before purging, and it is either an
    entry that was there before the frame, unchanged, or stored under an
    index the frame has inserted. *)
Theorem frame_scramble_map P reduced running F w painted idx e :
  (draw P reduced running F w).2 = Some painted ->
  scrambleMapRef (draw P reduced running F w).1 !! idx = Some e ->
  fle (until e) (nowPurge F) = false /\
  (scrambleMapRef w !! idx = Some e \/ idx ∈ inserted painted).
Proof.
  intros (gm & base & _ & _ & _ & -> & -> & _)%draw_painted H.
  apply scramble_lookup in H as [H1 [H2|[H2 _]]]; auto.
Qed.

Lemma frame_scramble_map_witness :
  exists painted e,
    (draw defaultProps false true (frameAt 133) (scrolled smallCanvas)).2
      = Some painted /\
    scrambleMapRef
      (draw defaultProps false true (frameAt 133) (scrolled smallCanvas)).1
      !! Int 3 = Some e /\
    fle (until e) (nowPurge (frameAt 133)) = false /\
    (scrambleMapRef (scrolled smallCanvas) !! Int 3 = Some e \/
     Int 3 ∈ inserted painted).
Proof.
  assert (exists painted,
            (draw defaultProps false true (frameAt 133) (scrolled smallCanvas)).2
              = Some painted) as [painted Hp] by (vm_compute; eauto).
  assert (exists e,
            scrambleMapRef
              (draw defaultProps false true (frameAt 133)
                    (scrolled smallCanvas)).1 !! Int 3 = Some e) as [e He]
    by (vm_compute; eauto).
  exists painted, e. split; [exact Hp|]. split; [exact He|].
  exact (frame_scramble_map defaultProps false true (frameAt 133)
           (scrolled smallCanvas) painted (Int 3) e Hp He).
Defined.

Lemma samplesDrawn_filter es :
  samplesDrawn (List.filter isRecompute es) = samplesDrawn es.
Proof.
  induction es as [|e es IH]; [done|].
  cbn [List.filter samplesDrawn fold_right]. fold (samplesDrawn es).
  destruct e; cbn [isRecompute samples samplesDrawn fold_right Nat.add];
    fold (samplesDrawn (List.filter isRecompute es)); by rewrite IH.
Qed.

(** X12: scroll events, pointer events and frames never call the seeded
    generator: after any sequence of events its state, and so the buffer
    the next grid computation fills, are those that the grid computations
    of the sequence alone lead to. *)
Theorem base_buffer_ignores_other_events isClient win canvas P es w :
  randState (run es w) = randState (run (List.filter isRecompute es) w) /\
  baseGridRef (computeGrid isClient win canvas P (run es w))
    = baseGridRef (computeGrid isClient win canvas P
                     (run (List.filter isRecompute es) w)).
Proof.
  assert (randState (run es w) = randState (run (List.filter isRecompute es) w))
    as Hs by (by rewrite !randState_run, samplesDrawn_filter).
  split; [exact Hs|]. by rewrite !baseGridRef_computeGrid, Hs.
Qed.






(** X10: a grid computation with a density of NaN stores an empty buffer and
    calls the generator not at all, and a frame drawn on that grid inserts
    no scramble entry and paints no cell. *)
Theorem nan_density_draws_nothing isClient win canvas P w P' reduced F painted :
  isNaN (density P) = true ->
  (draw P' reduced true F (computeGrid isClient win canvas P w)).2 = Some painted ->
  baseGridRef (computeGrid isClient win canvas P w) = Some [] /\
  randState (computeGrid isClient win canvas P w) = randState w /\
  inserted painted = [] /\ cells painted = [].
Proof.
  intros Hd Hp.
  pose proof (gridMetrics_NaN isClient win canvas P Hd) as Hgm.
  assert (baseGridRef (computeGrid isClient win canvas P w) = Some []) as Hb
    by (by rewrite baseGridRef_computeGrid, Hgm).
  split; [exact Hb|].
  split; [by rewrite randState_computeGrid, Hgm|].
  apply draw_painted in Hp as (gm & base & _ & Hg & _ & _ & -> & ->).
  rewrite gridRef_computeGrid, Hgm in Hg. injection Hg as <-.
  split.
  - unfold scramble. destruct reduced; [done|]. cbv zeta.
    destruct (flt (lit 5 1000) _); [|done].
    destruct (flt (random F 0) _); [|done]. reflexivity.
  - reflexivity.
Qed.

Lemma nan_density_draws_nothing_witness :
  exists painted,
    isNaN (density (withDensity S754_nan)) = true /\
    (draw defaultProps false true (frameAt 133)
          (computeGrid true desktop smallCanvas (withDensity S754_nan)
                       (scrolled smallCanvas))).2 = Some painted /\
    baseGridRef (computeGrid true desktop smallCanvas (withDensity S754_nan)
                             (scrolled smallCanvas)) = Some [] /\
    randState (computeGrid true desktop smallCanvas (withDensity S754_nan)
                           (scrolled smallCanvas))
      = randState (scrolled smallCanvas) /\
    inserted painted = [] /\ cells painted = [].
Proof.
  assert (exists painted,
            (draw defaultProps false true (frameAt 133)
                  (computeGrid true desktop smallCanvas (withDensity S754_nan)
                               (scrolled smallCanvas))).2 = Some painted)
    as [painted Hp] by (vm_compute; eauto).
  exists painted. split; [reflexivity|]. split; [exact Hp|].
  exact (nan_density_draws_nothing true desktop smallCanvas
           (withDensity S754_nan) (scrolled smallCanvas) defaultProps false
           (frameAt 133) painted eq_refl Hp).
Defined.

Lemma fillBase_empty_alphabet n : forall g,
  Forall (fun e => e = 0) (fst (fillBase n 0 g)).
Proof.
  induction n as [|n IH]; intros g; cbn [fillBase]; [constructor|].
  destruct (rand g) as [x g1]. specialize (IH g1).
  destruct (fillBase n 0 g1) as [rest g2]. cbn [fst] in *.
  constructor; [|exact IH]. unfold floor_times. by rewrite Z.mul_0_r.
Qed.

(** X11: with an empty alphabet every entry of the buffer is 0 and no cell
    of any frame gets a glyph: the lookup yields [undefined] for base and
    scrambled cells alike. *)
Theorem empty_alphabet isClient win canvas P w :
  glyphs P = ""%string ->
  (forall buf, baseGridRef (computeGrid isClient win canvas P w) = Some buf ->
     Forall (fun e => e = 0) buf) /\
  (forall w' reduced running F painted d,
     (draw P reduced running F w').2 = Some painted ->
     d ∈ cells painted -> drawnGlyph d = None).
Proof.
  intros Hg. split.
  - intros buf. rewrite baseGridRef_computeGrid, Hg. cbv zeta.
    intros [= <-]. apply fillBase_empty_alphabet.
  - intros w' reduced running F painted d
      (gm & base & _ & _ & _ & _ & _ & ->)%draw_painted.
    unfold render.
    intros (j & [r c] & -> & _)%elem_of_lookup_imap.
    unfold renderCell. cbn [drawnGlyph]. rewrite Hg.
    destruct (match _ !! _ with Some sc => _ | None => _ end) as [[| |z]|];
      try done.
    cbn. by destruct (0 <=? z).
Qed.

Lemma empty_alphabet_witness :
  glyphs (withGlyphs "") = ""%string /\
  (forall buf,
     baseGridRef (computeGrid true desktop smallCanvas (withGlyphs "")
                              (mount true desktop)) = Some buf ->
     Forall (fun e => e = 0) buf) /\
  (forall w' reduced running F painted d,
     (draw (withGlyphs "") reduced running F w').2 = Some painted ->
     d ∈ cells painted -> drawnGlyph d = None).
Proof.
  split; [reflexivity|].
  apply (empty_alphabet true desktop smallCanvas (withGlyphs "")
           (mount true desktop)).
  reflexivity.
Defined.

Lemma binary_normalize_not_nan m e s :
  binary_normalize prec emax m e s <> S754_nan.
Proof.
  unfold binary_normalize. destruct m as [|p|p]; [done| |];
    unfold binary_round; destruct (shl_align _ _ _);
    apply binary_round_aux_not_nan; lia.
Qed.

Lemma fsub_finite_not_nan a b :
  is_finite a = true -> is_finite b = true -> fsub a b <> S754_nan.
Proof.
  destruct a as [sa|sa| |sa ma ea], b as [sb|sb| |sb mb eb]; try done.
  - intros _ _. by destruct sa, sb.
  - intros _ _. apply binary_normalize_not_nan.
Qed.

Lemma is_zero_fsub a b :
  is_zero a = true -> is_zero b = true -> is_zero (fsub a b) = true.
Proof.
  destruct a as [sa|sa| |sa ma ea], b as [sb|sb| |sb mb eb]; try done.
  intros _ _. by destruct sa, sb.
Qed.

Lemma is_zero_fadd a b :
  is_zero a = true -> is_zero b = true -> is_zero (fadd a b) = true.
Proof.
  destruct a as [sa|sa| |sa ma ea], b as [sb|sb| |sb mb eb]; try done.
  intros _ _. by destruct sa, sb.
Qed.

Lemma is_zero_fmul a b :
  is_zero a = true -> is_finite b = true -> is_zero (fmul a b) = true.
Proof.
  destruct a as [sa|sa| |sa ma ea], b as [sb|sb| |sb mb eb]; done.
Qed.

(** Smoothing a zero towards a zero gives a zero. *)
Lemma is_zero_lerp a b c :
  is_zero a = true -> is_zero b = true -> is_finite c = true ->
  is_zero (lerp a b c) = true.
Proof.
  intros Ha Hb Hc. unfold lerp.
  apply is_zero_fadd; [exact Ha|]. apply is_zero_fmul; [|exact Hc].
  by apply is_zero_fsub.
Qed.

(** [Math.max(1, dt)] of a truthy [dt] is a divisor that is neither zero
    nor [NaN]. *)
Lemma is_zero_quotient dy dt :
  is_zero dy = true -> truthy dt = true ->
  is_zero (fdiv (SFabs dy) (Math_max (of_Z 1) dt)) = true.
Proof.
  destruct dy as [sy|sy| |sy my ey]; try done. intros _ Hdt.
  change (of_Z 1) with (S754_finite false 4503599627370496 (-52)).
  cbn [Math_max float_MinMax float_max].
  destruct dt as [s|[]| |s m e]; try done.
  unfold float_max.
  destruct (SFcompare _ (S754_finite s m e)) as [[]|] eqn:E; done.
Qed.

Lemma purge_empty now : purge now ∅ = ∅.
Proof. unfold purge. by rewrite map_filter_empty. Qed.

(** A frame on a page without scroll velocity inserts nothing and reads
    [Math.random()] for no gate, whatever the props are. *)
Lemma scramble_no_velocity P reduced F gm w :
  is_zero (velocityRef w) = true ->
  (scramble P reduced F gm w).1.2 = [] /\
  (scrambleMapRef w = ∅ -> (scramble P reduced F gm w).1.1 = ∅).
Proof.
  intros Hv. unfold scramble. destruct reduced; [done|]. cbv zeta.
  destruct (velocityRef w) as [sv|sv| |sv mv ev]; try done.
  set (cap := clamp _ zero (lit 22 100)).
  assert (cap = zero) as -> by (unfold cap; by destruct sv).
  set (freq := effectiveScrambleBase _ _).
  assert (flt (lit 5 1000) (clamp (fmul freq zero) zero (lit 16 100)) = false)
    as ->.
  { destruct freq as [s|s| |s m e]; try done; by destruct s. }
  cbn [fst snd]. split; [done|]. intros ->. apply purge_empty.
Qed.

Lemma resting_mount isClient win : resting (mount isClient win).
Proof. done. Qed.

Lemma resting_step e w : atRest e = true -> resting w -> resting (step e w).
Proof.
  intros He (Hv & Hy & Ht & Hm).
  destruct e as [win canvas P|now win|win x y|P reduced running F]; cbn [step].
  - unfold computeGrid. by destruct (fillBase _ _ _).
  - cbn [atRest] in He.
    apply andb_true_iff in He as [[H1 H2]%andb_true_iff Hnow].
    apply negb_true_iff in H1, H2.
    assert (or_else (or_else (scrollY win) (pageYOffset win)) zero = zero) as Hy0
      by (unfold or_else; rewrite H1, H2; reflexivity).
    unfold onScroll, resting.
    cbn [velocityRef lastScrollRef scrambleMapRef fst snd].
    rewrite Hy0. split; [|done].
    apply is_zero_lerp; [exact Hv| |done].
    apply is_zero_quotient.
    + assert (is_zero (fsub zero (lastScrollRef w).1) = true) as Hz
        by (by apply is_zero_fsub).
      unfold or_else. by destruct (fsub zero _).
    + pose proof (fsub_finite_not_nan now (lastScrollRef w).2 Hnow Ht) as Hn.
      unfold or_else. by destruct (fsub now _).
  - unfold onMouseMove. by destruct (_ <? _).
  - destruct (draw P reduced running F w).2 as [painted|] eqn:Hp.
    + pose proof Hp as (gm & base & -> & Hg & Hb & Hmap & _)%draw_painted.
      destruct (scramble_no_velocity P reduced F gm w Hv) as [_ Hs].
      unfold resting. rewrite Hmap, (Hs Hm).
      unfold draw. cbn [negb]. rewrite Hg, Hb.
      by destruct (scramble P reduced F gm w) as [[m ids] k].
    + revert Hp. unfold draw. destruct running; [|done]. cbn [negb].
      destruct (gridRef w) as [gm|]; [|done].
      destruct (baseGridRef w) as [base|]; [|done].
      by destruct (scramble P reduced F gm w) as [[m ids] k].
Qed.

Lemma resting_run es : forall w,
  forallb atRest es = true -> resting w -> resting (run es w).
Proof.
  induction es as [|e es IH]; intros w Hes Hw; [exact Hw|].
  cbn [forallb] in Hes. apply andb_true_iff in Hes as [He Hes].
  apply (IH (step e w) Hes). by apply resting_step.
Qed.

(** X18: as long as every scroll event finds the page at scroll position 0,
    the scroll velocity stays zero, so no frame inserts a scramble entry and
    no cell is painted scrambled, whatever the props are, a
    [scrambleFrequency] of NaN or infinity included. *)
Theorem page_at_rest_never_scrambles win es P reduced running F :
  forallb atRest es = true ->
  scrambleMapRef (draw P reduced running F (run es (mount true win))).1 = ∅ /\
  forall painted,
    (draw P reduced running F (run es (mount true win))).2 = Some painted ->
    inserted painted = [] /\
    Forall (fun d => drawnScramble d = None) (cells painted).
Proof.
  intros Hes.
  pose proof (resting_run es _ Hes (resting_mount true win)) as Hw.
  pose proof (resting_step (Animated P reduced running F) _ eq_refl Hw)
    as (_ & _ & _ & Hmap).
  cbn [step] in Hmap. split; [exact Hmap|].
  intros painted Hp.
  pose proof Hp as (gm & base & _ & _ & _ & Hm & -> & Hc)%draw_painted.
  destruct Hw as (Hv & _). 
  split; [by apply scramble_no_velocity|].
  apply Forall_forall. intros d Hd. rewrite Hc in Hd.
  rewrite (render_scramble _ _ _ _ _ _ _ Hd), <- Hm, Hmap. apply lookup_empty.
Qed.

Lemma page_at_rest_never_scrambles_witness :
  forallb atRest (unscrolled smallCanvas) = true /\
  scrambleMapRef
    (draw defaultProps false true (frameAt 133)
          (run (unscrolled smallCanvas) (mount true desktop))).1 = ∅ /\
  forall painted,
    (draw defaultProps false true (frameAt 133)
          (run (unscrolled smallCanvas) (mount true desktop))).2 = Some painted ->
    inserted painted = [] /\
    Forall (fun d => drawnScramble d = None) (cells painted).
Proof.
  split; [reflexivity|].
  apply (page_at_rest_never_scrambles desktop (unscrolled smallCanvas)
           defaultProps false true (frameAt 133)).
  reflexivity.
Defined.

Lemma draw_translate P reduced running F w painted gm :
  (draw P reduced running F w).2 = Some painted ->
  gridRef w = Some gm ->
  translateX painted
    = fadd (to_float (offsetX gm))
           (if reduced then zero else (mouseOffsetRef w).1) /\
  translateY painted
    = fadd (fadd (to_float (offsetY gm))
                 (scrollSmoothedRef (draw P reduced running F w).1))
           (if reduced then zero else (mouseOffsetRef w).2).
Proof.
  unfold draw. destruct running; [|done]. cbn [negb].
  intros H Hg. rewrite Hg in *.
  destruct (baseGridRef w) as [base|]; [|done].
  destruct (scramble P reduced F gm w) as [[m ids] k]. cbn [fst snd] in *.
  injection H as <-. by split.
Qed.

Lemma binary_round_aux_sign s m e l :
  binary_round_aux prec emax s m e l <> S754_zero (negb s).
Proof.
  unfold binary_round_aux.
  destruct (shr_fexp prec emax m e l) as [mrs' e'].
  destruct (shr_fexp prec emax _ e' loc_Exact) as [mrs'' e''].
  destruct (shr_m mrs'') as [|p|p]; [by destruct s| |done].
  by destruct (e'' <=? emax - prec).
Qed.

Lemma of_Z_nonneg x : 0 <= x -> of_Z x <> S754_zero true.
Proof.
  intros Hx. unfold of_Z, binary_normalize. destruct x as [|p|p]; [done| |lia].
  unfold binary_round. destruct (shl_align _ _ _).
  apply (binary_round_aux_sign false).
Qed.

Lemma fadd_zero_r x s : x <> S754_zero true -> fadd x (S754_zero s) = x.
Proof. destruct x as [[]|[]| |sx mx ex], s; done. Qed.

(** The centring offsets of a laid-out grid are not [-0]. *)
Lemma offsets_not_negative_zero isClient win canvas P :
  to_float (offsetX (gridMetrics isClient win canvas P)) <> S754_zero true /\
  to_float (offsetY (gridMetrics isClient win canvas P)) <> S754_zero true.
Proof.
  destruct (isNaN (density P)) eqn:Hd.
  - by rewrite gridMetrics_NaN.
  - destruct (cellSize_inRange isClient win P Hd) as (k & Hk & Hr).
    rewrite (gridMetrics_Int _ _ canvas _ k Hk) by lia.
    cbn [offsetX offsetY to_float].
    split; apply of_Z_nonneg, half_remainder;
      auto using widthCss_nonneg, heightCss_nonneg; lia.
Qed.

Lemma still_mount win : still (mount true win).
Proof. split; [done|]. split; [done|]. by intros gm. Qed.

Lemma still_step e w : reducedRun e = true -> still w -> still (step e w).
Proof.
  intros [Ht He]%andb_true_iff (Hs & Hf & Hg).
  destruct e as [win canvas P|now win|win x y|P reduced running F]; cbn [step].
  - unfold still. rewrite gridRef_computeGrid.
    unfold computeGrid. destruct (fillBase _ _ _).
    cbn [scrollSmoothedRef scrollTargetRef].
    split; [exact Hs|]. split; [exact Hf|].
    intros gm [= <-]. by eexists _, _, _.
  - split; [exact Hs|]. split; [|exact Hg].
    cbn [onScroll scrollTargetRef].
    apply andb_true_iff in Ht as [H1 H2].
    repeat apply is_finite_or_else; done.
  - unfold onMouseMove. destruct (_ <? _); by repeat split.
  - subst reduced.
    destruct (draw_refs P true running F w) as (Eg & _ & Es).
    unfold still. rewrite Eg, Es. split; [|by split].
    unfold draw. destruct running; [|exact Hs]. cbn [negb].
    destruct (gridRef w) as [gm|]; [|exact Hs].
    destruct (baseGridRef w) as [base|]; [|exact Hs].
    cbn [scramble scrollSmoothedRef].
    apply is_zero_lerp; [exact Hs| |done].
    by apply parallaxTarget_reduced.
Qed.

Lemma still_run es : forall w,
  forallb reducedRun es = true -> still w -> still (run es w).
Proof.
  induction es as [|e es IH]; intros w Hes Hw; [exact Hw|].
  cbn [forallb] in Hes. apply andb_true_iff in Hes as [He Hes].
  apply (IH (step e w) Hes). by apply still_step.
Qed.

(** X19: when reduced motion has been active in every frame since the
    mount, the smoothed parallax offset is still zero after the next frame
    and the grid is painted translated by exactly its centring offsets:
    neither the scroll position nor the pointer moves it. *)
Theorem reduced_motion_translation win es P F painted gm :
  forallb reducedRun es = true ->
  (draw P true true F (run es (mount true win))).2 = Some painted ->
  gridRef (run es (mount true win)) = Some gm ->
  is_zero (scrollSmoothedRef (draw P true true F (run es (mount true win))).1)
    = true /\
  translateX painted = to_float (offsetX gm) /\
  translateY painted = to_float (offsetY gm).
Proof.
  intros Hes Hp Hg.
  pose proof (still_run es _ Hes (still_mount win)) as Hw.
  pose proof (still_step (Animated P true true F) _ eq_refl Hw) as (Hs & _ & _).
  cbn [step] in Hs. split; [exact Hs|].
  destruct Hw as (_ & _ & Hlaid).
  destruct (Hlaid gm Hg) as (win' & canvas & P' & ->).
  destruct (offsets_not_negative_zero true win' canvas P') as [HX HY].
  destruct (draw_translate _ _ _ _ _ _ _ Hp Hg) as [-> ->].
  unfold zero. split; [exact (fadd_zero_r _ false HX)|].
  destruct (scrollSmoothedRef (draw P true true F _).1) as [s| | |]; try done.
  rewrite (fadd_zero_r _ s HY). exact (fadd_zero_r _ false HY).
Qed.

Lemma reduced_motion_translation_witness :
  exists painted gm,
    forallb reducedRun (reducedScrolling smallCanvas) = true /\
    (draw defaultProps true true (frameAt 150)
          (run (reducedScrolling smallCanvas) (mount true desktop))).2
      = Some painted /\
    gridRef (run (reducedScrolling smallCanvas) (mount true desktop)) = Some gm /\
    is_zero (scrollSmoothedRef
               (draw defaultProps true true (frameAt 150)
                     (run (reducedScrolling smallCanvas) (mount true desktop))).1)
      = true /\
    translateX painted = to_float (offsetX gm) /\
    translateY painted = to_float (offsetY gm).
Proof.
  assert (exists painted,
            (draw defaultProps true true (frameAt 150)
                  (run (reducedScrolling smallCanvas) (mount true desktop))).2
              = Some painted) as [painted Hp] by (vm_compute; eauto).
  assert (exists gm,
            gridRef (run (reducedScrolling smallCanvas) (mount true desktop))
              = Some gm) as [gm Hg] by (vm_compute; eauto).
  exists painted, gm. split; [reflexivity|]. split; [exact Hp|].
  split; [exact Hg|].
  exact (reduced_motion_translation desktop (reducedScrolling smallCanvas)
           defaultProps (frameAt 150) painted gm eq_refl Hp Hg).
Defined.

End FramesMore.

(** ** The pointer offset *)

Section Pointer.

Lemma fexp_ge_emin x : emin prec emax <= fexp prec emax x.
Proof. unfold fexp. lia. Qed.

Lemma fexp_mono x y : x <= y -> fexp prec emax x <= fexp prec emax y.
Proof. unfold fexp. lia. Qed.

Lemma fexp_succ x :
  fexp prec emax (x + 1) = fexp prec emax x + 1 \/
  (fexp prec emax (x + 1) = fexp prec emax x /\
   fexp prec emax x = emin prec emax).
Proof. unfold fexp. lia. Qed.

Lemma Zdigits2_nonneg m : 0 <= Zdigits2 m.
Proof. destruct m; simpl; lia. Qed.

Lemma Zdigits2_bounds m :
  0 < m -> 2 ^ (Zdigits2 m - 1) <= m < 2 ^ Zdigits2 m.
Proof. destruct m as [|p|p]; try lia. intros _. apply digits2_pos_bounds. Qed.

Lemma Zdigits2_unique m n :
  0 < m -> 2 ^ (n - 1) <= m < 2 ^ n -> Zdigits2 m = n.
Proof.
  intros Hm [Hlo Hhi]. destruct m as [|p|p]; try lia. cbn [Zdigits2].
  assert (0 < n) as Hn.
  { destruct (Z.lt_trichotomy n 0) as [H|[->|H]]; [|simpl in Hhi; lia|done].
    rewrite Z.pow_neg_r in Hhi by lia. lia. }
  pose proof (digits2_pos_le p n ltac:(lia) Hhi) as Hle.
  pose proof (digits2_pos_bounds p) as [_ Hhi'].
  destruct (Z.eq_dec (Z.pos (digits2_pos p)) n) as [|Hne]; [done|].
  assert (2 ^ Z.pos (digits2_pos p) <= 2 ^ (n - 1))
    by (apply Z.pow_le_mono_r; lia).
  lia.
Qed.

Lemma Zdigits2_mono a b : 0 <= a <= b -> Zdigits2 a <= Zdigits2 b.
Proof.
  intros [Ha Hab]. destruct a as [|p|p]; [apply Zdigits2_nonneg| |lia].
  destruct b as [|q|q]; try lia. cbn [Zdigits2].
  pose proof (digits2_pos_bounds q) as [_ Hq].
  apply digits2_pos_le; lia.
Qed.

Lemma Zdigits2_div m n :
  0 <= n -> 0 < m / 2 ^ n -> Zdigits2 (m / 2 ^ n) = Zdigits2 m - n.
Proof.
  intros Hn Hq.
  assert (0 < 2 ^ n) as Hp by (apply Z.pow_pos_nonneg; lia).
  assert (0 < m) as Hm.
  { destruct (Z.lt_trichotomy m 0) as [H|[->|H]]; [|by rewrite Z.div_0_l in Hq; lia|done].
    assert (m / 2 ^ n < 0) by (apply Z.div_lt_upper_bound; lia). lia. }
  pose proof (Zdigits2_bounds m Hm) as [Hlo Hhi].
  assert (2 ^ n <= m) as Hge.
  { destruct (Z.le_gt_cases (2 ^ n) m); [done|].
    rewrite Z.div_small in Hq by lia. lia. }
  assert (n < Zdigits2 m) as Hlt.
  { destruct (Z.lt_ge_cases n (Zdigits2 m)); [done|].
    assert (2 ^ Zdigits2 m <= 2 ^ n)
      by (apply Z.pow_le_mono_r; [lia|lia]). lia. }
  apply Zdigits2_unique; [done|]. split.
  - apply Z.div_le_lower_bound; [lia|].
    rewrite <- Z.pow_add_r by lia.
    replace (n + (Zdigits2 m - n - 1)) with (Zdigits2 m - 1) by lia. exact Hlo.
  - apply Z.div_lt_upper_bound; [lia|].
    rewrite <- Z.pow_add_r by lia.
    replace (n + (Zdigits2 m - n)) with (Zdigits2 m) by lia. exact Hhi.
Qed.

Lemma shr_m_iter n : forall mrs,
  0 <= shr_m mrs ->
  shr_m (Nat.iter n shr_1 mrs) = shr_m mrs / 2 ^ Z.of_nat n.
Proof.
  induction n as [|n IH]; intros mrs Hm.
  - simpl. by rewrite Z.div_1_r.
  - rewrite Nat.iter_succ.
    specialize (IH mrs Hm).
    assert (0 < 2 ^ Z.of_nat n) as Hp by (apply Z.pow_pos_nonneg; lia).
    destruct (Nat.iter n shr_1 mrs) as [m r s]. cbn [shr_m] in IH.
    assert (0 <= m) as Hm' by (subst m; apply Z.div_pos; lia).
    destruct (shr_1_spec m r s Hm') as [-> _]. subst m.
    rewrite Z.div_div by lia.
    replace (Z.of_nat (S n)) with (Z.of_nat n + 1) by lia.
    by rewrite Z.pow_add_r, Z.pow_1_r by lia.
Qed.

Lemma shr_fexp_spec m e l :
  0 <= m -> e <= fexp prec emax (Zdigits2 m + e) ->
  shr_m (fst (shr_fexp prec emax m e l))
    = m / 2 ^ (fexp prec emax (Zdigits2 m + e) - e) /\
  snd (shr_fexp prec emax m e l) = fexp prec emax (Zdigits2 m + e).
Proof.
  intros Hm He. unfold shr_fexp, shr.
  assert (shr_m (shr_record_of_loc m l) = m) as Hrec by (by destruct l as [|[]]).
  destruct (fexp prec emax (Zdigits2 m + e) - e) as [|p|p] eqn:E; [| |lia].
  - cbn [fst snd]. rewrite Hrec, Z.div_1_r. split; [done|lia].
  - cbn [fst snd]. rewrite iter_pos_nat, shr_m_iter by (rewrite Hrec; lia).
    rewrite Hrec, positive_nat_Z. split; [done|lia].
Qed.

Lemma round_nearest_even_cases m l :
  round_nearest_even m l = m \/ round_nearest_even m l = m + 1.
Proof. destruct l as [|[]]; simpl; auto. destruct (Z.even m); auto. Qed.

(** Rounding a mantissa that is long enough for its exponent gives a
    canonical number. *)
Lemma binary_round_aux_canonical s mx ex lx :
  0 <= mx -> ex <= fexp prec emax (Zdigits2 mx + ex) ->
  canonical (binary_round_aux prec emax s mx ex lx).
Proof.
  intros Hmx Hex. unfold binary_round_aux.
  destruct (shr_fexp_spec mx ex lx Hmx Hex) as [Hm1 He1].
  destruct (shr_fexp prec emax mx ex lx) as [mrs' e']. cbn [fst snd] in Hm1, He1.
  set (n1 := fexp prec emax (Zdigits2 mx + ex) - ex) in *.
  assert (0 <= n1) as Hn1 by (unfold n1; lia).
  assert (0 < 2 ^ n1) as Hp1 by (apply Z.pow_pos_nonneg; lia).
  assert (0 <= shr_m mrs') as Hm1' by (rewrite Hm1; apply Z.div_pos; lia).
  set (m2 := round_nearest_even (shr_m mrs') (loc_of_shr_record mrs')).
  assert (shr_m mrs' <= m2) as Hm2
    by (destruct (round_nearest_even_cases (shr_m mrs') (loc_of_shr_record mrs'));
        unfold m2; lia).
  assert (e' <= fexp prec emax (Zdigits2 m2 + e')) as He2.
  { destruct (Z.eq_dec (shr_m mrs') 0) as [Hz|Hnz].
    - assert (e' = emin prec emax) as ->; [|apply fexp_ge_emin].
      rewrite Hz in Hm1. symmetry in Hm1.
      apply Z.div_small_iff in Hm1 as [Hsm|Hsm]; [|lia|lia].
      assert (Zdigits2 mx <= n1) as Hd.
      { destruct mx as [|p|p]; [simpl; lia| |lia].
        apply digits2_pos_le; lia. }
      revert Hd He1 Hex. unfold n1, fexp, emin, prec, emax. lia.
    - assert (Zdigits2 (shr_m mrs') + e' = Zdigits2 mx + ex) as Hd.
      { rewrite Hm1, Zdigits2_div by (rewrite <- ?Hm1; lia). unfold n1. lia. }
      assert (fexp prec emax (Zdigits2 (shr_m mrs') + e') = e') as Hc
        by (rewrite Hd; lia).
      rewrite <- Hc at 1. apply fexp_mono.
      pose proof (Zdigits2_mono (shr_m mrs') m2 ltac:(lia)). lia. }
  destruct (shr_fexp_spec m2 e' loc_Exact ltac:(lia) He2) as [Hm3 He3].
  destruct (shr_fexp prec emax m2 e' loc_Exact) as [mrs'' e''].
  cbn [fst snd] in Hm3, He3.
  destruct (shr_m mrs'') as [|p|p] eqn:E3; [done| |done].
  destruct (e'' <=? emax - prec); [|done].
  cbn [canonical].
  change (Z.pos (digits2_pos p)) with (Zdigits2 (Z.pos p)).
  rewrite Hm3, Zdigits2_div by (rewrite <- ?Hm3; lia).
  replace (Zdigits2 m2 - (fexp prec emax (Zdigits2 m2 + e') - e') + e'')
    with (Zdigits2 m2 + e') by lia.
  by symmetry.
Qed.

Lemma SFdiv_core_binary_shift m1 e1 m2 e2 :
  0 <= (SFdiv_core_binary prec emax (Z.pos m1) e1 (Z.pos m2) e2).1.1 /\
  (SFdiv_core_binary prec emax (Z.pos m1) e1 (Z.pos m2) e2).1.2
    <= fexp prec emax
         (Zdigits2 (SFdiv_core_binary prec emax (Z.pos m1) e1 (Z.pos m2) e2).1.1
          + (SFdiv_core_binary prec emax (Z.pos m1) e1 (Z.pos m2) e2).1.2).
Proof.
  unfold SFdiv_core_binary.
  set (d1 := Zdigits2 (Z.pos m1)). set (d2 := Zdigits2 (Z.pos m2)).
  set (X := d1 + e1 - (d2 + e2)).
  set (e' := Z.min (fexp prec emax X) (e1 - e2)).
  set (sh := e1 - e2 - e').
  assert (0 <= sh) as Hsh by (unfold sh, e'; lia).
  set (m' := match sh with Z.pos _ => Z.shiftl (Z.pos m1) sh | 0 => Z.pos m1
                         | Z.neg _ => 0 end).
  assert (m' = Z.pos m1 * 2 ^ sh) as Hm'.
  { unfold m'. destruct sh as [|p|p]; [simpl; lia| |lia].
    by rewrite Z.shiftl_mul_pow2. }
  assert (0 < 2 ^ sh) as Hp by (apply Z.pow_pos_nonneg; lia).
  pose proof (Z_div_mod m' (Z.pos m2) ltac:(lia)) as Hdm.
  destruct (Z.div_eucl m' (Z.pos m2)) as [q r]. cbn [fst snd].
  destruct Hdm as [Hq Hr].
  assert (q = m' / Z.pos m2) as Hqd
    by (apply (Z.div_unique_pos _ _ _ r); lia).
  assert (0 <= q) as Hq0 by (rewrite Hqd; apply Z.div_pos; lia).
  split; [exact Hq0|].
  pose proof (Zdigits2_bounds (Z.pos m1) ltac:(lia)) as [Hlo1 _].
  pose proof (Zdigits2_bounds (Z.pos m2) ltac:(lia)) as [_ Hhi2].
  fold d1 in Hlo1. fold d2 in Hhi2.
  assert (1 <= d1) as Hd1 by (unfold d1; simpl; lia).
  assert (1 <= d2) as Hd2 by (unfold d2; simpl; lia).
  destruct (Z.le_gt_cases 0 (d1 - 1 + sh - d2)) as [Hk|Hk].
  - assert (2 ^ (d1 - 1 + sh - d2) <= q) as Hge.
    { rewrite Hqd. apply Z.div_le_lower_bound; [lia|].
      assert (0 < 2 ^ (d1 - 1 + sh - d2)) by (apply Z.pow_pos_nonneg; lia).
      assert (2 ^ (d1 - 1 + sh - d2) * 2 ^ d2 = 2 ^ (d1 - 1) * 2 ^ sh) as Hpow.
      { rewrite <- !Z.pow_add_r by lia. f_equal. lia. }
      nia. }
    assert (d1 + sh - d2 <= Zdigits2 q) as Hdq.
    { assert (0 < q) as Hqpos.
      { assert (0 < 2 ^ (d1 - 1 + sh - d2)) by (apply Z.pow_pos_nonneg; lia).
        lia. }
      pose proof (Zdigits2_bounds q Hqpos) as [_ Hhi].
      destruct (Z.le_gt_cases (d1 + sh - d2) (Zdigits2 q)); [done|].
      assert (2 ^ Zdigits2 q <= 2 ^ (d1 - 1 + sh - d2))
        by (apply Z.pow_le_mono_r; [lia|lia]).
      lia. }
    transitivity (fexp prec emax X); [unfold e'; lia|].
    apply fexp_mono. unfold X, sh in *. lia.
  - transitivity (emin prec emax); [|apply fexp_ge_emin].
    unfold e', X, sh, fexp, emin, prec, emax in *. lia.
Qed.

(** Every quotient is canonical. *)
Lemma fdiv_canonical a b : canonical (fdiv a b).
Proof.
  destruct a as [sa|sa| |sa ma ea], b as [sb|sb| |sb mb eb]; try done.
  unfold fdiv. cbn [SFdiv].
  pose proof (SFdiv_core_binary_shift ma ea mb eb) as [H1 H2].
  destruct (SFdiv_core_binary prec emax (Z.pos ma) ea (Z.pos mb) eb)
    as [[q e'] l].
  cbn [fst snd] in H1, H2. by apply binary_round_aux_canonical.
Qed.

(** A mantissa that ends in [j] zero bits which the format asks to drop is
    shifted without rounding. *)
Lemma binary_round_aux_trailing s M p j ex :
  Z.pos M = Z.pos p * 2 ^ j -> 0 < j ->
  fexp prec emax (Z.pos (digits2_pos p) + j + ex) = ex + j ->
  ex + j <= emax - prec ->
  binary_round_aux prec emax s (Z.pos M) ex loc_Exact = S754_finite s p (ex + j).
Proof.
  intros HM Hj Hf He.
  assert (0 < 2 ^ j) as Hp by (apply Z.pow_pos_nonneg; lia).
  assert (Zdigits2 (Z.pos M) = Z.pos (digits2_pos p) + j) as Hd.
  { pose proof (digits2_pos_bounds p) as [Hlo Hhi].
    apply Zdigits2_unique; [lia|]. rewrite HM.
    replace (Z.pos (digits2_pos p) + j - 1)
      with (Z.pos (digits2_pos p) - 1 + j) by lia.
    rewrite !Z.pow_add_r by lia. nia. }
  unfold binary_round_aux, shr_fexp. rewrite Hd, Hf.
  replace (ex + j - ex) with j by lia.
  destruct (shr_shifted (Z.pos M) ex j ltac:(lia)) as [[Hm Hr] He'].
  destruct (shr (shr_record_of_loc (Z.pos M) loc_Exact) ex j) as [mrs' e'].
  cbn [fst snd] in Hm, Hr, He'.
  unfold bits in *. rewrite Z.max_r in * by lia.
  rewrite HM, Z.div_mul in Hm by lia.
  rewrite HM, Z.mod_mul in Hr by lia.
  destruct mrs' as [m r s']. cbn [shr_m shr_r] in *. subst m e'.
  assert (r = false) as -> by (destruct r; [specialize (Hr eq_refl); lia|done]).
  assert (round_nearest_even (Z.pos p)
            (loc_of_shr_record (Build_shr_record (Z.pos p) false s')) = Z.pos p)
    as -> by (by destruct s').
  cbn [Zdigits2].
  replace (Z.pos (digits2_pos p) + (ex + j))
    with (Z.pos (digits2_pos p) + j + ex) by lia.
  rewrite Hf, Z.sub_diag. cbn [shr shr_record_of_loc shr_m].
  destruct (Z.leb_spec (ex + j) (emax - prec)); [done|lia].
Qed.

(** Doubling a canonical number that is not about to overflow is exact. *)
Lemma fmul_two s m e :
  canonical (S754_finite s m e) -> e + 1 <= emax - prec ->
  fmul (S754_finite s m e) (of_Z 2) = S754_finite s m (e + 1) \/
  (e = emin prec emax /\
   fmul (S754_finite s m e) (of_Z 2) = S754_finite s (m~0) e).
Proof.
  cbn [canonical]. intros Hc He.
  change (of_Z 2) with (S754_finite false 4503599627370496 (-51)).
  unfold fmul. cbn [SFmul]. rewrite xorb_false_r.
  destruct (fexp_succ (Z.pos (digits2_pos m) + e)) as [Hs|[Hs Hmin]].
  - left. replace (e + 1) with (e + -51 + 52) by lia.
    apply binary_round_aux_trailing; [|lia| |lia].
    + rewrite Pos2Z.inj_mul. reflexivity.
    + replace (Z.pos (digits2_pos m) + 52 + (e + -51))
        with (Z.pos (digits2_pos m) + e + 1) by lia. lia.
  - right. split; [lia|]. replace e with (e + -51 + 51) at 2 by lia.
    apply binary_round_aux_trailing; [|lia| |lia].
    + rewrite Pos2Z.inj_mul, Pos2Z.inj_xO.
      change (Z.pos 4503599627370496) with (2 * 2 ^ 51). lia.
    + cbn [digits2_pos]. rewrite Pos2Z.inj_succ.
      replace (Z.succ (Z.pos (digits2_pos m)) + 51 + (e + -51))
        with (Z.pos (digits2_pos m) + e + 1) by lia. lia.
Qed.

Lemma fle_finite_pos m e m' e' :
  fle (S754_finite false m e) (S754_finite false m' e') = true <->
  e < e' \/ (e = e' /\ Z.pos m <= Z.pos m').
Proof.
  unfold fle, SFleb, SFcompare. rewrite Pos.compare_cont_spec.
  destruct (Z.compare_spec e e') as [->|He|He]; cbn [Pos.switch_Eq].
  - destruct (Pos.compare_spec m m') as [->|Hm|Hm]; split; intros H;
      try reflexivity; try discriminate; lia.
  - split; [auto|reflexivity].
  - split; [discriminate|]. lia.
Qed.

Lemma fle_finite_neg m e m' e' :
  fle (S754_finite true m e) (S754_finite true m' e') = true <->
  e' < e \/ (e = e' /\ Z.pos m' <= Z.pos m).
Proof.
  unfold fle, SFleb, SFcompare. rewrite Pos.compare_cont_spec.
  destruct (Z.compare_spec e e') as [->|He|He]; cbn [Pos.switch_Eq].
  - destruct (Pos.compare_spec m m') as [->|Hm|Hm]; cbn [CompOpp]; split;
      intros H; try reflexivity; try discriminate; lia.
  - split; [discriminate|]. lia.
  - split; [auto|reflexivity].
Qed.

(** Twice a canonical number from -1 to 1 lies between -2 and 2. *)
Lemma double_within q :
  canonical q -> within 1 q -> within 2 (fmul q (of_Z 2)).
Proof.
  intros Hc [Hlo Hhi]. destruct q as [s|s| |s m e].
  - by destruct s.
  - by destruct s.
  - done.
  - change (of_Z 1) with (S754_finite false 4503599627370496 (-52)) in Hlo, Hhi.
    cbn [SFopp negb] in Hlo.
    assert (e < -52 \/ (e = -52 /\ Z.pos m <= 4503599627370496)) as He.
    { destruct s.
      - apply fle_finite_neg in Hlo as [H|[H1 H2]]; [by left|by right].
      - apply fle_finite_pos in Hhi as [H|[H1 H2]]; [by left|by right]. }
    clear Hlo Hhi.
    assert (e + 1 <= emax - prec) as Hov by (unfold emax, prec; lia).
    unfold within.
    change (of_Z 2) with (S754_finite false 4503599627370496 (-51)).
    cbn [SFopp negb].
    destruct (fmul_two s m e Hc Hov) as [E | [Hmin E]];
      change (of_Z 2) with (S754_finite false 4503599627370496 (-51)) in E;
      rewrite E; clear E; destruct s.
    + split; [|reflexivity]. apply fle_finite_neg. lia.
    + split; [reflexivity|]. apply fle_finite_pos. lia.
    + split; [|reflexivity]. apply fle_finite_neg. left. rewrite Hmin.
      reflexivity.
    + split; [reflexivity|]. apply fle_finite_pos. left. rewrite Hmin.
      reflexivity.
Qed.

(** One axis of the pointer handler. *)
Lemma drift_axis a b :
  drift (fmul (clamp (fdiv a b) (SFopp (of_Z 1)) (of_Z 1)) (of_Z 2)).
Proof.
  pose proof (fdiv_canonical a b) as Hc.
  set (q := fdiv a b) in *.
  unfold clamp. cbn [Math_max Math_min float_MinMax].
  assert (q = S754_nan \/ q <> S754_nan) as [Hq|Hq]
    by (destruct q; auto; right; discriminate).
  - left. by rewrite Hq.
  - right.
    assert (of_Z 1 <> S754_nan) as Hh by discriminate.
    assert (SFopp (of_Z 1) <> S754_nan) as Hl by discriminate.
    destruct (float_min_spec (of_Z 1) q Hh Hq) as (Hm & Hm1 & _).
    assert (float_min (of_Z 1) q <> S754_nan) as Hmn
      by (by destruct Hm as [-> | ->]).
    destruct (float_max_spec (SFopp (of_Z 1)) (float_min (of_Z 1) q) Hl Hmn)
      as ([Hr|Hr] & Hr1 & _).
    + rewrite Hr. split; reflexivity.
    + rewrite Hr in Hr1 |- *. destruct Hm as [Hm|Hm].
      * rewrite Hm. split; reflexivity.
      * rewrite Hm in Hm1, Hr1 |- *. apply double_within; [exact Hc|].
        by split.
Qed.

(** The handler can store NaN: in a window of height 0 a pointer at
    [clientY = 0] gives [0 / 0]. *)
Lemma pointer_drift_NaN :
  (mouseOffsetRef
     (onMouseMove {| innerWidth := 1024; innerHeight := 0;
                     devicePixelRatio := of_Z 1; scrollY := zero;
                     pageYOffset := zero |}
                  zero zero (mount true desktop))).2 = S754_nan.
Proof. reflexivity. Qed.

Lemma mouseOffsetRef_draw P reduced running F w :
  mouseOffsetRef (draw P reduced running F w).1 = mouseOffsetRef w.
Proof.
  unfold draw. destruct running; [|done]. cbn [negb].
  destruct (gridRef w) as [gm|]; [|done].
  destruct (baseGridRef w) as [base|]; [|done].
  by destruct (scramble P reduced F gm w) as [[m ids] k].
Qed.

Lemma drift_step e w :
  drift (mouseOffsetRef w).1 /\ drift (mouseOffsetRef w).2 ->
  drift (mouseOffsetRef (step e w)).1 /\ drift (mouseOffsetRef (step e w)).2.
Proof.
  intros Hw.
  destruct e as [win canvas P|now win|win x y|P reduced running F]; cbn [step].
  - unfold computeGrid. by destruct (fillBase _ _ _).
  - exact Hw.
  - unfold onMouseMove. destruct (_ <? _); [exact Hw|].
    cbn [mouseOffsetRef fst snd]. split; apply drift_axis.
  - by rewrite mouseOffsetRef_draw.
Qed.

(** X23: in every state a component reaches from its mount, whatever
    events occur and whatever positions the pointer events report, each
    component of the pointer offset is NaN or lies between -2 and 2: the
    drift never exceeds two pixels on either axis. *)
Theorem pointer_drift_bounded isClient win es :
  drift (mouseOffsetRef (run es (mount isClient win))).1 /\
  drift (mouseOffsetRef (run es (mount isClient win))).2.
Proof.
  assert (forall w,
            drift (mouseOffsetRef w).1 /\ drift (mouseOffsetRef w).2 ->
            drift (mouseOffsetRef (run es w)).1 /\
            drift (mouseOffsetRef (run es w)).2) as Hrun.
  { induction es as [|e es IH]; intros w Hw; [exact Hw|].
    apply (IH (step e w)), drift_step, Hw. }
  apply Hrun. split; right; split; reflexivity.
Qed.

End Pointer.

(** ** The lifetime of a scramble entry *)

Section TimeToLive.

(** Rounding an exact mantissa: the result lies between the mantissa
    truncated to the exponent of the format and its successor, and is the
    truncated mantissa when nothing is cut off. *)
Lemma binary_round_aux_between mx ex :
  0 < mx -> ex <= fexp prec emax (Zdigits2 mx + ex) ->
  exists m3 K,
    0 <= K /\
    mx / 2 ^ (fexp prec emax (Zdigits2 mx + ex) - ex) <= m3 * 2 ^ K
      <= mx / 2 ^ (fexp prec emax (Zdigits2 mx + ex) - ex) + 1 /\
    (mx mod 2 ^ (fexp prec emax (Zdigits2 mx + ex) - ex) = 0 ->
     m3 * 2 ^ K = mx / 2 ^ (fexp prec emax (Zdigits2 mx + ex) - ex)) /\
    (0 < m3 ->
     fexp prec emax (Zdigits2 m3 + (fexp prec emax (Zdigits2 mx + ex) + K))
       = fexp prec emax (Zdigits2 mx + ex) + K) /\
    binary_round_aux prec emax false mx ex loc_Exact =
      match m3 with
      | 0 => S754_zero false
      | Z.pos p =>
          if fexp prec emax (Zdigits2 mx + ex) + K <=? emax - prec
          then S754_finite false p (fexp prec emax (Zdigits2 mx + ex) + K)
          else S754_infinity false
      | Z.neg _ => S754_nan
      end.
Proof.
  intros Hmx Hex. unfold binary_round_aux, shr_fexp.
  set (e1 := fexp prec emax (Zdigits2 mx + ex)) in *.
  set (k := e1 - ex).
  assert (0 <= k) as Hk by (unfold k; lia).
  assert (0 < 2 ^ k) as Hpk by (apply Z.pow_pos_nonneg; lia).
  destruct (shr_shifted mx ex k ltac:(lia)) as [[Hm1 Hr1] He1].
  destruct (shr (shr_record_of_loc mx loc_Exact) ex k) as [mrs' e'].
  cbn [fst snd] in Hm1, Hr1, He1.
  unfold bits in *. rewrite Z.max_r in * by lia.
  assert (e' = e1) as -> by (unfold k in He1; lia).
  set (m1 := mx / 2 ^ k) in *.
  assert (0 <= m1) as Hm1' by (apply Z.div_pos; lia).
  set (m2 := round_nearest_even (shr_m mrs') (loc_of_shr_record mrs')).
  assert (m1 <= m2 <= m1 + 1 /\ (mx mod 2 ^ k = 0 -> m2 = m1)) as [Hm2 Hexact].
  { unfold m2. destruct mrs' as [m r s]. cbn [shr_m shr_r] in *. subst m.
    destruct r, s; cbn [round_nearest_even loc_of_shr_record];
      try (destruct (Z.even m1)); (split; [lia|]); intros Hz;
      try reflexivity; specialize (Hr1 eq_refl).
    all: lia. }
  (* the second shift divides exactly *)
  assert (e1 <= fexp prec emax (Zdigits2 m2 + e1) /\
          m2 / 2 ^ (fexp prec emax (Zdigits2 m2 + e1) - e1)
            * 2 ^ (fexp prec emax (Zdigits2 m2 + e1) - e1) = m2)
    as [He2 Hdiv].
  { destruct (Z.eq_dec m1 0) as [Hz|Hnz].
    - assert (e1 = emin prec emax) as Hmin.
      { unfold m1 in Hz. apply Z.div_small_iff in Hz as [Hsm|Hsm]; [|lia|lia].
        assert (Zdigits2 mx <= k) as Hd.
        { destruct mx as [|p|p]; [lia| |lia]. apply digits2_pos_le; lia. }
        revert Hd Hex. unfold k, e1, fexp, emin, prec, emax. lia. }
      assert (m2 = 0 \/ m2 = 1) as [-> | ->] by lia; rewrite Hmin;
        (split; [vm_compute; discriminate|reflexivity]).
    - assert (0 < m1) as Hpos by lia.
      assert (Zdigits2 m1 + e1 = Zdigits2 mx + ex) as Hd.
      { unfold m1. rewrite Zdigits2_div by (fold m1; lia). unfold k. lia. }
      assert (fexp prec emax (Zdigits2 m1 + e1) = e1) as Hc
        by (rewrite Hd; reflexivity).
      pose proof (Zdigits2_bounds m1 Hpos) as [Hlo Hhi].
      pose proof (Zdigits2_mono m1 m2 ltac:(lia)) as Hmono.
      assert (0 < m2) as Hpos2 by lia.
      pose proof (Zdigits2_bounds m2 Hpos2) as [Hlo2 Hhi2].
      assert (Zdigits2 m2 <= Zdigits2 m1 + 1) as Hup.
      { destruct m2 as [|p2|p2]; try lia. cbn [Zdigits2].
        apply digits2_pos_le; [pose proof (Zdigits2_nonneg m1); lia|].
        rewrite Z.pow_add_r, Z.pow_1_r by (pose proof (Zdigits2_nonneg m1); lia).
        lia. }
      destruct (Z.eq_dec (Zdigits2 m2) (Zdigits2 m1)) as [E|E].
      + rewrite E, Hc, Z.sub_diag, Z.pow_0_r, Z.div_1_r. lia.
      + assert (Zdigits2 m2 = Zdigits2 m1 + 1) as E' by lia.
        assert (m2 = 2 ^ Zdigits2 m1) as Hpow.
        { rewrite E' in Hlo2.
          replace (Zdigits2 m1 + 1 - 1) with (Zdigits2 m1) in Hlo2 by lia. lia. }
        rewrite E'.
        destruct (fexp_succ (Zdigits2 m1 + e1)) as [Hs|[Hs _]];
          replace (Zdigits2 m1 + 1 + e1) with (Zdigits2 m1 + e1 + 1) by lia;
          rewrite Hs, Hc.
        * replace (e1 + 1 - e1) with 1 by lia. split; [lia|].
          rewrite Hpow.
          assert (1 <= Zdigits2 m1) by (destruct m1; simpl in *; lia).
          assert (2 ^ Zdigits2 m1 = 2 ^ (Zdigits2 m1 - 1) * 2) as ->
            by (replace (Zdigits2 m1) with (Zdigits2 m1 - 1 + 1) at 1 by lia;
                rewrite Z.pow_add_r, Z.pow_1_r by lia; reflexivity).
          rewrite Z.pow_1_r, Z.div_mul by lia. reflexivity.
        * rewrite Z.sub_diag, Z.pow_0_r, Z.div_1_r. lia. }
  destruct (shr_fexp_spec m2 e1 loc_Exact ltac:(lia) He2) as [Hm3 He3].
  unfold shr_fexp in Hm3, He3.
  destruct (shr (shr_record_of_loc m2 loc_Exact) e1
                (fexp prec emax (Zdigits2 m2 + e1) - e1)) as [mrs'' e''].
  cbn [fst snd] in Hm3, He3.
  set (k2 := fexp prec emax (Zdigits2 m2 + e1) - e1) in *.
  exists (shr_m mrs''), k2.
  rewrite Hm3, Hdiv.
  split; [unfold k2; lia|]. split; [exact Hm2|]. split; [exact Hexact|].
  split.
  - intros Hpos3.
    assert (0 <= k2) as Hk2 by (unfold k2; lia).
    rewrite Zdigits2_div by assumption.
    replace (Zdigits2 m2 - k2 + (e1 + k2)) with (Zdigits2 m2 + e1) by lia.
    unfold k2. lia.
  - replace (e1 + k2) with e'' by (unfold k2; lia). reflexivity.
Qed.

(** On canonical positive numbers the order is the order of the values. *)
Lemma fle_of_scaled m e m' e' e0 :
  canonical (S754_finite false m e) -> canonical (S754_finite false m' e') ->
  e0 <= e -> e0 <= e' ->
  Z.pos m * 2 ^ (e - e0) <= Z.pos m' * 2 ^ (e' - e0) ->
  fle (S754_finite false m e) (S754_finite false m' e') = true.
Proof.
  cbn [canonical]. intros Hc Hc' He He' Hv. apply fle_finite_pos.
  destruct (Z.lt_trichotomy e e') as [Hlt|[->|Hgt]]; [by left| |].
  - right. split; [reflexivity|].
    assert (0 < 2 ^ (e' - e0)) by (apply Z.pow_pos_nonneg; lia).
    apply Z.mul_le_mono_pos_r in Hv; lia.
  - exfalso.
    pose proof (fexp_ge_emin (Z.pos (digits2_pos m') + e')) as Hmin.
    pose proof (digits2_pos_bounds m) as [Hlo _].
    pose proof (digits2_pos_bounds m') as [_ Hhi'].
    assert (Z.pos (digits2_pos m) = 53) as Hd
      by (revert Hc Hc' Hmin Hgt; unfold fexp, emin, prec, emax; lia).
    assert (Z.pos (digits2_pos m') <= 53) as Hd'
      by (revert Hc'; unfold fexp, emin, prec, emax; lia).
    rewrite Hd in Hlo. change (2 ^ (53 - 1)) with 4503599627370496 in Hlo.
    assert (2 ^ Z.pos (digits2_pos m') <= 2 ^ 53)
      by (apply Z.pow_le_mono_r; lia).
    change (2 ^ 53) with 9007199254740992 in *.
    assert (2 ^ (e - e0) = 2 ^ (e - e') * 2 ^ (e' - e0)) as Hsplit
      by (rewrite <- Z.pow_add_r by lia; f_equal; lia).
    assert (2 <= 2 ^ (e - e')) as H2.
    { change 2 with (2 ^ 1) at 1. apply Z.pow_le_mono_r; lia. }
    assert (0 < 2 ^ (e' - e0)) by (apply Z.pow_pos_nonneg; lia).
    rewrite Hsplit in Hv. nia.
Qed.

Lemma scaled_of_fle m e m' e' e0 :
  canonical (S754_finite false m e) -> canonical (S754_finite false m' e') ->
  e0 <= e -> e0 <= e' ->
  fle (S754_finite false m e) (S754_finite false m' e') = true ->
  Z.pos m * 2 ^ (e - e0) <= Z.pos m' * 2 ^ (e' - e0).
Proof.
  cbn [canonical]. intros Hc Hc' He He' [Hlt|[-> Hm]]%fle_finite_pos.
  - pose proof (fexp_ge_emin (Z.pos (digits2_pos m) + e)) as Hmin.
    pose proof (digits2_pos_bounds m) as [_ Hhi].
    pose proof (digits2_pos_bounds m') as [Hlo' _].
    assert (Z.pos (digits2_pos m') = 53) as Hd'
      by (revert Hc Hc' Hmin Hlt; unfold fexp, emin, prec, emax; lia).
    assert (Z.pos (digits2_pos m) <= 53) as Hd
      by (revert Hc; unfold fexp, emin, prec, emax; lia).
    rewrite Hd' in Hlo'. change (2 ^ (53 - 1)) with 4503599627370496 in Hlo'.
    assert (2 ^ Z.pos (digits2_pos m) <= 2 ^ 53)
      by (apply Z.pow_le_mono_r; lia).
    change (2 ^ 53) with 9007199254740992 in *.
    assert (2 ^ (e' - e0) = 2 ^ (e' - e) * 2 ^ (e - e0)) as Hsplit
      by (rewrite <- Z.pow_add_r by lia; f_equal; lia).
    assert (2 <= 2 ^ (e' - e)) as H2.
    { change 2 with (2 ^ 1) at 1. apply Z.pow_le_mono_r; lia. }
    assert (0 < 2 ^ (e - e0)) by (apply Z.pow_pos_nonneg; lia).
    rewrite Hsplit. nia.
  - assert (0 < 2 ^ (e' - e0)) by (apply Z.pow_pos_nonneg; lia). nia.
Qed.

(** Rounding does not pass a canonical number that is above the exact
    value and has an exponent the format allows there. *)
Lemma round_upper mx ex mc ec :
  0 < mx -> ex <= fexp prec emax (Zdigits2 mx + ex) ->
  canonical (S754_finite false mc ec) -> ec <= emax - prec ->
  fexp prec emax (Zdigits2 mx + ex) <= ec ->
  mx <= Z.pos mc * 2 ^ (ec - ex) ->
  binary_round_aux prec emax false mx ex loc_Exact = S754_zero false \/
  exists m3 e3,
    binary_round_aux prec emax false mx ex loc_Exact = S754_finite false m3 e3 /\
    canonical (S754_finite false m3 e3) /\
    fle (S754_finite false m3 e3) (S754_finite false mc ec) = true.
Proof.
  intros Hmx Hex Hc Hec He1 Hv.
  destruct (binary_round_aux_between mx ex Hmx Hex)
    as (m3 & K & HK & [Hlo Hhi] & Hexact & Hcan & ->).
  set (e1 := fexp prec emax (Zdigits2 mx + ex)) in *.
  set (k := e1 - ex) in *.
  assert (0 <= k) as Hk by (unfold k; lia).
  assert (0 < 2 ^ k) as Hpk by (apply Z.pow_pos_nonneg; lia).
  assert (0 < 2 ^ K) as HpK by (apply Z.pow_pos_nonneg; lia).
  assert (0 <= mx / 2 ^ k) as Hm1 by (apply Z.div_pos; lia).
  destruct m3 as [|p|p]; [by left| |nia].
  right.
  assert (canonical (S754_finite false p (e1 + K))) as Hcp
    by (cbn [canonical]; apply (Hcan ltac:(lia))).
  assert (fle (S754_finite false p (e1 + K)) (S754_finite false mc ec) = true)
    as Hfle.
  { apply (fle_of_scaled _ _ _ _ ex); [exact Hcp|exact Hc|lia|lia|].
    replace (e1 + K - ex) with (K + k) by (unfold k; lia).
    rewrite Z.pow_add_r by lia.
    pose proof (Z.div_mod mx (2 ^ k) ltac:(lia)) as Hdm.
    pose proof (Z.mod_pos_bound mx (2 ^ k) Hpk) as Hmb.
    assert (Z.pos mc * 2 ^ (ec - ex) = Z.pos mc * 2 ^ (ec - e1) * 2 ^ k) as Hb.
    { rewrite <- Z.mul_assoc, <- Z.pow_add_r by (unfold k; lia).
      do 2 f_equal. unfold k. lia. }
    rewrite Hb in Hv |- *.
    set (b := Z.pos mc * 2 ^ (ec - e1)) in *.
    destruct (Z.eq_dec (mx mod 2 ^ k) 0) as [Hz|Hnz].
    - rewrite (Hexact Hz) in *. nia.
    - assert (mx / 2 ^ k < b) by nia. nia. }
  assert (e1 + K <= ec) as Hle.
  { apply fle_finite_pos in Hfle. lia. }
  destruct (Z.leb_spec (e1 + K) (emax - prec)); [|lia].
  by exists p, (e1 + K).
Qed.

(** Rounding does not fall below a number that is below the exact value
    and is a multiple of the unit in the last place kept. *)
Lemma round_lower mx ex mc ec b :
  0 < mx -> ex <= fexp prec emax (Zdigits2 mx + ex) ->
  canonical (S754_finite false mc ec) -> ex <= ec ->
  Z.pos mc * 2 ^ (ec - ex) = b * 2 ^ (fexp prec emax (Zdigits2 mx + ex) - ex) ->
  Z.pos mc * 2 ^ (ec - ex) <= mx ->
  binary_round_aux prec emax false mx ex loc_Exact = S754_infinity false \/
  exists m3 e3,
    binary_round_aux prec emax false mx ex loc_Exact = S754_finite false m3 e3 /\
    canonical (S754_finite false m3 e3) /\
    fle (S754_finite false mc ec) (S754_finite false m3 e3) = true.
Proof.
  intros Hmx Hex Hc Hec Hb Hv.
  destruct (binary_round_aux_between mx ex Hmx Hex)
    as (m3 & K & HK & [Hlo Hhi] & Hexact & Hcan & ->).
  set (e1 := fexp prec emax (Zdigits2 mx + ex)) in *.
  set (k := e1 - ex) in *.
  assert (0 <= k) as Hk by (unfold k; lia).
  assert (0 < 2 ^ k) as Hpk by (apply Z.pow_pos_nonneg; lia).
  assert (0 < 2 ^ K) as HpK by (apply Z.pow_pos_nonneg; lia).
  assert (0 < 2 ^ (ec - ex)) as Hpe by (apply Z.pow_pos_nonneg; lia).
  assert (0 < b) as Hbpos by nia.
  assert (b <= mx / 2 ^ k) as Hbm.
  { apply Z.div_le_lower_bound; [lia|]. rewrite Z.mul_comm. lia. }
  destruct m3 as [|p|p]; [nia| |nia].
  destruct (Z.leb_spec (e1 + K) (emax - prec)); [|by left].
  right. exists p, (e1 + K). split; [reflexivity|].
  assert (canonical (S754_finite false p (e1 + K))) as Hcp
    by (cbn [canonical]; apply (Hcan ltac:(lia))).
  split; [exact Hcp|].
  apply (fle_of_scaled _ _ _ _ ex); [exact Hc|exact Hcp|lia|lia|].
  replace (e1 + K - ex) with (K + k) by (unfold k; lia).
  rewrite Z.pow_add_r, Hb by lia. nia.
Qed.

Lemma shl_align_value m e e' :
  e' <= e -> Z.pos (shl_align m e e').1 = Z.pos m * 2 ^ (e - e').
Proof.
  intros He. unfold shl_align. destruct (e' - e) as [|d|d] eqn:E; cbn [fst].
  - replace (e - e') with 0 by lia. lia.
  - lia.
  - rewrite iter_xO_value. do 2 f_equal. lia.
Qed.

(** [r * 150] for [r] in [0, 1) is zero or a canonical number up to 150. *)
Lemma product_bound r :
  inUnitInterval r = true ->
  is_zero (fmul r (of_Z 150)) = true \/
  exists mp ep,
    fmul r (of_Z 150) = S754_finite false mp ep /\
    canonical (S754_finite false mp ep) /\
    fle (S754_finite false mp ep) (of_Z 150) = true.
Proof.
  intros Hr. destruct r as [s|s| |[] m e]; try done; [by left|].
  destruct (inUnitInterval_finite m e Hr) as [Hm He].
  change (of_Z 150) with (S754_finite false 5277655813324800 (-45)).
  unfold fmul. cbn [SFmul xorb].
  set (mx := Z.pos (m * 5277655813324800)).
  assert (mx = Z.pos m * 5277655813324800) as Hmx by (unfold mx; lia).
  assert (0 < 2 ^ (- e)) as Hp by (apply Z.pow_pos_nonneg; lia).
  assert (2 ^ 53 <= 2 ^ (- e)) as Hpe by (apply Z.pow_le_mono_r; lia).
  assert (53 <= Zdigits2 mx) as Hd53.
  { change 53 with (Zdigits2 5277655813324800).
    apply Zdigits2_mono. lia. }
  assert (Zdigits2 mx <= 53 - e) as Hdup.
  { unfold mx. cbn [Zdigits2]. apply digits2_pos_le; [lia|]. fold mx.
    replace (53 - e) with (53 + - e) by lia. rewrite Z.pow_add_r by lia.
    change (2 ^ 53) with 9007199254740992 in *. nia. }
  assert (fexp prec emax (Zdigits2 mx + (e + -45)) <= -45) as He1.
  { change (-45) with (fexp prec emax 8) at 2. apply fexp_mono. lia. }
  destruct (round_upper mx (e + -45) 5277655813324800 (-45)) as [Hz|Hf].
  - lia.
  - unfold fexp, emin, prec, emax. lia.
  - reflexivity.
  - unfold emax, prec. lia.
  - exact He1.
  - replace (-45 - (e + -45)) with (- e) by lia.
    change (2 ^ 53) with 9007199254740992 in *. nia.
  - left. by rewrite Hz.
  - right. exact Hf.
Qed.

(** The time to live of a scramble entry is a number from 200 to 350,
    and it can be 350: the sum is rounded. *)
Lemma ttl_window r :
  inUnitInterval r = true ->
  fle (of_Z 200) (ttl r) = true /\ fle (ttl r) (of_Z 350) = true.
Proof.
  intros Hr. unfold ttl.
  destruct (product_bound r Hr) as [Hz|(mp & ep & -> & Hc & Hle)].
  - destruct (fmul r (of_Z 150)) as [s| | |]; try done.
  - change (of_Z 150) with (S754_finite false 5277655813324800 (-45)) in Hle.
    change (of_Z 200) with (S754_finite false 7036874417766400 (-45)).
    change (of_Z 350) with (S754_finite false 6157265115545600 (-44)).
    assert (ep <= -45) as Hep by (apply fle_finite_pos in Hle; lia).
    pose proof (scaled_of_fle mp ep 5277655813324800 (-45) ep Hc eq_refl
                  ltac:(lia) Hep Hle) as Hv.
    rewrite Z.sub_diag, Z.pow_0_r, Z.mul_1_r in Hv.
    set (T := 2 ^ (-45 - ep)) in *.
    assert (1 <= T) as HT.
    { unfold T. change 1 with (2 ^ 0). apply Z.pow_le_mono_r; lia. }
    unfold fadd. cbn [SFadd]. rewrite Z.min_r by lia.
    pose proof (shl_align_value 7036874417766400 (-45) ep Hep) as HA.
    pose proof (shl_align_value mp ep ep ltac:(lia)) as HB.
    rewrite Z.sub_diag, Z.pow_0_r, Z.mul_1_r in HB. fold T in HA.
    cbn [cond_Zopp]. rewrite HA, HB.
    set (S := 7036874417766400 * T + Z.pos mp).
    assert (7036874417766400 * T <= S <= 12314530231091200 * T) as HS
      by (unfold S; lia).
    destruct S as [|sm|sm] eqn:ES; [lia| |lia].
    cbn [binary_normalize]. unfold binary_round.
    assert (2 ^ (52 - 45 - ep) <= Z.pos sm < 2 ^ (54 - 45 - ep)) as Hpow.
    { replace (52 - 45 - ep) with (52 + (-45 - ep)) by lia.
      replace (54 - 45 - ep) with (54 + (-45 - ep)) by lia.
      rewrite !Z.pow_add_r by lia. fold T.
      change (2 ^ 52) with 4503599627370496.
      change (2 ^ 54) with 18014398509481984. lia. }
    pose proof (digits2_pos_bounds sm) as [Hdlo Hdhi].
    assert (8 <= Z.pos (digits2_pos sm) + ep <= 9) as Hd.
    { split.
      - assert (52 - 45 - ep < Z.pos (digits2_pos sm)); [|lia].
        apply (Z.pow_lt_mono_r_iff 2); lia.
      - pose proof (digits2_pos_le sm (54 - 45 - ep) ltac:(lia)
                      (proj2 Hpow)). lia. }
    assert (-45 <= fexp prec emax (Z.pos (digits2_pos sm) + ep) <= -44) as He1
      by (unfold fexp, emin, prec, emax; lia).
    assert (shl_align sm ep (fexp prec emax (Z.pos (digits2_pos sm) + ep))
            = (sm, ep)) as ->.
    { unfold shl_align.
      destruct (fexp prec emax (Z.pos (digits2_pos sm) + ep) - ep) eqn:E;
        [done|done|lia]. }
    assert (2 ^ (-44 - ep) = 2 * T) as HT2.
    { unfold T. replace (-44 - ep) with (1 + (-45 - ep)) by lia.
      rewrite Z.pow_add_r by lia. reflexivity. }
    destruct (round_upper (Z.pos sm) ep 6157265115545600 (-44))
      as [Hz|(m3 & e3 & E3 & Hc3 & Hu)].
    + lia.
    + cbn [Zdigits2]. lia.
    + reflexivity.
    + unfold emax, prec. lia.
    + cbn [Zdigits2]. lia.
    + rewrite HT2. lia.
    + exfalso.
      destruct (round_lower (Z.pos sm) ep 7036874417766400 (-45)
                  (7036874417766400 * T
                   / 2 ^ (fexp prec emax (Z.pos (digits2_pos sm) + ep) - ep)))
        as [Hi|(m4 & e4 & E4 & _)]; try (rewrite Hz in *; discriminate);
        cbn [Zdigits2]; try lia; try reflexivity.
      all: fold T.
      all: destruct (Z.eq_dec (fexp prec emax (Z.pos (digits2_pos sm) + ep)) (-45))
             as [->|Hne];
           [fold T; rewrite Z.div_mul by lia; reflexivity|].
      all: replace (fexp prec emax (Z.pos (digits2_pos sm) + ep)) with (-44) by lia.
      all: rewrite HT2.
      all: replace (7036874417766400 * T) with (3518437208883200 * (2 * T)) by lia.
      all: rewrite Z.div_mul by lia; reflexivity.
    + rewrite E3. split; [|exact Hu].
      destruct (round_lower (Z.pos sm) ep 7036874417766400 (-45)
                  (7036874417766400 * T
                   / 2 ^ (fexp prec emax (Z.pos (digits2_pos sm) + ep) - ep)))
        as [Hi|(m4 & e4 & E4 & _ & Hl)].
      * lia.
      * cbn [Zdigits2]. lia.
      * reflexivity.
      * lia.
      * cbn [Zdigits2]. fold T.
        destruct (Z.eq_dec (fexp prec emax (Z.pos (digits2_pos sm) + ep)) (-45))
          as [->|Hne]; [fold T; rewrite Z.div_mul by lia; reflexivity|].
        replace (fexp prec emax (Z.pos (digits2_pos sm) + ep)) with (-44) by lia.
        rewrite HT2.
        replace (7036874417766400 * T) with (3518437208883200 * (2 * T)) by lia.
        rewrite Z.div_mul by lia. reflexivity.
      * fold T. lia.
      * rewrite E3 in Hi. discriminate.
      * rewrite E3 in E4. injection E4 as <- <-. exact Hl.
Qed.

Lemma ttl_reaches_350 :
  ttl (S754_finite false 9007199254740991 (-53)) = of_Z 350.
Proof. reflexivity. Qed.

(** X26: whenever [Math.random()] keeps to [0, 1), every entry of the
    scramble set after a frame is an entry that was there before, unchanged,
    or expires at [now + ttl] for the time [now] read before the insertion
    and a time to live [ttl] from 200 to 350 milliseconds, both bounds
    included. *)
Theorem scramble_lifetime P reduced running F w painted idx e :
  (forall k, inUnitInterval (random F k) = true) ->
  (draw P reduced running F w).2 = Some painted ->
  scrambleMapRef (draw P reduced running F w).1 !! idx = Some e ->
  scrambleMapRef w !! idx = Some e \/
  exists r,
    inUnitInterval r = true /\
    until e = fadd (nowBurst F) (ttl r) /\
    fle (of_Z 200) (ttl r) = true /\ fle (ttl r) (of_Z 350) = true.
Proof.
  intros Hrnd (gm & base & _ & _ & _ & -> & _ & _)%draw_painted H.
  apply scramble_lookup in H as [_ [H|[_ (j & j' & _ & Hu)]]]; [by left|].
  right. exists (random F j'). split; [apply Hrnd|]. split; [exact Hu|].
  apply ttl_window, Hrnd.
Qed.

Lemma scramble_lifetime_witness :
  exists painted e,
    (forall k, inUnitInterval (random (frameAt 133) k) = true) /\
    (draw defaultProps false true (frameAt 133) (scrolled smallCanvas)).2
      = Some painted /\
    scrambleMapRef
      (draw defaultProps false true (frameAt 133) (scrolled smallCanvas)).1
      !! Int 3 = Some e /\
    (scrambleMapRef (scrolled smallCanvas) !! Int 3 = Some e \/
     exists r,
       inUnitInterval r = true /\
       until e = fadd (nowBurst (frameAt 133)) (ttl r) /\
       fle (of_Z 200) (ttl r) = true /\ fle (ttl r) (of_Z 350) = true).
Proof.
  assert (exists painted,
            (draw defaultProps false true (frameAt 133) (scrolled smallCanvas)).2
              = Some painted) as [painted Hp] by (vm_compute; eauto).
  assert (exists e,
            scrambleMapRef
              (draw defaultProps false true (frameAt 133)
                    (scrolled smallCanvas)).1 !! Int 3 = Some e) as [e He]
    by (vm_compute; eauto).
  exists painted, e. split; [intros k; reflexivity|]. split; [exact Hp|].
  split; [exact He|].
  exact (scramble_lifetime defaultProps false true (frameAt 133)
           (scrolled smallCanvas) painted (Int 3) e (fun k => eq_refl) Hp He).
Defined.

End TimeToLive.

(** ** The parallax target and the scramble indices *)

Section Parallax.

Lemma binary_round_aux_signed s m e l :
  match binary_round_aux prec emax s m e l with
  | S754_zero s' | S754_infinity s' | S754_finite s' _ _ => s' = s
  | S754_nan => True
  end.
Proof.
  unfold binary_round_aux.
  destruct (shr_fexp prec emax m e l) as [mrs' e'].
  destruct (shr_fexp prec emax _ e' loc_Exact) as [mrs'' e''].
  destruct (shr_m mrs'') as [|p|p]; [done| |done].
  by destruct (e'' <=? emax - prec).
Qed.

(** X24: with motion enabled, a positive scroll position and a positive
    [parallaxStrength], the parallax target is a number that is at most 0:
    the grid moves against the scroll. *)
Theorem parallax_opposes_scroll P w :
  is_finite (scrollTargetRef w) = true ->
  flt zero (scrollTargetRef w) = true ->
  flt zero (parallaxStrength P) = true ->
  fle (parallaxTarget P false w) zero = true /\
  parallaxTarget P false w <> S754_nan.
Proof.
  unfold parallaxTarget.
  destruct (scrollTargetRef w) as [sy|sy| |[] my ey]; try done.
  intros _ _.
  destruct (parallaxStrength P) as [sp|[]| |[] mp ep]; try done.
  intros _. unfold fmul. cbn [SFopp SFmul negb xorb].
  pose proof (binary_round_aux_signed true (Z.pos (my * mp)) (ey + ep) loc_Exact)
    as Hs.
  pose proof (binary_round_aux_not_nan true (Z.pos (my * mp)) (ey + ep) loc_Exact
                ltac:(lia)) as Hn.
  destruct (binary_round_aux prec emax true _ _ _) as [s|s| |s m e];
    try done; subst s; by split.
Qed.

Lemma parallax_opposes_scroll_witness :
  is_finite (scrollTargetRef (scrolled smallCanvas)) = true /\
  flt zero (scrollTargetRef (scrolled smallCanvas)) = true /\
  flt zero (parallaxStrength defaultProps) = true /\
  fle (parallaxTarget defaultProps false (scrolled smallCanvas)) zero = true /\
  parallaxTarget defaultProps false (scrolled smallCanvas) <> S754_nan.
Proof.
  split; [vm_compute; reflexivity|]. split; [vm_compute; reflexivity|].
  split; [vm_compute; reflexivity|].
  apply (parallax_opposes_scroll defaultProps (scrolled smallCanvas));
    vm_compute; reflexivity.
Defined.

Lemma visible_grid win canvas P :
  isNaN (density P) = false -> visible canvas ->
  exists N,
    mul (cols (gridMetrics true win canvas P)) (rows (gridMetrics true win canvas P))
      = Int N /\ 1 <= N < 2 ^ 53.
Proof.
  intros Hd [HW HH].
  destruct (cellSize_inRange true win P Hd) as (k & Hk & Hr).
  rewrite (gridMetrics_Int _ _ canvas _ k Hk) by lia.
  cbn [cols rows mul widthCss heightCss].
  set (W := Z.of_N (clientWidth canvas)) in *.
  set (H := Z.of_N (clientHeight canvas)) in *.
  eexists. split; [reflexivity|].
  assert (1 <= W / k) by (apply Z.div_le_lower_bound; lia).
  assert (1 <= H / k) by (apply Z.div_le_lower_bound; lia).
  assert (W / k < 2 ^ 26) by (apply Z.div_lt_upper_bound; lia).
  assert (H / k < 2 ^ 26) by (apply Z.div_lt_upper_bound; lia).
  change (2 ^ 53) with (2 ^ 26 * 2 ^ 27). nia.
Qed.

(** X25: while the grid is one that was computed, with a density other
    than NaN, for a canvas box of at least 24 by 24 pixels, every index a
    frame inserts into the scramble set is a cell of the grid, whenever
    [Math.random()] keeps to [0, 1). *)
Theorem inserted_indices_on_visible_canvas win canvas P w0 w P' reduced F
    painted gm :
  isNaN (density P) = false -> visible canvas ->
  gridRef w = gridRef (computeGrid true win canvas P w0) ->
  gridRef w = Some gm ->
  (forall k, inUnitInterval (random F k) = true) ->
  (draw P' reduced true F w).2 = Some painted ->
  Forall (validIndex gm) (inserted painted).
Proof.
  intros Hd Hv Hg Hgm Hrnd Hp.
  rewrite gridRef_computeGrid, Hgm in Hg. injection Hg as ->.
  destruct (visible_grid win canvas P Hd Hv) as (N & HN & Hr).
  by eapply nonempty_grid_indices_valid.
Qed.

Lemma inserted_indices_on_visible_canvas_witness :
  exists painted gm,
    isNaN (density defaultProps) = false /\ visible smallCanvas /\
    gridRef (scrolled smallCanvas)
      = gridRef (computeGrid true desktop smallCanvas defaultProps
                             (mount true desktop)) /\
    gridRef (scrolled smallCanvas) = Some gm /\
    (forall k, inUnitInterval (random (frameAt 133) k) = true) /\
    (draw defaultProps false true (frameAt 133) (scrolled smallCanvas)).2
      = Some painted /\
    Forall (validIndex gm) (inserted painted).
Proof.
  assert (exists painted,
            (draw defaultProps false true (frameAt 133) (scrolled smallCanvas)).2
              = Some painted) as [painted Hp] by (vm_compute; eauto).
  assert (exists gm, gridRef (scrolled smallCanvas) = Some gm) as [gm Hg]
    by (vm_compute; eauto).
  assert (visible smallCanvas) as Hv by (split; split; vm_compute; congruence).
  exists painted, gm.
  split; [reflexivity|]. split; [exact Hv|]. split; [reflexivity|].
  split; [exact Hg|]. split; [intros k; reflexivity|]. split; [exact Hp|].
  exact (inserted_indices_on_visible_canvas desktop smallCanvas defaultProps
           (mount true desktop) (scrolled smallCanvas) defaultProps false
           (frameAt 133) painted gm eq_refl Hv eq_refl Hg
           (fun k => eq_refl) Hp).
Defined.

End Parallax.

(** ** The effects *)

Import Scheduling.

Section Effects.
Variable P : Props.

Lemma List_filter_comm {A} (f g : A -> bool) l :
  List.filter f (List.filter g l) = List.filter g (List.filter f l).
Proof.
  induction l as [|x l IH]; [done|]. cbn.
  destruct (f x) eqn:Ef, (g x) eqn:Eg; cbn; rewrite ?Ef, ?Eg, IH; done.
Qed.

Lemma List_filter_nil_both q :
  List.filter isGrid q = [] -> List.filter isDraw q = [] -> q = [].
Proof.
  destruct q as [|x q]; [done|]. unfold isDraw. cbn.
  by destruct (isGrid x).
Qed.

Lemma List_filter_singleton {A} (f : A -> bool) l x :
  List.filter f l = [x] ->
  exists l1 l2, l = l1 ++ x :: l2 /\ List.filter f l1 = [] /\ List.filter f l2 = [].
Proof.
  induction l as [|y l IH]; [done|]. cbn. destruct (f y) eqn:E.
  - intros [= -> H]. exists [], l. cbn. by rewrite ?E.
  - intros (l1 & l2 & -> & H1 & H2)%IH. exists (y :: l1), l2. cbn.
    by rewrite E.
Qed.

(** Cancelling the grid callback that [frame] names leaves no grid callback
    pending and touches no draw callback. *)
Lemma cancel_frame p :
  tidy p ->
  List.filter isGrid (queue (cancelAnimationFrame (frame p) p)) = [] /\
  List.filter isDraw (queue (cancelAnimationFrame (frame p) p))
    = List.filter isDraw (queue p).
Proof.
  intros (HG & HD & _ & _ & _ & Hne & _).
  destruct (frame p) as [h|] eqn:Ef; cbn [cancelAnimationFrame queue].
  - rewrite !(List_filter_comm _ (fun hc => negb (hc.1 =? h)%positive)). split.
    + destruct HG as [-> | (h' & [= <-] & ->)]; [done|].
      cbn. by rewrite Pos.eqb_refl.
    + destruct (running p) as [i|].
      * destruct HD as (h' & Hr & ->). cbn.
        destruct (Pos.eqb_spec h' h) as [->|]; [|done]. by destruct (Hne h).
      * by rewrite HD.
  - split; [|done]. by destruct HG as [-> | (h' & [=] & _)].
Qed.

Lemma cancel_rafRef p :
  tidy p ->
  List.filter isDraw (queue (cancelAnimationFrame (rafRef p) p)) = [] /\
  List.filter isGrid (queue (cancelAnimationFrame (rafRef p) p))
    = List.filter isGrid (queue p).
Proof.
  intros (HG & HD & _ & _ & _ & Hne & _).
  destruct (rafRef p) as [h|] eqn:Er; cbn [cancelAnimationFrame queue].
  - rewrite !(List_filter_comm _ (fun hc => negb (hc.1 =? h)%positive)). split.
    + destruct (running p) as [i|].
      * destruct HD as (h' & [= <-] & ->). cbn. by rewrite Pos.eqb_refl.
      * by rewrite HD.
    + destruct HG as [-> | (h' & Hf & ->)]; [done|]. cbn.
      destruct (Pos.eqb_spec h' h) as [->|]; [|done]. by destruct (Hne h).
  - split; [|done]. destruct (running p) as [i|]; [|done].
    by destruct HD as (h' & [=] & _).
Qed.

Lemma cancel_bounds h p :
  Forall (fun hc => (hc.1 < nextHandle p)%positive) (queue p) ->
  Forall (fun hc => (hc.1 < nextHandle p)%positive)
         (queue (cancelAnimationFrame h p)).
Proof.
  intros H. destruct h as [h|]; [|done]. cbn [cancelAnimationFrame queue].
  apply Forall_forall. intros x Hx%list_elem_of_In.
  apply filter_In in Hx as [Hx%list_elem_of_In _].
  by apply (proj1 (Forall_forall _ _) H).
Qed.

Lemma cancel_fields h p :
  nextHandle (cancelAnimationFrame h p) = nextHandle p /\
  frame (cancelAnimationFrame h p) = frame p /\
  rafRef (cancelAnimationFrame h p) = rafRef p /\
  running (cancelAnimationFrame h p) = running p /\
  listening (cancelAnimationFrame h p) = listening p /\
  widget (cancelAnimationFrame h p) = widget p /\
  reducedMotion (cancelAnimationFrame h p) = reducedMotion p /\
  instances (cancelAnimationFrame h p) = instances p.
Proof. by destruct h. Qed.

Lemma Forall_bound_succ (q : list (positive * callback)) n :
  Forall (fun hc => (hc.1 < n)%positive) q ->
  Forall (fun hc => (hc.1 < Pos.succ n)%positive) (q ++ [(n, GridCallback)]) /\
  forall cb, Forall (fun hc => (hc.1 < Pos.succ n)%positive) (q ++ [(n, cb)]).
Proof.
  intros H.
  assert (forall cb, Forall (fun hc => (hc.1 < Pos.succ n)%positive)
                            (q ++ [(n, cb)])) as Hall.
  { intros cb. apply Forall_app. split.
    - eapply Forall_impl; [exact H|]. cbn. lia.
    - repeat constructor. cbn. lia. }
  split; [apply Hall|exact Hall].
Qed.

Lemma tidy_onResize p :
  tidy p -> listening p = true ->
  tidy (onResize p) /\
  List.filter isGrid (queue (onResize p))
    = [(nextHandle p, GridCallback)].
Proof.
  intros Ht Hl. destruct (cancel_frame p Ht) as [HG HD].
  destruct (cancel_fields (frame p) p)
    as (En & Ef & Er & Eu & El & _).
  pose proof Ht as (_ & HD0 & Hb & Hfb & Hrb & Hne & Hlist).
  pose proof (cancel_bounds (frame p) p Hb) as Hb'.
  unfold onResize, tidy.
  cbn [requestAnimationFrame queue frame running rafRef nextHandle listening].
  rewrite !List.filter_app, HG, HD, En, Er, Eu, El. cbn [List.filter isGrid isDraw snd negb app].
  rewrite app_nil_r. split; [|done].
  split; [right; by eexists|]. split; [exact HD0|].
  split; [by apply Forall_bound_succ|].
  split; [intros h [= <-]; lia|].
  split; [intros h Hh; specialize (Hrb h Hh); lia|].
  split; [intros h [= <-] Hh; specialize (Hrb _ Hh); lia|].
  rewrite Hl in *. exact Hlist.
Qed.

Lemma isDraw_false hc : isDraw hc = false -> hc.2 = GridCallback.
Proof. destruct hc as [h []]; done. Qed.

Lemma sameSchedule_refl p : sameSchedule p p.
Proof. by repeat split. Qed.

(** The grid callbacks of an animation frame change the widget only. *)
Lemma fold_grid_only F canvas l : forall acc,
  List.filter isDraw l = [] ->
  sameSchedule
    (fold_left (fun p hc => runCallback P F canvas hc.2 p) l acc) acc /\
  randState (widget (fold_left (fun p hc => runCallback P F canvas hc.2 p) l acc))
    = Nat.iter (length l * samples (Recompute (frameWindow F) canvas P))
               advance (randState (widget acc)).
Proof.
  induction l as [|x l IH]; intros acc Hl; [split; [apply sameSchedule_refl|done]|].
  cbn [List.filter] in Hl. destruct (isDraw x) eqn:Ex; [done|].
  apply isDraw_false in Ex. cbn [fold_left]. rewrite Ex.
  destruct (IH (runCallback P F canvas GridCallback acc) Hl) as [Hs Hr].
  split; [exact Hs|]. rewrite Hr. cbn [runCallback setWidget widget length].
  change (computeGrid true (frameWindow F) canvas P (widget acc))
    with (step (Recompute (frameWindow F) canvas P) (widget acc)).
  rewrite randState_step, <- Nat.iter_add. f_equal. lia.
Qed.

Lemma tidy_animationFrame F canvas p :
  tidy p ->
  tidy (animationFrame P F canvas p) /\
  randState (widget (animationFrame P F canvas p))
    = Nat.iter (length (List.filter isGrid (queue p))
                * samples (Recompute (frameWindow F) canvas P))
               advance (randState (widget p)) /\
  (is_Some (running p) ->
   lastTimestampRef (widget (animationFrame P F canvas p)) = t F).
Proof.
  intros (HG & HD & Hb & Hfb & Hrb & Hne & Hlist). unfold animationFrame.
  destruct (running p) as [i|] eqn:Hrun.
  - destruct HD as (h & Hraf & HD).
    destruct (List_filter_singleton _ _ _ HD) as (l1 & l2 & Hq & H1 & H2).
    rewrite Hq, fold_left_app. cbn [fold_left snd].
    set (p1 := fold_left _ l1 (clearQueue p)).
    destruct (fold_grid_only F canvas l1 (clearQueue p) H1)
      as [(Eq1 & En1 & Ef1 & El1 & Er1 & Eu1 & Em1 & Ei1) Hs1].
    fold p1 in Eq1, En1, Ef1, El1, Er1, Eu1, Em1, Ei1, Hs1.
    cbn [clearQueue queue nextHandle frame listening rafRef running
         reducedMotion instances widget] in *.
    assert (runCallback P F canvas (DrawCallback i) p1
            = requestDraw i
                (setWidget (draw P (reducedMotion p1) true F (widget p1)).1 p1))
      as -> by (cbn [runCallback]; rewrite Eu1, Hrun; by rewrite bool_decide_eq_true_2).
    set (p2 := requestDraw i _).
    destruct (fold_grid_only F canvas l2 p2 H2)
      as [(Eq2 & En2 & Ef2 & El2 & Er2 & Eu2 & Em2 & Ei2) Hs2].
    set (p3 := fold_left _ l2 p2) in *.
    cbn [p2 requestDraw requestAnimationFrame setWidget queue nextHandle frame
         listening rafRef running reducedMotion instances widget] in *.
    rewrite Eq1, En1 in *.
    split; [|split].
    + unfold tidy. rewrite Eq2, En2, Ef2, El2, Er2, Eu2, Ef1, El1, Eu1, Hrun.
      cbn [app List.filter isGrid isDraw snd negb].
      split; [by left|]. split; [by eexists|].
      split; [repeat constructor; cbn; lia|].
      split; [intros h' Hh'; specialize (Hfb _ Hh'); lia|].
      split; [intros h' [= <-]; lia|].
      split; [intros h' Hh' [= E]; specialize (Hfb _ Hh'); lia|].
      destruct (listening p); [done|]. by destruct Hlist.
    + rewrite Hs2, randState_draw, Hs1.
      assert (length (List.filter isGrid (l1 ++ (h, DrawCallback i) :: l2))
              = (length l1 + length l2)%nat) as ->.
      { rewrite List.filter_app, length_app. cbn.
        assert (forall l, List.filter isDraw l = [] -> List.filter isGrid l = l)
          as Hall.
        { induction l as [|x l IH]; [done|]. unfold isDraw. cbn.
          destruct (isGrid x); [|done]. intros Hl. by rewrite IH. }
        by rewrite !Hall. }
      rewrite <- Nat.iter_add. f_equal. lia.
    + intros _.
      assert (forall l acc,
                List.filter isDraw l = [] ->
                lastTimestampRef
                  (widget (fold_left (fun p hc => runCallback P F canvas hc.2 p)
                                     l acc))
                = lastTimestampRef (widget acc)) as Hts.
      { induction l as [|x l IH]; intros acc Hl; [done|].
        cbn [List.filter] in Hl. destruct (isDraw x) eqn:Ex; [done|].
        apply isDraw_false in Ex. cbn [fold_left]. rewrite Ex, IH by done.
        cbn [runCallback setWidget widget]. unfold computeGrid.
        by destruct (fillBase _ _ _). }
      unfold p3. rewrite Hts by done.
      unfold p2. cbn [requestDraw requestAnimationFrame setWidget widget].
      unfold draw. cbn [negb].
      destruct (gridRef (widget p1)) as [gm|]; [|done].
      destruct (baseGridRef (widget p1)) as [base|]; [|done].
      by destruct (scramble _ _ _ _ _) as [[m ids] k].
  - destruct (fold_grid_only F canvas (queue p) (clearQueue p) HD)
      as [(Eq1 & En1 & Ef1 & El1 & Er1 & Eu1 & Em1 & Ei1) Hs1].
    cbn [clearQueue queue nextHandle frame listening rafRef running
         reducedMotion instances widget] in *.
    split; [|split].
    + unfold tidy. rewrite Eq1, En1, Ef1, El1, Er1, Eu1, Hrun.
      cbn [List.filter]. split; [by left|]. split; [done|].
      split; [constructor|]. split; [exact Hfb|]. split; [exact Hrb|].
      split; [exact Hne|]. destruct (listening p); [done|]. by destruct Hlist.
    + rewrite Hs1. do 2 f_equal.
      assert (forall l, List.filter isDraw l = [] -> List.filter isGrid l = l)
        as Hall.
      { induction l as [|x l IH]; [done|]. unfold isDraw. cbn.
        destruct (isGrid x); [|done]. intros Hl. by rewrite IH. }
      by rewrite Hall.
    + by intros [? ?].
Qed.

Lemma cancel_queue_ext h p p0 :
  queue p0 = queue p ->
  queue (cancelAnimationFrame h p0) = queue (cancelAnimationFrame h p).
Proof. intros H. destruct h; cbn; by rewrite ?H. Qed.

Lemma tidy_stopDraw p :
  tidy p ->
  List.filter isDraw (queue (stopDraw p)) = [] /\
  List.filter isGrid (queue (stopDraw p)) = List.filter isGrid (queue p) /\
  Forall (fun hc => (hc.1 < nextHandle p)%positive) (queue (stopDraw p)) /\
  running (stopDraw p) = None /\ nextHandle (stopDraw p) = nextHandle p /\
  frame (stopDraw p) = frame p /\ rafRef (stopDraw p) = rafRef p /\
  listening (stopDraw p) = listening p /\ widget (stopDraw p) = widget p /\
  instances (stopDraw p) = instances p.
Proof.
  intros Ht. destruct (cancel_rafRef p Ht) as [HD HG].
  pose proof Ht as (_ & _ & Hb & _).
  pose proof (cancel_bounds (rafRef p) p Hb) as Hb'.
  unfold stopDraw.
  set (p0 := Build_Page _ _ _ _ _ _ None _ _).
  rewrite (cancel_queue_ext (rafRef p) p p0 eq_refl).
  destruct (cancel_fields (rafRef p) p0) as (-> & -> & -> & -> & -> & -> & _ & ->).
  by repeat split.
Qed.

Lemma tidy_startDraw reduced p :
  tidy p -> listening p = true -> tidy (startDraw reduced (stopDraw p)).
Proof.
  intros Ht Hl.
  destruct (tidy_stopDraw p Ht)
    as (HD & HG & Hb & Hr & Hn & Hf & Hraf & Hli & Hw & Hi).
  destruct Ht as (HG0 & _ & _ & Hfb & Hrb & Hne & _).
  unfold startDraw, tidy.
  cbn [requestDraw requestAnimationFrame queue nextHandle frame listening
       rafRef running reducedMotion instances].
  rewrite !List.filter_app, HD, HG, Hn, Hf, Hli, Hl.
  cbn [List.filter isGrid isDraw snd negb app]. rewrite app_nil_r.
  split; [exact HG0|]. split; [by eexists|].
  split; [by apply Forall_bound_succ|].
  split; [intros h Hh; specialize (Hfb _ Hh); lia|].
  split; [intros h [= <-]; lia|].
  split; [intros h Hh [= E]; specialize (Hfb _ Hh); lia|].
  done.
Qed.

Lemma tidy_unmounted p :
  tidy p ->
  tidy (stopResize (stopDraw p)) /\
  queue (stopResize (stopDraw p)) = [] /\
  listening (stopResize (stopDraw p)) = false /\
  widget (stopResize (stopDraw p)) = widget p.
Proof.
  intros Ht.
  destruct (tidy_stopDraw p Ht)
    as (HD & HG & Hb & Hr & Hn & Hf & Hraf & Hli & Hw & Hi).
  pose proof Ht as (HG0 & _ & _ & Hfb & Hrb & Hne & _).
  unfold stopResize.
  set (p0 := Build_Page _ _ _ _ false _ _ _ _).
  destruct (cancel_fields (frame (stopDraw p)) p0)
    as (En & Ef & Er & Eu & El & Ew & _).
  assert (queue (cancelAnimationFrame (frame (stopDraw p)) p0) = []) as Eq.
  { rewrite (cancel_queue_ext _ (stopDraw p) p0 eq_refl).
    apply List_filter_nil_both.
    - destruct (frame (stopDraw p)) as [h|] eqn:E;
        cbn [cancelAnimationFrame queue].
      + rewrite List_filter_comm, HG.
        destruct HG0 as [-> | (h' & Hh' & ->)]; [done|].
        rewrite <- Hf in Hh'. injection Hh' as <-. cbn. by rewrite Pos.eqb_refl.
      + rewrite HG.
        by destruct HG0 as [-> | (h' & Hh' & _)]; [|congruence].
    - destruct (frame (stopDraw p)) as [h|];
        cbn [cancelAnimationFrame queue]; [|exact HD].
      by rewrite List_filter_comm, HD. }
  split; [|by rewrite Ew].
  unfold tidy. rewrite Eq, En, Ef, Er, Eu, El.
  cbn [p0 nextHandle frame rafRef running listening List.filter].
  rewrite Hn, Hf, Hraf, Hr.
  split; [by left|]. split; [done|]. split; [constructor|]. by repeat split.
Qed.

Lemma tidy_mounted reduced win canvas now :
  tidy (mounted P reduced win canvas now).
Proof.
  unfold mounted, startDraw, tidy. cbn. split; [by left|].
  split; [by eexists|]. split; [repeat constructor; cbn; lia|].
  split; [done|]. split; [intros h [= <-]; lia|]. split; [done|]. by eexists.
Qed.

Lemma tidy_perform o p : tidy p -> tidy (perform P o p).
Proof.
  intros Ht. destruct o as [|F canvas|reduced|]; cbn [perform].
  - destruct (listening p) eqn:Hl; [|exact Ht]. by apply tidy_onResize.
  - by apply tidy_animationFrame.
  - destruct (listening p) eqn:Hl; [|exact Ht]. by apply tidy_startDraw.
  - by apply tidy_unmounted.
Qed.

Lemma tidy_performAll os : forall p, tidy p -> tidy (performAll P os p).
Proof.
  induction os as [|o os IH]; intros p Ht; [exact Ht|].
  apply (IH (perform P o p)). by apply tidy_perform.
Qed.

Lemma widget_onResize p : widget (onResize p) = widget p.
Proof. unfold onResize. cbn. by destruct (frame p). Qed.

Lemma tidy_reached reduced win canvas now os :
  tidy (reached P reduced win canvas now os).
Proof. apply tidy_performAll, tidy_mounted. Qed.

(** X20: resize events are debounced to the animation frame: however many
    resize events a mounted component receives before an animation frame,
    that frame computes the grid exactly once; the seeded generator ends in
    the state one grid computation leads to. *)
Theorem resize_is_debounced reduced win canvas now os n F canvas' :
  listening (reached P reduced win canvas now os) = true ->
  randState
    (widget (animationFrame P F canvas'
               (performAll P (replicate (S n) Resized)
                           (reached P reduced win canvas now os))))
  = randState (computeGrid true (frameWindow F) canvas' P
                 (widget (reached P reduced win canvas now os))).
Proof.
  intros Hl. set (p := reached P reduced win canvas now os) in *.
  assert (tidy p) as Ht by apply tidy_reached.
  assert (forall k q, tidy q -> listening q = true ->
            tidy (performAll P (replicate (S k) Resized) q) /\
            widget (performAll P (replicate (S k) Resized) q) = widget q /\
            length (List.filter isGrid
                      (queue (performAll P (replicate (S k) Resized) q)))
              = 1%nat) as Hres.
  { induction k as [|k IH]; intros q Hq Hlq.
    - cbn [replicate performAll fold_left perform]. rewrite Hlq.
      destruct (tidy_onResize q Hq Hlq) as [Hq' ->].
      by rewrite widget_onResize.
    - change (performAll P (replicate (S (S k)) Resized) q)
        with (performAll P (replicate (S k) Resized) (perform P Resized q)).
      cbn [perform]. rewrite Hlq.
      destruct (tidy_onResize q Hq Hlq) as [Hq' _].
      destruct (IH (onResize q) Hq') as (H1 & H2 & H3).
      { unfold onResize. cbn. rewrite <- Hlq. by destruct (frame q). }
      by rewrite widget_onResize in H2. }
  destruct (Hres n p Ht Hl) as (Ht' & Hw & Hlen).
  destruct (tidy_animationFrame F canvas' _ Ht') as (_ & -> & _).
  rewrite Hlen, Hw, Nat.mul_1_l.
  change (computeGrid true (frameWindow F) canvas' P (widget p))
    with (step (Recompute (frameWindow F) canvas' P) (widget p)).
  by rewrite randState_step.
Qed.

(** X21: while the component is mounted, whatever resize events, animation
    frames and re-runs of the draw effect have occurred, exactly one draw
    callback is pending, it belongs to the run that is running and
    [rafRef] holds its handle; so the next animation frame runs [draw],
    which records the timestamp of the frame. *)
Theorem draw_loop_keeps_running reduced win canvas now os F canvas' :
  listening (reached P reduced win canvas now os) = true ->
  (exists h i,
     running (reached P reduced win canvas now os) = Some i /\
     rafRef (reached P reduced win canvas now os) = Some h /\
     List.filter isDraw (queue (reached P reduced win canvas now os))
       = [(h, DrawCallback i)]) /\
  lastTimestampRef
    (widget (animationFrame P F canvas' (reached P reduced win canvas now os)))
    = t F.
Proof.
  intros Hl. set (p := reached P reduced win canvas now os) in *.
  assert (tidy p) as Ht by apply tidy_reached.
  destruct (tidy_animationFrame F canvas' p Ht) as (_ & _ & Hts).
  destruct Ht as (_ & HD & _ & _ & _ & _ & Hlist). rewrite Hl in Hlist.
  split; [|by apply Hts].
  destruct (running p) as [i|]; [|by destruct Hlist].
  destruct HD as (h & Hr & HD). by exists h, i.
Qed.

Lemma perform_unmounted o p :
  queue p = [] -> listening p = false -> running p = None ->
  perform P o p = p.
Proof.
  intros Hq Hl Hr.
  destruct o as [|F canvas|reduced|]; cbn [perform]; rewrite ?Hl; try done.
  - unfold animationFrame. rewrite Hq. cbn. destruct p; cbn in *. by subst.
  - unfold stopResize, stopDraw.
    destruct p as [w q n f l r u m i]; cbn in *. subst.
    by destruct r, f.
Qed.

(** X22: unmounting is final: the cleanups leave no animation-frame callback
    pending and do not touch the refs, and no later resize event, animation
    frame or effect re-run changes anything. *)
Theorem unmount_is_final reduced win canvas now os os' :
  queue (perform P Unmounted (reached P reduced win canvas now os)) = [] /\
  widget (perform P Unmounted (reached P reduced win canvas now os))
    = widget (reached P reduced win canvas now os) /\
  performAll P os' (perform P Unmounted (reached P reduced win canvas now os))
    = perform P Unmounted (reached P reduced win canvas now os).
Proof.
  set (p := reached P reduced win canvas now os).
  assert (tidy p) as Ht by apply tidy_reached.
  destruct (tidy_unmounted p Ht) as (Ht' & Hq & Hl & Hw).
  assert (running (stopResize (stopDraw p)) = None) as Hr.
  { destruct Ht' as (_ & _ & _ & _ & _ & _ & Hlist).
    rewrite Hl in Hlist. by destruct Hlist. }
  cbn [perform]. split; [exact Hq|]. split; [exact Hw|].
  induction os' as [|o os' IH]; [done|].
  cbn [performAll fold_left]. rewrite perform_unmounted by done. exact IH.
Qed.

End Effects.

Section EffectsExamples.

Lemma resize_is_debounced_witness :
  listening (reached defaultProps false desktop smallCanvas (of_Z 16)
               [Resized; AnimationFrame (frameAt 33) smallCanvas]) = true /\
  randState
    (widget (animationFrame defaultProps (frameAt 50) smallCanvas
               (performAll defaultProps (replicate 3 Resized)
                  (reached defaultProps false desktop smallCanvas (of_Z 16)
                     [Resized; AnimationFrame (frameAt 33) smallCanvas]))))
  = randState (computeGrid true (frameWindow (frameAt 50)) smallCanvas defaultProps
                 (widget (reached defaultProps false desktop smallCanvas (of_Z 16)
                            [Resized; AnimationFrame (frameAt 33) smallCanvas]))).
Proof.
  split; [vm_compute; reflexivity|].
  apply (resize_is_debounced defaultProps false desktop smallCanvas (of_Z 16)
           [Resized; AnimationFrame (frameAt 33) smallCanvas] 2 (frameAt 50)
           smallCanvas).
  vm_compute. reflexivity.
Defined.

Lemma draw_loop_keeps_running_witness :
  listening (reached defaultProps false desktop smallCanvas (of_Z 16)
               [AnimationFrame (frameAt 33) smallCanvas; Rerun true; Resized])
    = true /\
  (exists h i,
     running (reached defaultProps false desktop smallCanvas (of_Z 16)
                [AnimationFrame (frameAt 33) smallCanvas; Rerun true; Resized])
       = Some i /\
     rafRef (reached defaultProps false desktop smallCanvas (of_Z 16)
               [AnimationFrame (frameAt 33) smallCanvas; Rerun true; Resized])
       = Some h /\
     List.filter isDraw
       (queue (reached defaultProps false desktop smallCanvas (of_Z 16)
                 [AnimationFrame (frameAt 33) smallCanvas; Rerun true; Resized]))
       = [(h, DrawCallback i)]) /\
  lastTimestampRef
    (widget (animationFrame defaultProps (frameAt 50) smallCanvas
               (reached defaultProps false desktop smallCanvas (of_Z 16)
                  [AnimationFrame (frameAt 33) smallCanvas; Rerun true; Resized])))
    = t (frameAt 50).
Proof.
  split; [vm_compute; reflexivity|].
  apply (draw_loop_keeps_running defaultProps false desktop smallCanvas (of_Z 16)
           [AnimationFrame (frameAt 33) smallCanvas; Rerun true; Resized]
           (frameAt 50) smallCanvas).
  vm_compute. reflexivity.
Defined.

End EffectsExamples.
